(** * nelmin.py: the Nelder-Mead simplex minimizer

    A shallow embedding of [src/lib/eilmer/nelmin.py] (class [NMSimplex] and
    the driver [minimize]) together with the properties the design document
    states about it.

    Layout:
    - [Scalar]: the arithmetic the code uses on Python/numpy floats, as an
      interface, with the IEEE binary64 instance [float64] (what the code
      runs on) and the exact rational instance [exactQ];
    - the value model, at the top level.  Vertices are lists of scalars, the
      simplex is a record passed explicitly, every call of the objective is
      logged;
    - the reference model, in module [Ref].  numpy arrays live in a store and
      are named by locations, so that in-place updates and [.copy()] are
      visible;
    - the vocabulary of the statements, the facts about each method, and the
      properties of the design document, each under its claim number. *)

From Stdlib Require Import ZArith QArith Qabs Floats SpecFloat Lia.
From stdpp Require Import base tactics option list.

Local Open Scope nat_scope.

(* Decimal literals denote the nearest binary64 number, as in Python. *)
Set Warnings "-inexact-float".

(** ** Scalars *)

(** The operations [nelmin.py] applies to floating-point numbers.  [of_nat]
    is the implicit conversion of a Python [int] ([self.N], [self.N + 1],
    the literal [2]) in mixed arithmetic; [tenth] and [half] are the literals
    [0.1] and [0.5]. *)
Class Scalar := {
  num : Type;
  of_nat : nat -> num;
  tenth : num;
  half : num;
  add : num -> num -> num;
  sub : num -> num -> num;
  mul : num -> num -> num;
  div : num -> num -> num;
  sqrt : num -> num;
  ltb : num -> num -> bool;
}.

(** [<] is a strict weak order on the numbers that satisfy [valid] - on
    binary64, the numbers that are not NaN. *)
Class StrictWeakOrder `{Scalar} (valid : num -> Prop) : Prop := {
  ltb_asym : forall a b, valid a -> valid b -> ltb a b = true -> ltb b a = false;
  ltb_cotrans : forall a b c, valid a -> valid b -> valid c ->
    ltb a c = true -> ltb a b = true \/ ltb b c = true;
}.

Definition zero `{Scalar} : num := of_nat 0.
Definition one `{Scalar} : num := of_nat 1.
Definition two `{Scalar} : num := of_nat 2.

(** IEEE 754 binary64, round to nearest even: Python's [float] and numpy's
    [float64]. *)
Definition float64 : Scalar := {|
  num := float;
  of_nat n := PrimFloat.of_uint63 (Uint63.of_Z (Z.of_nat n));
  tenth := 0x1.999999999999ap-4%float;
  half := 0.5%float;
  add := PrimFloat.add;
  sub := PrimFloat.sub;
  mul := PrimFloat.mul;
  div := PrimFloat.div;
  sqrt := PrimFloat.sqrt;
  ltb := PrimFloat.ltb;
|}.

(** Exact rational arithmetic.  The square root is the floor of the root at
    the denominator's precision; it is exact on the squares of rationals. *)
Definition Qsqrt (q : Q) : Q :=
  (Z.sqrt (Qnum q * Z.pos (Qden q)) # Qden q)%Q.

Definition Qltb (a b : Q) : bool := negb (Qle_bool b a).

Definition exactQ : Scalar := {|
  num := Q;
  of_nat n := inject_Z (Z.of_nat n);
  tenth := (1 # 10)%Q;
  half := (1 # 2)%Q;
  add := Qplus;
  sub := Qminus;
  mul := Qmult;
  div := Qdiv;
  sqrt := Qsqrt;
  ltb := Qltb;
|}.

(** ** Exceptions and outcomes *)

Inductive exn : Set :=
| IndexError            (* subscript out of range *)
| ValueError            (* numpy: operands could not be broadcast together *)
| ZeroDivisionError     (* float division by zero *)
| UnboundLocalError     (* local variable referenced before assignment *)
| ObjectiveFailure      (* the objective function raised *)
| InvalidReference.     (* reference model only: a location outside the store *)

Inductive outcome (A : Type) : Type :=
| Ok (a : A)
| Raise (e : exn)
| OutOfFuel.            (* the model of the [while] loop ran out of fuel *)
Arguments Ok {A} a.
Arguments Raise {A} e.
Arguments OutOfFuel {A}.

(** State-and-exception monad over a world [W]; the world survives a raise. *)
Definition M (W A : Type) : Type := W -> outcome A * W.

Definition ret {W A} (a : A) : M W A := fun w => (Ok a, w).
Definition raise {W A} (e : exn) : M W A := fun w => (Raise e, w).
Definition bind {W A B} (m : M W A) (k : A -> M W B) : M W B :=
  fun w => match m w with
           | (Ok a, w') => k a w'
           | (Raise e, w') => (Raise e, w')
           | (OutOfFuel, w') => (OutOfFuel, w')
           end.

Declare Scope py_scope.
Delimit Scope py_scope with py.
Notation "x <- m ;; k" := (bind m (fun x => k))
  (at level 100, m at next level, right associativity) : py_scope.
Local Open Scope py_scope.

(** [for i in range(n): body], threading the loop-carried state [a]. *)
Fixpoint for_in {W A} (ixs : list nat) (body : nat -> A -> M W A) (a : A) : M W A :=
  match ixs with
  | [] => ret a
  | i :: ixs' => a' <- body i a ;; for_in ixs' body a'
  end.

Definition for_range {W A} (n : nat) (body : nat -> A -> M W A) (a : A) : M W A :=
  for_in (seq 0 n) body a.

(** [l[i]] for a non-negative [i]. *)
Definition py_get {W A} (l : list A) (i : nat) : M W A :=
  match l !! i with
  | Some a => ret a
  | None => raise IndexError
  end.

(** [l[i] = a] for a non-negative [i]. *)
Definition py_set {W A} (l : list A) (i : nat) (a : A) : M W (list A) :=
  if decide (i < length l) then ret (<[i := a]> l) else raise IndexError.

(** ** numpy arrays of rank one, as values *)

Abbreviation vec := (list num).

Section numpy.
Context `{Scalar} {W : Type}.

(** [a op b] on two arrays: equal shapes combine pointwise, a one-element
    operand is broadcast, anything else does not broadcast. *)
Definition np_binop (op : num -> num -> num) (a b : vec) : M W vec :=
  if decide (length a = length b) then ret (zip_with op a b)
  else match a, b with
       | _, [y] => ret (map (fun x => op x y) a)
       | [x], _ => ret (map (fun y => op x y) b)
       | _, _ => raise ValueError
       end.

(** [a op= b], in place: the result keeps the shape of [a]. *)
Definition np_iop (op : num -> num -> num) (a b : vec) : M W vec :=
  if decide (length b = length a) then ret (zip_with op a b)
  else match b with
       | [y] => ret (map (fun x => op x y) a)
       | _ => raise ValueError
       end.

(** [k * a] for a Python float [k]. *)
Definition np_scale (k : num) (a : vec) : vec := map (fun x => mul k x) a.

(** [p[j] += d] and [p[j] -= d] on one element. *)
Definition np_item_iop (op : num -> num -> num) (p : vec) (j : nat) (d : num) : M W vec :=
  pj <- py_get p j ;;
  py_set p j (op pj d).

End numpy.

(** ** The simplex object *)

(** The fields of an [NMSimplex] instance ([self.f] apart, which never
    changes).  [array] is how a numpy array is held: by value ([vec]) in the
    value model, by location in the reference model. *)
Record NMSimplex `{Scalar} (array : Type) : Type := {
  N : nat;
  vertex_list : list array;
  f_list : list num;
  dx : array;
  nfe : nat;
  nrestarts : nat;
}.
Arguments N {_ _} _.
Arguments vertex_list {_ _} _.
Arguments f_list {_ _} _.
Arguments dx {_ _} _.
Arguments nfe {_ _} _.
Arguments nrestarts {_ _} _.

Section fields.
Context `{Scalar} {array : Type}.
Implicit Type self : NMSimplex array.

(** Field updates, written [self.field = v] in the source. *)
Definition with_vertex_list self (v : list array) : NMSimplex array :=
  {| N := N self; vertex_list := v; f_list := f_list self; dx := dx self;
     nfe := nfe self; nrestarts := nrestarts self |}.
Definition with_f_list self (v : list num) : NMSimplex array :=
  {| N := N self; vertex_list := vertex_list self; f_list := v; dx := dx self;
     nfe := nfe self; nrestarts := nrestarts self |}.
Definition with_dx self (v : array) : NMSimplex array :=
  {| N := N self; vertex_list := vertex_list self; f_list := f_list self; dx := v;
     nfe := nfe self; nrestarts := nrestarts self |}.
Definition with_nfe self (v : nat) : NMSimplex array :=
  {| N := N self; vertex_list := vertex_list self; f_list := f_list self; dx := dx self;
     nfe := v; nrestarts := nrestarts self |}.
Definition with_nrestarts self (v : nat) : NMSimplex array :=
  {| N := N self; vertex_list := vertex_list self; f_list := f_list self; dx := dx self;
     nfe := nfe self; nrestarts := v |}.

End fields.

(** ** The methods that only read the cached values *)

Section cached_values.
Context `{Scalar} {array W : Type}.
Implicit Type self : NMSimplex array.

(** [lowest(self, exclude=-1)] *)
Definition lowest self (exclude : Z) : M W nat :=
  let indx := if decide (exclude = 0%Z) then 1 else 0 in
  lowest_f_value <- py_get (f_list self) indx ;;
  r <- for_range (N self + 1)
         (fun i (st : num * nat) =>
            if decide (Z.of_nat i = exclude) then ret st
            else fi <- py_get (f_list self) i ;;
                 if ltb fi (fst st) then ret (fi, i) else ret st)
         (lowest_f_value, indx) ;;
  ret (snd r).

(** [highest(self, exclude=-1)] *)
Definition highest self (exclude : Z) : M W nat :=
  let indx := if decide (exclude = 0%Z) then 1 else 0 in
  highest_f_value <- py_get (f_list self) indx ;;
  r <- for_range (N self + 1)
         (fun i (st : num * nat) =>
            if decide (Z.of_nat i = exclude) then ret st
            else fi <- py_get (f_list self) i ;;
                 if ltb (fst st) fi then ret (fi, i) else ret st)
         (highest_f_value, indx) ;;
  ret (snd r).

(** [sum(l)]: Python starts from the integer 0. *)
Definition py_sum (l : list num) : num := fold_left add l zero.

(** [f_statistics(self)].  The quotient [s/self.N] is a division of Python
    floats: it raises when [self.N] is 0. *)
Definition f_statistics self : M W (num * num) :=
  let mean := div (py_sum (f_list self)) (of_nat (N self + 1)) in
  s <- for_range (N self + 1)
         (fun i s =>
            fi <- py_get (f_list self) i ;;
            let diff := sub fi mean in
            ret (add s (mul diff diff)))
         zero ;;
  if decide (N self = 0) then raise ZeroDivisionError
  else ret (mean, sqrt (div s (of_nat (N self)))).

(** [count] in [take_a_step]: the vertices whose cached value is above [f_refl]. *)
Definition count_above self (f_refl : num) : M W nat :=
  for_range (N self + 1)
    (fun i count =>
       fi <- py_get (f_list self) i ;;
       if ltb f_refl fi then ret (count + 1) else ret count)
    0.

End cached_values.

(** ** The value model *)

(** The world of the value model: the arguments the objective function has
    been called with, oldest first. *)
Abbreviation calls := (list vec).

Section value_model.
Context `{Scalar}.
Implicit Type self smplx : NMSimplex vec.

(** The user-specified objective function; [None] when it raises. *)
Variable f : vec -> option num.

(** [self.f(p)]: one call of the objective, logged. *)
Definition call (p : vec) : M calls num :=
  fun log => match f p with
             | Some y => (Ok y, log ++ [p])
             | None => (Raise ObjectiveFailure, log ++ [p])
             end.

(** [NMSimplex.__init__(self, x, dx, f)] *)
Definition NMSimplex_init (x dx0 : vec) : M calls (NMSimplex vec) :=
  for_range (length x + 1)
    (fun i self =>
       let p := x in                                  (* p = x.copy() *)
       p <- (if decide (1 <= i)
             then d <- py_get dx0 (i - 1) ;;          (* p[i-1] += dx[i-1] *)
                  np_item_iop add p (i - 1) d
             else ret p) ;;
       let self := with_vertex_list self (vertex_list self ++ [p]) in
       y <- call p ;;
       let self := with_f_list self (f_list self ++ [y]) in
       ret (with_nfe self (nfe self + 1)))
    {| N := length x; vertex_list := []; f_list := []; dx := dx0;
       nfe := 0; nrestarts := 0 |}.

Definition get_vertex {W} self (i : nat) : M W vec :=
  py_get (vertex_list self) i.

Definition replace_vertex {W} self (i : nat) (x : vec) (fvalue : num)
  : M W (NMSimplex vec) :=
  vl <- py_set (vertex_list self) i x ;;
  let self := with_vertex_list self vl in
  fl <- py_set (f_list self) i fvalue ;;
  ret (with_f_list self fl).

(** [centroid(self, exclude=-1)] *)
Definition centroid {W} self (exclude : Z) : M W vec :=
  xmid <- for_range (N self + 1)
            (fun i xmid =>
               if decide (Z.of_nat i = exclude) then ret xmid
               else v <- py_get (vertex_list self) i ;;
                    np_iop add xmid v)
            (repeat zero (N self)) ;;
  ret (map (fun c => div c (of_nat (N self))) xmid).

(** [contract_about_one_point(self, i_con)] *)
Definition contract_about_one_point self (i_con : nat) : M calls (NMSimplex vec) :=
  p_con <- py_get (vertex_list self) i_con ;;
  for_range (N self + 1)
    (fun i self =>
       if decide (i = i_con) then ret self
       else vi <- py_get (vertex_list self) i ;;
            p <- np_binop add (np_scale half vi) (np_scale half p_con) ;;
            y <- call p ;;
            fl <- py_set (f_list self) i y ;;
            let self := with_f_list self fl in
            let self := with_nfe self (nfe self + 1) in
            vl <- py_set (vertex_list self) i p ;;
            ret (with_vertex_list self vl))
    self.

(** [rescale(self, ratio)] *)
Definition rescale self (ratio : num) : M calls (NMSimplex vec) :=
  i_min <- lowest self (-1) ;;
  let self := with_dx self (map (fun d => mul d ratio) (dx self)) in  (* self.dx *= ratio *)
  x <- get_vertex self i_min ;;
  f_min <- py_get (f_list self) i_min ;;
  let self := with_vertex_list self [] in
  let self := with_f_list self [] in
  self <- for_range (N self + 1)
            (fun i self =>
               let p := x in                          (* p = x.copy() *)
               if decide (i = 0)
               then let self := with_f_list self (f_list self ++ [f_min]) in
                    ret (with_vertex_list self (vertex_list self ++ [p]))
               else d <- py_get (dx self) (i - 1) ;;  (* p[i-1] += self.dx[i-1] *)
                    p <- np_item_iop add p (i - 1) d ;;
                    y <- call p ;;
                    let self := with_f_list self (f_list self ++ [y]) in
                    let self := with_nfe self (nfe self + 1) in
                    ret (with_vertex_list self (vertex_list self ++ [p])))
            self ;;
  ret (with_nrestarts self (nrestarts self + 1)).

(** The body of the loop of [test_for_minimum], over the remaining axes;
    leaving the recursion early is the source's [break]. *)
Fixpoint test_for_minimum_axes (js : list nat) self (i_min : nat)
    (delta f_min : num) : M calls (bool * NMSimplex vec) :=
  match js with
  | [] => ret (true, self)
  | j :: js' =>
      p <- get_vertex self i_min ;;
      d <- py_get (dx self) j ;;
      p <- np_item_iop add p j (mul d delta) ;;       (* p[j] += self.dx[j] * delta *)
      f_p <- call p ;;
      let self := with_nfe self (nfe self + 1) in
      if ltb f_p f_min then ret (false, self)
      else
        d <- py_get (dx self) j ;;
        p <- np_item_iop sub p j (mul (mul d delta) two) ;;  (* p[j] -= self.dx[j] * delta * 2 *)
        f_p <- call p ;;
        let self := with_nfe self (nfe self + 1) in
        if ltb f_p f_min then ret (false, self)
        else test_for_minimum_axes js' self i_min delta f_min
  end.

(** [test_for_minimum(self, i_min, delta)]: the flag [is_minimum] and the
    simplex after the call. *)
Definition test_for_minimum self (i_min : nat) (delta : num)
  : M calls (bool * NMSimplex vec) :=
  f_min <- py_get (f_list self) i_min ;;
  test_for_minimum_axes (seq 0 (N self)) self i_min delta f_min.

(** [take_a_step(self, Kreflect, Kextend, Kcontract)] *)
Definition take_a_step self (Kreflect Kextend Kcontract : num)
  : M calls (NMSimplex vec) :=
  i_low <- lowest self (-1) ;;
  i_high <- highest self (-1) ;;
  x_high <- py_get (vertex_list self) i_high ;;
  f_high <- py_get (f_list self) i_high ;;
  x_mid <- centroid self (Z.of_nat i_high) ;;
  f_mid <- call x_mid ;;
  let self := with_nfe self (nfe self + 1) in
  x_refl <- np_binop sub (np_scale (add one Kreflect) x_mid) (np_scale Kreflect x_high) ;;
  f_refl <- call x_refl ;;
  let self := with_nfe self (nfe self + 1) in
  if ltb f_refl f_mid then
    x_ext <- np_binop add (np_scale Kextend x_refl) (np_scale (sub one Kextend) x_mid) ;;
    f_ext <- call x_ext ;;
    let self := with_nfe self (nfe self + 1) in
    if ltb f_ext f_refl then replace_vertex self i_high x_ext f_ext
    else replace_vertex self i_high x_refl f_refl
  else
    count <- count_above self f_refl ;;
    if decide (count <= 1) then
      x_con <- np_binop add (np_scale (sub one Kcontract) x_mid) (np_scale Kcontract x_high) ;;
      f_con <- call x_con ;;
      let self := with_nfe self (nfe self + 1) in
      if ltb f_con f_high then replace_vertex self i_high x_con f_con
      else contract_about_one_point self i_low
    else replace_vertex self i_high x_refl f_refl.

(** What [minimize] returns:
    [(x_best, f_best, converged, smplx.nfe, smplx.nrestarts)]. *)
Definition result : Type := vec * num * bool * nat * nat.

(** The [while] loop of [minimize] and its [return].  [best] holds the locals
    [x_best] and [f_best], unbound until the loop body has run once. *)
Fixpoint minimize_loop (fuel : nat) (tol : num) (maxfe n_check : Z) (delta : num)
    (Kreflect Kextend Kcontract : num)
    (converged : bool) (best : option (vec * num)) smplx
  : M calls result :=
  if negb converged && (Z.of_nat (nfe smplx) <? maxfe)%Z then
    match fuel with
    | 0 => fun w => (OutOfFuel, w)
    | S fuel' =>
        smplx <- for_range (Z.to_nat n_check)
                   (fun _ smplx => take_a_step smplx Kreflect Kextend Kcontract) smplx ;;
        i_best <- lowest smplx (-1) ;;
        x_best <- get_vertex smplx i_best ;;
        f_best <- py_get (f_list smplx) i_best ;;
        stats <- f_statistics smplx ;;
        let stddev := snd stats in
        if ltb stddev tol then
          r <- test_for_minimum smplx i_best delta ;;
          let converged := fst r in
          let smplx := snd r in
          if negb converged then
            smplx <- rescale smplx delta ;;
            minimize_loop fuel' tol maxfe n_check delta Kreflect Kextend Kcontract
              converged (Some (x_best, f_best)) smplx
          else
            minimize_loop fuel' tol maxfe n_check delta Kreflect Kextend Kcontract
              converged (Some (x_best, f_best)) smplx
        else
          minimize_loop fuel' tol maxfe n_check delta Kreflect Kextend Kcontract
            converged (Some (x_best, f_best)) smplx
    end
  else
    match best with
    | Some (x_best, f_best) =>
        ret (x_best, f_best, converged, nfe smplx, nrestarts smplx)
    | None => raise UnboundLocalError
    end.

(** [minimize(f, x, dx, tol, maxfe, n_check, delta, Kreflect, Kextend,
    Kcontract)]; [dx0 = None] is the default [dx=None]. *)
Definition minimize (fuel : nat) (x : vec) (dx0 : option vec) (tol : num)
    (maxfe n_check : Z) (delta : num) (Kreflect Kextend Kcontract : num)
  : M calls result :=
  let converged := false in
  let n := length x in
  let dx0 := match dx0 with
             | None => repeat tenth n       (* numpy.array([0.1]*N) *)
             | Some d => d
             end in
  smplx <- NMSimplex_init x dx0 ;;
  minimize_loop fuel tol maxfe n_check delta Kreflect Kextend Kcontract
    converged None smplx.

End value_model.

(** ** The reference model *)

(** numpy arrays are mutable objects.  Here they live in a store and the
    program holds their locations, so that [a.copy()] (a new object) differs
    from [a] (the same object) and the in-place operators [+=], [-=], [*=],
    [/=] and [p[j] = v] change the object every holder sees.  Python lists of
    floats ([f_list]) and of references ([vertex_list]) belong to the simplex
    alone and stay values. *)
Module Ref.

Abbreviation loc := nat.
Abbreviation store := (list vec).

Section reference_model.
Context `{Scalar}.
Implicit Type self smplx : NMSimplex loc.

Variable f : vec -> option num.

(** A new array object. *)
Definition np_new (v : vec) : M store loc :=
  fun h => (Ok (length h), h ++ [v]).

(** The contents of an array object. *)
Definition np_read (l : loc) : M store vec :=
  fun h => match h !! l with
           | Some v => (Ok v, h)
           | None => (Raise InvalidReference, h)
           end.

(** Overwriting the contents of an array object, in place. *)
Definition np_write (l : loc) (v : vec) : M store unit :=
  fun h => if decide (l < length h) then (Ok tt, <[l := v]> h)
           else (Raise InvalidReference, h).

(** [a.copy()] *)
Definition np_copy (l : loc) : M store loc :=
  v <- np_read l ;;
  np_new v.

(** [a[j]] *)
Definition np_item (l : loc) (j : nat) : M store num :=
  v <- np_read l ;;
  py_get v j.

(** [p[j] += d] and [p[j] -= d] *)
Definition np_item_iop_ref (op : num -> num -> num) (p : loc) (j : nat) (d : num)
  : M store unit :=
  v <- np_read p ;;
  v' <- np_item_iop op v j d ;;
  np_write p v'.

(** [self.f(p)]: the objective reads the array it is given and nothing else. *)
Definition call (p : loc) : M store num :=
  v <- np_read p ;;
  match f v with
  | Some y => ret y
  | None => raise ObjectiveFailure
  end.

(** [NMSimplex.__init__(self, x, dx, f)] *)
Definition NMSimplex_init (x dx0 : loc) : M store (NMSimplex loc) :=
  xv <- np_read x ;;
  self_dx <- np_copy dx0 ;;                           (* self.dx = dx.copy() *)
  for_range (length xv + 1)
    (fun i self =>
       p <- np_copy x ;;                              (* p = x.copy() *)
       _ <- (if decide (1 <= i)
             then d <- np_item dx0 (i - 1) ;;         (* p[i-1] += dx[i-1] *)
                  np_item_iop_ref add p (i - 1) d
             else ret tt) ;;
       let self := with_vertex_list self (vertex_list self ++ [p]) in
       y <- call p ;;
       let self := with_f_list self (f_list self ++ [y]) in
       ret (with_nfe self (nfe self + 1)))
    {| N := length xv; vertex_list := []; f_list := []; dx := self_dx;
       nfe := 0; nrestarts := 0 |}.

Definition get_vertex self (i : nat) : M store loc :=
  v <- py_get (vertex_list self) i ;;
  np_copy v.

Definition replace_vertex self (i : nat) (x : loc) (fvalue : num)
  : M store (NMSimplex loc) :=
  c <- np_copy x ;;
  vl <- py_set (vertex_list self) i c ;;
  let self := with_vertex_list self vl in
  fl <- py_set (f_list self) i fvalue ;;
  ret (with_f_list self fl).

(** [centroid(self, exclude=-1)] *)
Definition centroid self (exclude : Z) : M store loc :=
  xmid <- np_new (repeat zero (N self)) ;;
  _ <- for_range (N self + 1)
         (fun i (_ : unit) =>
            if decide (Z.of_nat i = exclude) then ret tt
            else v <- py_get (vertex_list self) i ;;
                 a <- np_read xmid ;;                 (* xmid += self.vertex_list[i] *)
                 b <- np_read v ;;
                 a' <- np_iop add a b ;;
                 np_write xmid a')
         tt ;;
  a <- np_read xmid ;;                                (* xmid /= self.N *)
  _ <- np_write xmid (map (fun c => div c (of_nat (N self))) a) ;;
  ret xmid.

(** [k1*a + k2*b] and [k1*a - k2*b]: a new array (the two products are
    temporaries nobody keeps). *)
Definition np_combine (op : num -> num -> num) (k1 : num) (a : loc) (k2 : num) (b : loc)
  : M store loc :=
  av <- np_read a ;;
  bv <- np_read b ;;
  r <- np_binop op (np_scale k1 av) (np_scale k2 bv) ;;
  np_new r.

(** [contract_about_one_point(self, i_con)] *)
Definition contract_about_one_point self (i_con : nat) : M store (NMSimplex loc) :=
  p_con <- py_get (vertex_list self) i_con ;;
  for_range (N self + 1)
    (fun i self =>
       if decide (i = i_con) then ret self
       else vi <- py_get (vertex_list self) i ;;
            p <- np_combine add half vi half p_con ;;
            y <- call p ;;
            fl <- py_set (f_list self) i y ;;
            let self := with_f_list self fl in
            let self := with_nfe self (nfe self + 1) in
            vl <- py_set (vertex_list self) i p ;;
            ret (with_vertex_list self vl))
    self.

(** [rescale(self, ratio)] *)
Definition rescale self (ratio : num) : M store (NMSimplex loc) :=
  i_min <- lowest self (-1) ;;
  d <- np_read (dx self) ;;                           (* self.dx *= ratio *)
  _ <- np_write (dx self) (map (fun d => mul d ratio) d) ;;
  x <- get_vertex self i_min ;;
  f_min <- py_get (f_list self) i_min ;;
  let self := with_vertex_list self [] in
  let self := with_f_list self [] in
  self <- for_range (N self + 1)
            (fun i self =>
               p <- np_copy x ;;
               if decide (i = 0)
               then let self := with_f_list self (f_list self ++ [f_min]) in
                    ret (with_vertex_list self (vertex_list self ++ [p]))
               else d <- np_item (dx self) (i - 1) ;;
                    _ <- np_item_iop_ref add p (i - 1) d ;;
                    y <- call p ;;
                    let self := with_f_list self (f_list self ++ [y]) in
                    let self := with_nfe self (nfe self + 1) in
                    ret (with_vertex_list self (vertex_list self ++ [p])))
            self ;;
  ret (with_nrestarts self (nrestarts self + 1)).

Fixpoint test_for_minimum_axes (js : list nat) self (i_min : nat)
    (delta f_min : num) : M store (bool * NMSimplex loc) :=
  match js with
  | [] => ret (true, self)
  | j :: js' =>
      p <- get_vertex self i_min ;;
      d <- np_item (dx self) j ;;
      _ <- np_item_iop_ref add p j (mul d delta) ;;
      f_p <- call p ;;
      let self := with_nfe self (nfe self + 1) in
      if ltb f_p f_min then ret (false, self)
      else
        d <- np_item (dx self) j ;;
        _ <- np_item_iop_ref sub p j (mul (mul d delta) two) ;;
        f_p <- call p ;;
        let self := with_nfe self (nfe self + 1) in
        if ltb f_p f_min then ret (false, self)
        else test_for_minimum_axes js' self i_min delta f_min
  end.

(** [test_for_minimum(self, i_min, delta)] *)
Definition test_for_minimum self (i_min : nat) (delta : num)
  : M store (bool * NMSimplex loc) :=
  f_min <- py_get (f_list self) i_min ;;
  test_for_minimum_axes (seq 0 (N self)) self i_min delta f_min.

(** [take_a_step(self, Kreflect, Kextend, Kcontract)] *)
Definition take_a_step self (Kreflect Kextend Kcontract : num)
  : M store (NMSimplex loc) :=
  i_low <- lowest self (-1) ;;
  i_high <- highest self (-1) ;;
  x_high <- py_get (vertex_list self) i_high ;;
  f_high <- py_get (f_list self) i_high ;;
  x_mid <- centroid self (Z.of_nat i_high) ;;
  f_mid <- call x_mid ;;
  let self := with_nfe self (nfe self + 1) in
  x_refl <- np_combine sub (add one Kreflect) x_mid Kreflect x_high ;;
  f_refl <- call x_refl ;;
  let self := with_nfe self (nfe self + 1) in
  if ltb f_refl f_mid then
    x_ext <- np_combine add Kextend x_refl (sub one Kextend) x_mid ;;
    f_ext <- call x_ext ;;
    let self := with_nfe self (nfe self + 1) in
    if ltb f_ext f_refl then replace_vertex self i_high x_ext f_ext
    else replace_vertex self i_high x_refl f_refl
  else
    count <- count_above self f_refl ;;
    if decide (count <= 1) then
      x_con <- np_combine add (sub one Kcontract) x_mid Kcontract x_high ;;
      f_con <- call x_con ;;
      let self := with_nfe self (nfe self + 1) in
      if ltb f_con f_high then replace_vertex self i_high x_con f_con
      else contract_about_one_point self i_low
    else replace_vertex self i_high x_refl f_refl.

(** What [minimize] returns, [x_best] being a reference to a new array. *)
Definition result : Type := loc * num * bool * nat * nat.

Fixpoint minimize_loop (fuel : nat) (tol : num) (maxfe n_check : Z) (delta : num)
    (Kreflect Kextend Kcontract : num)
    (converged : bool) (best : option (loc * num)) smplx
  : M store result :=
  if negb converged && (Z.of_nat (nfe smplx) <? maxfe)%Z then
    match fuel with
    | 0 => fun w => (OutOfFuel, w)
    | S fuel' =>
        smplx <- for_range (Z.to_nat n_check)
                   (fun _ smplx => take_a_step smplx Kreflect Kextend Kcontract) smplx ;;
        i_best <- lowest smplx (-1) ;;
        v <- get_vertex smplx i_best ;;
        x_best <- np_copy v ;;               (* smplx.get_vertex(i_best).copy() *)
        f_best <- py_get (f_list smplx) i_best ;;
        stats <- f_statistics smplx ;;
        let stddev := snd stats in
        if ltb stddev tol then
          r <- test_for_minimum smplx i_best delta ;;
          let converged := fst r in
          let smplx := snd r in
          if negb converged then
            smplx <- rescale smplx delta ;;
            minimize_loop fuel' tol maxfe n_check delta Kreflect Kextend Kcontract
              converged (Some (x_best, f_best)) smplx
          else
            minimize_loop fuel' tol maxfe n_check delta Kreflect Kextend Kcontract
              converged (Some (x_best, f_best)) smplx
        else
          minimize_loop fuel' tol maxfe n_check delta Kreflect Kextend Kcontract
            converged (Some (x_best, f_best)) smplx
    end
  else
    match best with
    | Some (x_best, f_best) =>
        ret (x_best, f_best, converged, nfe smplx, nrestarts smplx)
    | None => raise UnboundLocalError
    end.

(** [minimize(f, x, dx, ...)], the caller passing references to its arrays. *)
Definition minimize (fuel : nat) (x : loc) (dx0 : option loc) (tol : num)
    (maxfe n_check : Z) (delta : num) (Kreflect Kextend Kcontract : num)
  : M store result :=
  let converged := false in
  xv <- np_read x ;;
  let n := length xv in
  dx0 <- match dx0 with
         | None => np_new (repeat tenth n)   (* numpy.array([0.1]*N) *)
         | Some d => ret d
         end ;;
  smplx <- NMSimplex_init x dx0 ;;
  minimize_loop fuel tol maxfe n_check delta Kreflect Kextend Kcontract
    converged None smplx.

End reference_model.
End Ref.

(** ** Objective functions *)

(** An objective that never raises. *)
Definition total `{Scalar} (g : vec -> num) : vec -> option num :=
  fun p => Some (g p).

(** [test_fun_1(x)] of the module's self-test: the sum of [(x[i] - 1.0)^2]. *)
Definition test_fun_1 `{Scalar} (x : vec) : num :=
  fold_left (fun sum xi => add sum (mul (sub xi one) (sub xi one))) x zero.

(** [test_fun_2(x)] of the module's self-test (Example 3.3 of Olsson and
    Nelson), on binary64 numbers; unpacking [x1, x2 = x] raises unless [x] has
    two coordinates. *)
Definition test_fun_2 (x : list float) : option float :=
  match x with
  | [x1; x2] =>
      if PrimFloat.ltb 1 (x1 * x1 + x2 * x2) then Some 1.0e38
      else
        let yp := 53.69 + 7.26 * x1 - 10.33 * x2 + 7.22 * x1 * x1
                  + 6.43 * x2 * x2 + 11.36 * x1 * x2 in
        let ys := 82.17 - 1.01 * x1 - 8.61 * x2 + 1.40 * x1 * x1
                  - 8.76 * x2 * x2 - 7.20 * x1 * x2 in
        Some (- yp + PrimFloat.abs (ys - 87.8))
  | _ => None
  end%float.

(** An objective that answers the sentinel [1.0e38] where [g] would answer
    NaN, as callers do for points outside the domain. *)
Definition with_sentinel (g : list float -> float) (p : list float) : float :=
  if PrimFloat.is_nan (g p) then 1.0e38%float else g p.

(** A bowl in the plane with its floor at [(0.5, c)]:
    [4(x-0.5)^2 + (y-c)^2]. *)
Definition bowl (c : float) (p : list float) : float :=
  match p with
  | [x; y] => (4 * ((x - 0.5) * (x - 0.5)) + (y - c) * (y - c))%float
  | _ => 0%float
  end.

(** ** Vocabulary of the statements *)

Section vocabulary.
Context `{Scalar}.
Implicit Type s : NMSimplex vec.

(** The seed with axis [k] incremented by [d[k]]. *)
Definition axis_step (x d : vec) (k : nat) : vec :=
  match x !! k, d !! k with
  | Some xk, Some dk => <[k := add xk dk]> x
  | _, _ => x
  end.

(** The [N+1] vertices built about [x] with the steps [d]: [x] itself, then
    one vertex per axis. *)
Definition simplex_about (x d : vec) : list vec :=
  x :: map (axis_step x d) (seq 0 (length x)).

(** The shape every simplex built by [NMSimplex_init] has and every method
    keeps: [N+1] vertices of [N] coordinates, [N+1] cached values, a step for
    every axis. *)
Record well_formed (s : NMSimplex vec) : Prop := {
  wf_vertices : length (vertex_list s) = N s + 1;
  wf_values : length (f_list s) = N s + 1;
  wf_dim : Forall (fun v => length v = N s) (vertex_list s);
  wf_dx : N s <= length (dx s);
}.

(** The objective function where it does not raise. *)
Variable g : vec -> num.

(** [<] is a strict order on the values of [l]. *)
Definition ordered_on (l : list num) : Prop :=
  (forall a, a ∈ l -> ltb a a = false) /\
  (forall a b c, a ∈ l -> b ∈ l -> c ∈ l ->
     ltb a b = true -> ltb b c = true -> ltb a c = true).

(** [y] is a least value of [l]: it occurs in [l] and nothing in [l] is
    strictly below it. *)
Definition least_value (l : list num) (y : num) : Prop :=
  y ∈ l /\ forall z, z ∈ l -> ltb z y = false.

(** Every value of [l] is matched in [l'] by a value that is not above it. *)
Definition no_worse (l' l : list num) : Prop :=
  forall z, z ∈ l -> exists z', z' ∈ l' /\ ltb z z' = false.

(** The number of values of [l] that lie strictly below [y]: the vertices
    "strictly better than" [y], which [take_a_step] does not count. *)
Definition number_below (l : list num) (y : num) : nat :=
  length (List.filter (fun fi => ltb fi y) l).

(** The number of values of [l] that lie strictly above [y]. *)
Definition number_above (l : list num) (y : num) : nat :=
  length (List.filter (fun fi => ltb y fi) l).

(** The sum of the squared deviations from [mean], accumulated as the loop
    of [f_statistics] does. *)
Definition sum_sq (mean : num) (l : list num) : num :=
  fold_left (fun acc fi => add acc (mul (sub fi mean) (sub fi mean))) l zero.

Definition mean_of {array} (self : NMSimplex array) : num :=
  div (py_sum (f_list self)) (of_nat (N self + 1)).

(** The simplex after [replace_vertex(i, x, fvalue)]. *)
Definition replaced s (i : nat) (x : vec) (fvalue : num) : NMSimplex vec :=
  {| N := N s; vertex_list := <[i := x]> (vertex_list s);
     f_list := <[i := fvalue]> (f_list s); dx := dx s;
     nfe := nfe s; nrestarts := nrestarts s |}.

(** [0.5*v + 0.5*p] *)
Definition midpoint (v p : vec) : vec :=
  zip_with add (np_scale half v) (np_scale half p).

(** [(1.0+Kreflect)*x_mid - Kreflect*x_high] *)
Definition reflected (Kreflect : num) (x_mid x_high : vec) : vec :=
  zip_with sub (np_scale (add one Kreflect) x_mid) (np_scale Kreflect x_high).

(** [Kextend*x_refl + (1.0-Kextend)*x_mid] *)
Definition extended (Kextend : num) (x_refl x_mid : vec) : vec :=
  zip_with add (np_scale Kextend x_refl) (np_scale (sub one Kextend) x_mid).

(** [(1.0-Kcontract)*x_mid + Kcontract*x_high] *)
Definition contracted (Kcontract : num) (x_mid x_high : vec) : vec :=
  zip_with add (np_scale (sub one Kcontract) x_mid) (np_scale Kcontract x_high).

(** The first probe on axis [j]: coordinate [j] of [x] plus [d[j]*delta]. *)
Definition probe_up (x d : vec) (delta : num) (j : nat) : vec :=
  match x !! j, d !! j with
  | Some xj, Some dj => <[j := add xj (mul dj delta)]> x
  | _, _ => x
  end.

(** The second probe on axis [j]: coordinate [j] of the first probe minus
    [d[j]*delta*2]. *)
Definition probe_down (x d : vec) (delta : num) (j : nat) : vec :=
  match probe_up x d delta j !! j, d !! j with
  | Some pj, Some dj => <[j := sub pj (mul (mul dj delta) two)]> (probe_up x d delta j)
  | _, _ => probe_up x d delta j
  end.

(** The probes of the axes [js], in the order the loop visits them. *)
Definition probes (x d : vec) (delta : num) (js : list nat) : list vec :=
  flat_map (fun j => [probe_up x d delta j; probe_down x d delta j]) js.

(** Visiting probes in order until one improves on [f_min]: the probes
    visited and whether none improved. *)
Fixpoint probed (f_min : num) (ps : list vec) : list vec * bool :=
  match ps with
  | [] => ([], true)
  | p :: ps' =>
      if ltb (g p) f_min then ([p], false)
      else let r := probed f_min ps' in (p :: fst r, snd r)
  end.

(** The simplex after [rescale(ratio)], [x] being the best vertex and
    [f_min] its cached value. *)
Definition rescaled s (ratio : num) (x : vec) (f_min : num) : NMSimplex vec :=
  let dx' := map (fun d => mul d ratio) (dx s) in
  {| N := N s;
     vertex_list := simplex_about x dx';
     f_list := f_min :: map g (map (axis_step x dx') (seq 0 (length x)));
     dx := dx';
     nfe := nfe s + N s;
     nrestarts := nrestarts s + 1 |}.

End vocabulary.

(** ** Effects of a computation *)

(** [m] returns the world it was given, whatever its outcome. *)
Definition quiet {W A} (m : M W A) : Prop := forall w, snd (m w) = w.

(** From [(n, log)] to [(n', log')] the counter grew by exactly the number
    of calls added to the log. *)
Definition counted `{Scalar} (n : nat) (log : calls) (n' : nat) (log' : calls)
  : Prop :=
  exists new, log' = log ++ new /\ n' = n + length new.

(** Started in a store whose first [base] objects are the caller's, [m] only
    adds objects and leaves the caller's as they were, whatever its outcome;
    when it succeeds its result satisfies [Q]. *)
Definition framed `{Scalar} (base : nat) {A} (m : M Ref.store A) (Q : A -> Prop)
  : Prop :=
  forall h, base <= length h ->
    length h <= length (snd (m h)) /\
    take base (snd (m h)) = take base h /\
    forall a, fst (m h) = Ok a -> Q a.

(** ** Vocabulary of the further properties *)

Section further_vocabulary.
Context `{Scalar}.

(** The entries of [l] that a loop skipping index [exclude] visits. *)
Definition kept {A} (exclude : Z) (l : list A) : list A :=
  if decide (0 <= exclude)%Z then delete (Z.to_nat exclude) l else l.

(** Coordinate [k] of each of the vertices [vs]. *)
Definition coordinate (k : nat) (vs : list vec) : list num :=
  omap (fun v : vec => v !! k) vs.

(** The cached values are the values of [g] at the vertices. *)
Definition coherent (g : vec -> num) (s : NMSimplex vec) : Prop :=
  f_list s = map g (vertex_list s).

End further_vocabulary.

(** Every call of the objective made by [m] returns, except possibly the
    last one; and when the last one raises, [m] stops there and raises. *)
Definition halts_at_failure `{Scalar} (f : vec -> option num) {A} (m : M calls A)
  : Prop :=
  forall log, exists new,
    snd (m log) = log ++ new /\
    (Forall (fun p => f p <> None) new \/
     exists pre p, new = pre ++ [p] /\ Forall (fun q => f q <> None) pre /\
                   f p = None /\ fst (m log) = Raise ObjectiveFailure).

Ltac simpl_fields :=
  cbv beta delta [with_vertex_list with_f_list with_dx with_nfe with_nrestarts];
  cbn [N vertex_list f_list dx nfe nrestarts].


(** ** Running the monad *)

Section monad_facts.
Context {W : Type}.

Lemma bind_ok {A B} (m : M W A) (k : A -> M W B) w a w' :
  m w = (Ok a, w') -> bind m k w = k a w'.
Proof. unfold bind. intros ->. reflexivity. Qed.

Lemma bind_raise {A B} (m : M W A) (k : A -> M W B) w e w' :
  m w = (Raise e, w') -> bind m k w = (Raise e, w').
Proof. unfold bind. intros ->. reflexivity. Qed.

Lemma bind_ok_inv {A B} (m : M W A) (k : A -> M W B) w b w2 :
  bind m k w = (Ok b, w2) ->
  exists a w1, m w = (Ok a, w1) /\ k a w1 = (Ok b, w2).
Proof.
  unfold bind. destruct (m w) as [[a | e |] w1]; intros Hk.
  - exists a, w1. split; [reflexivity | exact Hk].
  - discriminate Hk.
  - discriminate Hk.
Qed.

Lemma py_get_ok {A} (l : list A) i a (w : W) :
  l !! i = Some a -> py_get l i w = (Ok a, w).
Proof. unfold py_get. intros ->. reflexivity. Qed.

Lemma py_get_raise {A} (l : list A) i (w : W) :
  length l <= i -> py_get l i w = (@Raise A IndexError, w).
Proof.
  intros Hi. unfold py_get. rewrite (lookup_ge_None_2 l i Hi). reflexivity.
Qed.

Lemma py_set_ok {A} (l : list A) i a (w : W) :
  i < length l -> py_set l i a w = (Ok (<[i := a]> l), w).
Proof. intros Hi. unfold py_set. rewrite decide_True by exact Hi. reflexivity. Qed.

Lemma for_in_app {A} (l1 l2 : list nat) (body : nat -> A -> M W A) a w :
  for_in (l1 ++ l2) body a w = bind (for_in l1 body a) (for_in l2 body) w.
Proof.
  revert a w. induction l1 as [| i l1 IH]; intros a w; simpl.
  - reflexivity.
  - unfold bind in *. destruct (body i a w) as [[a' | e |] w']; try reflexivity.
    apply IH.
Qed.

(** A loop whose every round succeeds, by an invariant indexed by the number
    of rounds done. *)
Lemma for_in_seq_ok {A} (I : nat -> A -> W -> Prop) (body : nat -> A -> M W A) n :
  forall start a w,
    I start a w ->
    (forall i a w, start <= i < start + n -> I i a w ->
       exists a' w', body i a w = (Ok a', w') /\ I (S i) a' w') ->
    exists a' w', for_in (seq start n) body a w = (Ok a', w') /\ I (start + n) a' w'.
Proof.
  induction n as [| n IH]; intros start a w H0 Hstep; simpl.
  - exists a, w. rewrite Nat.add_0_r. split; [reflexivity | exact H0].
  - destruct (Hstep start a w) as (a1 & w1 & Hb & H1); [lia | exact H0 |].
    rewrite (bind_ok _ _ _ _ _ Hb).
    destruct (IH (S start) a1 w1 H1) as (a2 & w2 & Hl & H2).
    { intros i a' w' Hi. apply Hstep. lia. }
    exists a2, w2. split; [exact Hl |].
    replace (start + S n) with (S start + n) by lia. exact H2.
Qed.

Lemma for_range_ok {A} (I : nat -> A -> W -> Prop) (body : nat -> A -> M W A) n a w :
  I 0 a w ->
  (forall i a w, i < n -> I i a w ->
     exists a' w', body i a w = (Ok a', w') /\ I (S i) a' w') ->
  exists a' w', for_range n body a w = (Ok a', w') /\ I n a' w'.
Proof.
  intros H0 Hstep. unfold for_range.
  destruct (for_in_seq_ok I body n 0 a w H0) as (a' & w' & Hl & Hn).
  { intros i a1 w1 Hi. apply Hstep. lia. }
  exists a', w'. split; [exact Hl | exact Hn].
Qed.

(** A loop that raises in round [k], after [k] successful rounds. *)
Lemma for_range_raise {A} (I : nat -> A -> W -> Prop) (E : W -> Prop)
    (body : nat -> A -> M W A) n k e a w :
  k < n ->
  I 0 a w ->
  (forall i a w, i < k -> I i a w ->
     exists a' w', body i a w = (Ok a', w') /\ I (S i) a' w') ->
  (forall a w, I k a w -> exists w', body k a w = (Raise e, w') /\ E w') ->
  exists w', for_range n body a w = (Raise e, w') /\ E w'.
Proof.
  intros Hk H0 Hstep Hraise. unfold for_range.
  replace n with (k + (1 + (n - k - 1))) by lia.
  rewrite seq_app, for_in_app.
  destruct (for_range_ok I body k a w H0 Hstep) as (a1 & w1 & Hl & H1).
  unfold for_range in Hl. rewrite (bind_ok _ _ _ _ _ Hl).
  rewrite seq_app. simpl.
  destruct (Hraise a1 w1 H1) as (w2 & Hb & HE).
  exists w2. split; [| exact HE].
  apply bind_raise. exact Hb.
Qed.

End monad_facts.

(** ** The value model: construction *)

Section construction_facts.
Context `{Scalar}.
Variable f : vec -> option num.
Variable g : vec -> num.
Hypothesis f_total : forall p, f p = Some (g p).

Lemma call_total p (log : calls) : call f p log = (Ok (g p), log ++ [p]).
Proof. unfold call. rewrite f_total. reflexivity. Qed.

Lemma np_item_iop_ok {W} op (p : vec) j c d (w : W) :
  p !! j = Some c ->
  np_item_iop op p j d w = (Ok (<[j := op c d]> p), w).
Proof.
  intros Hj. unfold np_item_iop.
  rewrite (bind_ok _ _ _ _ _ (py_get_ok p j c w Hj)).
  apply py_set_ok. apply lookup_lt_Some with c. exact Hj.
Qed.

Lemma simplex_about_length x d : length (simplex_about x d) = length x + 1.
Proof. unfold simplex_about. simpl. rewrite length_map, length_seq. lia. Qed.

Lemma simplex_about_lookup_0 x d : simplex_about x d !! 0 = Some x.
Proof. reflexivity. Qed.

Lemma simplex_about_lookup_S x d k :
  k < length x -> simplex_about x d !! S k = Some (axis_step x d k).
Proof.
  intros Hk. unfold simplex_about. simpl.
  rewrite list_lookup_fmap, lookup_seq_lt by exact Hk. reflexivity.
Qed.

(** One round of the constructor's loop, for an axis that has a step. *)
Lemma init_round x d i self (log : calls) p :
  simplex_about x d !! i = Some p ->
  i <= length d ->
  (p <- (if decide (1 <= i)
         then d0 <- py_get d (i - 1) ;; np_item_iop add x (i - 1) d0
         else ret x) ;;
   let self := with_vertex_list self (vertex_list self ++ [p]) in
   y <- call f p ;;
   let self := with_f_list self (f_list self ++ [y]) in
   ret (with_nfe self (nfe self + 1))) log
  = (Ok (with_nfe (with_f_list (with_vertex_list self (vertex_list self ++ [p]))
                     (f_list self ++ [g p])) (nfe self + 1)),
     log ++ [p]).
Proof.
  intros Hp Hi.
  assert (Hlen : i < length x + 1).
  { rewrite <- (simplex_about_length x d). apply lookup_lt_Some with p. exact Hp. }
  assert (Hfirst : (if decide (1 <= i)
                    then d0 <- py_get d (i - 1) ;; np_item_iop add x (i - 1) d0
                    else ret x) log = (Ok p, log)).
  { destruct (decide (1 <= i)) as [Hge | Hlt].
    - destruct i as [| k]; [lia |]. replace (S k - 1) with k by lia.
      rewrite simplex_about_lookup_S in Hp by lia. injection Hp as <-.
      destruct (lookup_lt_is_Some_2 d k) as [dk Hdk]; [lia |].
      destruct (lookup_lt_is_Some_2 x k) as [xk Hxk]; [lia |].
      rewrite (bind_ok _ _ _ _ _ (py_get_ok d k dk log Hdk)).
      rewrite (np_item_iop_ok add x k xk dk log Hxk).
      unfold axis_step. rewrite Hxk, Hdk. reflexivity.
    - assert (i = 0) as -> by lia. simpl in Hp. injection Hp as <-. reflexivity. }
  rewrite (bind_ok _ _ _ _ _ Hfirst). simpl.
  rewrite (bind_ok _ _ _ _ _ (call_total p log)). reflexivity.
Qed.

(** The constructor, when every axis has a step. *)
Lemma NMSimplex_init_ok x d (log : calls) :
  length x <= length d ->
  NMSimplex_init f x d log
  = (Ok {| N := length x; vertex_list := simplex_about x d;
           f_list := map g (simplex_about x d); dx := d;
           nfe := length x + 1; nrestarts := 0 |},
     log ++ simplex_about x d).
Proof.
  intros Hlen. unfold NMSimplex_init.
  set (body := fun (i : nat) (self : NMSimplex vec) => _).
  destruct (for_range_ok
    (fun i (s : NMSimplex vec) (w : calls) =>
       s = {| N := length x; vertex_list := take i (simplex_about x d);
              f_list := map g (take i (simplex_about x d)); dx := d;
              nfe := i; nrestarts := 0 |}
       /\ w = log ++ take i (simplex_about x d))
    body (length x + 1)
    {| N := length x; vertex_list := []; f_list := []; dx := d; nfe := 0; nrestarts := 0 |}
    log) as (s' & w' & Hrun & Hs & Hw).
  - split; [reflexivity |]. simpl. rewrite app_nil_r. reflexivity.
  - intros i s w Hi [-> ->].
    destruct (lookup_lt_is_Some_2 (simplex_about x d) i) as [p Hp].
    { rewrite simplex_about_length. exact Hi. }
    eexists _, _. split.
    + subst body. cbv beta. apply (init_round x d i _ _ p Hp). lia.
    + rewrite (take_S_r _ _ _ Hp), map_app, app_assoc.
      unfold with_nfe, with_f_list, with_vertex_list. cbn [N vertex_list f_list dx nfe nrestarts].
      rewrite Nat.add_1_r. split; reflexivity.
  - rewrite Hrun, Hs, Hw.
    rewrite firstn_all2 by (rewrite simplex_about_length; lia).
    reflexivity.
Qed.

(** The constructor, when [d] is shorter than [x]: the first axis without a
    step raises, after the seed and one vertex per step were evaluated. *)
Lemma NMSimplex_init_short x d (log : calls) :
  length d < length x ->
  NMSimplex_init f x d log
  = (Raise IndexError, log ++ take (length d + 1) (simplex_about x d)).
Proof.
  intros Hlen. unfold NMSimplex_init.
  set (body := fun (i : nat) (self : NMSimplex vec) => _).
  destruct (for_range_raise
    (fun i (s : NMSimplex vec) (w : calls) =>
       w = log ++ take i (simplex_about x d))
    (fun w => w = log ++ take (length d + 1) (simplex_about x d))
    body (length x + 1) (length d + 1) IndexError
    {| N := length x; vertex_list := []; f_list := []; dx := d; nfe := 0; nrestarts := 0 |}
    log) as (w' & Hrun & Hw).
  - lia.
  - simpl. rewrite app_nil_r. reflexivity.
  - intros i s w Hi ->.
    destruct (lookup_lt_is_Some_2 (simplex_about x d) i) as [p Hp].
    { rewrite simplex_about_length. lia. }
    eexists _, _. split.
    + subst body. cbv beta. apply (init_round x d i _ _ p Hp). lia.
    + rewrite (take_S_r _ _ _ Hp), app_assoc. reflexivity.
  - intros s w ->. eexists. split; [| reflexivity].
    subst body. cbv beta.
    rewrite decide_True by lia.
    replace (length d + 1 - 1) with (length d) by lia.
    apply bind_raise. apply bind_raise. apply py_get_raise. lia.
  - rewrite Hrun, Hw. reflexivity.
Qed.

End construction_facts.

(** ** The methods that read the cached values *)

Section cached_values_facts.
Context `{Scalar} {array W : Type}.
Implicit Type self : NMSimplex array.

(** [lowest()] returns a slot, and no cached value lies strictly below that
    slot's value wherever [<] is a strict order on the cached values. *)
Lemma lowest_ok self (w : W) :
  length (f_list self) = N self + 1 ->
  exists i y,
    lowest self (-1) w = (Ok i, w) /\ f_list self !! i = Some y /\
    (ordered_on (f_list self) ->
     forall j fj, f_list self !! j = Some fj -> ltb fj y = false).
Proof.
  intros Hlen. unfold lowest.
  rewrite decide_False by discriminate.
  destruct (lookup_lt_is_Some_2 (f_list self) 0) as [y0 Hy0]; [lia |].
  rewrite (bind_ok _ _ _ _ _ (py_get_ok _ _ _ w Hy0)).
  set (body := fun (i : nat) (st : num * nat) => _).
  destruct (for_range_ok
    (fun k (st : num * nat) (w' : W) =>
       w' = w /\ f_list self !! st.2 = Some st.1 /\
       (ordered_on (f_list self) ->
        forall j fj, j < k -> f_list self !! j = Some fj -> ltb fj st.1 = false))
    body (N self + 1) (y0, 0) w) as ([y i] & w' & Hrun & -> & Hi & Hleast).
  - split; [reflexivity |]. split; [exact Hy0 |]. intros _ j fj Hj. lia.
  - intros k [v idx] w1 Hk (-> & Hidx & Hinv). simpl in Hidx, Hinv.
    destruct (lookup_lt_is_Some_2 (f_list self) k) as [fk Hfk]; [lia |].
    subst body. cbv beta.
    rewrite decide_False by lia.
    rewrite (bind_ok _ _ _ _ _ (py_get_ok _ _ _ w Hfk)). simpl.
    destruct (ltb fk v) eqn:Hlt.
    + eexists _, _. split; [reflexivity |].
      split; [reflexivity |]. split; [exact Hfk |]. simpl.
      intros [Hirr Htrans] j fj Hj Hfj.
      destruct (decide (j = k)) as [-> | Hne].
      * rewrite Hfk in Hfj. injection Hfj as <-.
        apply Hirr. apply list_elem_of_lookup. exists k. exact Hfk.
      * destruct (ltb fj fk) eqn:Hjk; [| reflexivity].
        rewrite <- (Hinv (conj Hirr Htrans) j fj); [| lia | exact Hfj].
        symmetry. apply (Htrans fj fk v); try assumption;
          apply list_elem_of_lookup; eauto.
    + eexists _, _. split; [reflexivity |].
      split; [reflexivity |]. split; [exact Hidx |]. simpl.
      intros Hord j fj Hj Hfj.
      destruct (decide (j = k)) as [-> | Hne].
      * rewrite Hfk in Hfj. injection Hfj as <-. exact Hlt.
      * apply (Hinv Hord j fj); [lia | exact Hfj].
  - rewrite (bind_ok _ _ _ _ _ Hrun). simpl in *.
    exists i, y. split; [reflexivity |]. split; [exact Hi |].
    intros Hord j fj Hfj. apply (Hleast Hord j fj); [| exact Hfj].
    rewrite <- Hlen. apply lookup_lt_Some with fj. exact Hfj.
Qed.

(** [highest()] returns a slot, and no cached value lies strictly above that
    slot's value wherever [<] is a strict order on the cached values. *)
Lemma highest_ok self (w : W) :
  length (f_list self) = N self + 1 ->
  exists i y,
    highest self (-1) w = (Ok i, w) /\ f_list self !! i = Some y /\
    (ordered_on (f_list self) ->
     forall j fj, f_list self !! j = Some fj -> ltb y fj = false).
Proof.
  intros Hlen. unfold highest.
  rewrite decide_False by discriminate.
  destruct (lookup_lt_is_Some_2 (f_list self) 0) as [y0 Hy0]; [lia |].
  rewrite (bind_ok _ _ _ _ _ (py_get_ok _ _ _ w Hy0)).
  set (body := fun (i : nat) (st : num * nat) => _).
  destruct (for_range_ok
    (fun k (st : num * nat) (w' : W) =>
       w' = w /\ f_list self !! st.2 = Some st.1 /\
       (ordered_on (f_list self) ->
        forall j fj, j < k -> f_list self !! j = Some fj -> ltb st.1 fj = false))
    body (N self + 1) (y0, 0) w) as ([y i] & w' & Hrun & -> & Hi & Hmost).
  - split; [reflexivity |]. split; [exact Hy0 |]. intros _ j fj Hj. lia.
  - intros k [v idx] w1 Hk (-> & Hidx & Hinv). simpl in Hidx, Hinv.
    destruct (lookup_lt_is_Some_2 (f_list self) k) as [fk Hfk]; [lia |].
    subst body. cbv beta.
    rewrite decide_False by lia.
    rewrite (bind_ok _ _ _ _ _ (py_get_ok _ _ _ w Hfk)). simpl.
    destruct (ltb v fk) eqn:Hlt.
    + eexists _, _. split; [reflexivity |].
      split; [reflexivity |]. split; [exact Hfk |]. simpl.
      intros [Hirr Htrans] j fj Hj Hfj.
      destruct (decide (j = k)) as [-> | Hne].
      * rewrite Hfk in Hfj. injection Hfj as <-.
        apply Hirr. apply list_elem_of_lookup. exists k. exact Hfk.
      * destruct (ltb fk fj) eqn:Hjk; [| reflexivity].
        rewrite <- (Hinv (conj Hirr Htrans) j fj); [| lia | exact Hfj].
        symmetry. apply (Htrans v fk fj); try assumption;
          apply list_elem_of_lookup; eauto.
    + eexists _, _. split; [reflexivity |].
      split; [reflexivity |]. split; [exact Hidx |]. simpl.
      intros Hord j fj Hj Hfj.
      destruct (decide (j = k)) as [-> | Hne].
      * rewrite Hfk in Hfj. injection Hfj as <-. exact Hlt.
      * apply (Hinv Hord j fj); [lia | exact Hfj].
  - rewrite (bind_ok _ _ _ _ _ Hrun). simpl in *.
    exists i, y. split; [reflexivity |]. split; [exact Hi |].
    intros Hord j fj Hfj. apply (Hmost Hord j fj); [| exact Hfj].
    rewrite <- Hlen. apply lookup_lt_Some with fj. exact Hfj.
Qed.

Lemma count_above_ok self y (w : W) :
  length (f_list self) = N self + 1 ->
  count_above self y w = (Ok (number_above (f_list self) y), w).
Proof.
  intros Hlen. unfold count_above.
  set (body := fun (i : nat) (count : nat) => _).
  destruct (for_range_ok
    (fun k (count : nat) (w' : W) =>
       w' = w /\ count = number_above (take k (f_list self)) y)
    body (N self + 1) 0 w) as (c & w' & Hrun & -> & ->).
  - split; reflexivity.
  - intros k count w1 Hk (-> & ->).
    destruct (lookup_lt_is_Some_2 (f_list self) k) as [fk Hfk]; [lia |].
    subst body. cbv beta.
    rewrite (bind_ok _ _ _ _ _ (py_get_ok _ _ _ w Hfk)).
    rewrite (take_S_r _ _ _ Hfk). unfold number_above.
    rewrite List.filter_app, length_app. simpl.
    destruct (ltb y fk); eexists _, _; (split; [reflexivity |]);
      (split; [reflexivity |]); simpl; lia.
  - rewrite Hrun. rewrite firstn_all2 by lia. reflexivity.
Qed.

Lemma f_statistics_sum self (w : W) :
  length (f_list self) = N self + 1 ->
  for_range (N self + 1)
    (fun i s =>
       fi <- py_get (f_list self) i ;;
       let diff := sub fi (mean_of self) in
       ret (add s (mul diff diff)))
    zero w
  = (Ok (sum_sq (mean_of self) (f_list self)), w).
Proof.
  intros Hlen.
  set (body := fun (i : nat) (s : num) => _).
  destruct (for_range_ok
    (fun k (s : num) (w' : W) =>
       w' = w /\ s = sum_sq (mean_of self) (take k (f_list self)))
    body (N self + 1) zero w) as (c & w' & Hrun & -> & ->).
  - split; reflexivity.
  - intros k s w1 Hk (-> & ->).
    destruct (lookup_lt_is_Some_2 (f_list self) k) as [fk Hfk]; [lia |].
    subst body. cbv beta.
    rewrite (bind_ok _ _ _ _ _ (py_get_ok _ _ _ w Hfk)).
    eexists _, _. split; [reflexivity |]. split; [reflexivity |].
    rewrite (take_S_r _ _ _ Hfk). unfold sum_sq.
    rewrite fold_left_app. reflexivity.
  - rewrite Hrun. rewrite firstn_all2 by lia. reflexivity.
Qed.

Lemma f_statistics_ok self (w : W) :
  length (f_list self) = N self + 1 ->
  N self <> 0 ->
  f_statistics self w
  = (Ok (mean_of self,
         sqrt (div (sum_sq (mean_of self) (f_list self)) (of_nat (N self)))), w).
Proof.
  intros Hlen HN. unfold f_statistics. fold (mean_of self).
  rewrite (bind_ok _ _ _ _ _ (f_statistics_sum self w Hlen)).
  rewrite decide_False by exact HN. reflexivity.
Qed.


End cached_values_facts.

(** ** The value model: moving vertices *)

Section geometry_facts.
Context `{Scalar}.
Implicit Type self s : NMSimplex vec.

Lemma np_binop_same {W} op (a b : vec) (w : W) :
  length a = length b -> np_binop op a b w = (Ok (zip_with op a b), w).
Proof. intros Hab. unfold np_binop. rewrite decide_True by exact Hab. reflexivity. Qed.

Lemma np_iop_same {W} op (a b : vec) (w : W) :
  length b = length a -> np_iop op a b w = (Ok (zip_with op a b), w).
Proof. intros Hab. unfold np_iop. rewrite decide_True by exact Hab. reflexivity. Qed.

Lemma np_scale_length k (a : vec) : length (np_scale k a) = length a.
Proof. apply length_map. Qed.

Lemma zip_with_same_length (op : num -> num -> num) (a b : vec) n :
  length a = n -> length b = n -> length (zip_with op a b) = n.
Proof. intros Ha Hb. rewrite length_zip_with. lia. Qed.

Lemma wf_vertex_lookup s i :
  well_formed s -> i < N s + 1 ->
  exists v, vertex_list s !! i = Some v /\ length v = N s.
Proof.
  intros Hwf Hi.
  destruct (lookup_lt_is_Some_2 (vertex_list s) i) as [v Hv].
  { rewrite (wf_vertices s Hwf). exact Hi. }
  exists v. split; [exact Hv |].
  exact (proj1 (Forall_lookup _ _) (wf_dim s Hwf) i v Hv).
Qed.

Lemma wf_value_lookup s i :
  well_formed s -> i < N s + 1 -> exists y, f_list s !! i = Some y.
Proof.
  intros Hwf Hi. apply lookup_lt_is_Some_2. rewrite (wf_values s Hwf). exact Hi.
Qed.

Lemma wf_with_nfe s n : well_formed s -> well_formed (with_nfe s n).
Proof. intros [H1 H2 H3 H4]. split; assumption. Qed.

Lemma replace_vertex_ok {W} s i x y (w : W) :
  well_formed s -> i < N s + 1 ->
  replace_vertex s i x y w = (Ok (replaced s i x y), w).
Proof.
  intros Hwf Hi. unfold replace_vertex.
  rewrite (bind_ok _ _ _ _ _ (py_set_ok _ i x w ltac:(rewrite (wf_vertices s Hwf); exact Hi))).
  cbn [with_vertex_list f_list].
  rewrite (bind_ok _ _ _ _ _ (py_set_ok _ i y w ltac:(rewrite (wf_values s Hwf); exact Hi))).
  reflexivity.
Qed.

Lemma wf_replaced s i x y :
  well_formed s -> length x = N s -> well_formed (replaced s i x y).
Proof.
  intros [H1 H2 H3 H4] Hx. split; cbn [replaced N vertex_list f_list dx].
  - rewrite length_insert. exact H1.
  - rewrite length_insert. exact H2.
  - apply Forall_insert; assumption.
  - exact H4.
Qed.

(** [centroid] returns a point of the simplex's dimension. *)
Lemma centroid_ok {W} s (exclude : Z) (w : W) :
  well_formed s ->
  exists x_mid, centroid s exclude w = (Ok x_mid, w) /\ length x_mid = N s.
Proof.
  intros Hwf. unfold centroid.
  set (body := fun (i : nat) (xmid : vec) => _).
  destruct (for_range_ok
    (fun (k : nat) (xmid : vec) (w' : W) => w' = w /\ length xmid = N s)
    body (N s + 1) (repeat zero (N s)) w) as (xm & w' & Hrun & -> & Hlen).
  - split; [reflexivity | apply repeat_length].
  - intros k xmid w1 Hk (-> & Hlen).
    subst body. cbv beta.
    destruct (decide (Z.of_nat k = exclude)) as [Heq | Hne].
    + eexists _, _. split; [reflexivity |]. split; [reflexivity | exact Hlen].
    + destruct (wf_vertex_lookup s k Hwf Hk) as (v & Hv & Hvlen).
      rewrite (bind_ok _ _ _ _ _ (py_get_ok _ _ _ w Hv)).
      rewrite np_iop_same by lia.
      eexists _, _. split; [reflexivity |]. split; [reflexivity |].
      apply zip_with_same_length; assumption.
  - rewrite (bind_ok _ _ _ _ _ Hrun).
    eexists. split; [reflexivity |]. rewrite length_map. exact Hlen.
Qed.

End geometry_facts.

(** ** The value model: shrinking about one vertex *)

Section contraction_facts.
Context `{Scalar}.
Variable f : vec -> option num.
Variable g : vec -> num.
Hypothesis f_total : forall p, f p = Some (g p).
Implicit Type self s : NMSimplex vec.

Lemma midpoint_length v p n : length v = n -> length p = n -> length (midpoint v p) = n.
Proof.
  intros Hv Hp. unfold midpoint.
  apply zip_with_same_length; rewrite np_scale_length; assumption.
Qed.

Lemma delete_snoc {A} (l : list A) x i :
  delete i (l ++ [x]) = if decide (i = length l) then l else delete i l ++ [x].
Proof.
  revert i. induction l as [| a l IH]; intros i; simpl.
  - destruct i; reflexivity.
  - destruct i as [| i]; simpl.
    + reflexivity.
    + rewrite IH. destruct (decide (i = length l)), (decide (S i = S (length l)));
        try lia; reflexivity.
Qed.

Lemma delete_out_of_range {A} (l : list A) i : length l <= i -> delete i l = l.
Proof.
  revert i. induction l as [| a l IH]; intros i Hi; simpl in *.
  - destruct i; reflexivity.
  - destruct i as [| i]; [lia |]. simpl. rewrite IH by lia. reflexivity.
Qed.

Lemma contract_about_one_point_ok s i_con p_con (log : calls) :
  well_formed s ->
  vertex_list s !! i_con = Some p_con ->
  exists s',
    contract_about_one_point f s i_con log
    = (Ok s', log ++ map (fun v => midpoint v p_con) (delete i_con (vertex_list s))) /\
    well_formed s' /\ N s' = N s /\ dx s' = dx s /\ nrestarts s' = nrestarts s /\
    nfe s' = nfe s + N s /\
    (forall i v, vertex_list s !! i = Some v ->
       vertex_list s' !! i = Some (if decide (i = i_con) then v else midpoint v p_con)) /\
    (forall i v y, vertex_list s !! i = Some v -> f_list s !! i = Some y ->
       f_list s' !! i = Some (if decide (i = i_con) then y else g (midpoint v p_con))).
Proof.
  intros Hwf Hcon. unfold contract_about_one_point.
  rewrite (bind_ok _ _ _ _ _ (py_get_ok _ _ _ log Hcon)).
  assert (Hpc : length p_con = N s).
  { exact (proj1 (Forall_lookup _ _) (wf_dim s Hwf) i_con p_con Hcon). }
  set (body := fun (i : nat) (self : NMSimplex vec) => _).
  set (mid := fun v : vec => midpoint v p_con).
  destruct (for_range_ok
    (fun k (s' : NMSimplex vec) (w' : calls) =>
       well_formed s' /\ N s' = N s /\ dx s' = dx s /\ nrestarts s' = nrestarts s /\
       w' = log ++ map mid (delete i_con (take k (vertex_list s))) /\
       nfe s' = nfe s + length (delete i_con (take k (vertex_list s))) /\
       (forall i v, vertex_list s !! i = Some v ->
          vertex_list s' !! i
          = Some (if decide (i < k /\ i <> i_con) then mid v else v)) /\
       (forall i v y, vertex_list s !! i = Some v -> f_list s !! i = Some y ->
          f_list s' !! i
          = Some (if decide (i < k /\ i <> i_con) then g (mid v) else y)))
    body (N s + 1) s log)
    as (s' & w' & Hrun & Hwf' & HN & Hdx & Hnr & -> & Hnfe & Hvl & Hfl).
  - split; [exact Hwf |]. repeat (split; [reflexivity |]).
    split; [simpl; rewrite app_nil_r; reflexivity |].
    split; [simpl; lia |].
    split.
    + intros i v Hv. rewrite decide_False by lia. exact Hv.
    + intros i v y Hv Hy. rewrite decide_False by lia. exact Hy.
  - intros k s1 w1 Hk (Hwf1 & HN1 & Hdx1 & Hnr1 & -> & Hnfe1 & Hvl1 & Hfl1).
    destruct (wf_vertex_lookup s k Hwf Hk) as (v & Hv & Hvlen).
    destruct (wf_value_lookup s k Hwf Hk) as (y & Hy).
    rewrite (take_S_r _ _ _ Hv), delete_snoc.
    rewrite length_take, (wf_vertices s Hwf), Nat.min_l by lia.
    subst body. cbv beta.
    destruct (decide (k = i_con)) as [-> | Hne].
    + rewrite decide_True by reflexivity.
      assert (Hdel : delete i_con (take i_con (vertex_list s)) = take i_con (vertex_list s)).
      { apply delete_out_of_range. rewrite length_take. lia. }
      rewrite Hdel in *.
      exists s1, (log ++ map mid (take i_con (vertex_list s))).
      split; [reflexivity |].
      split; [exact Hwf1 |]. repeat (split; [assumption |]).
      split; [reflexivity |]. split; [exact Hnfe1 |]. split.
      * intros i v' Hv'. rewrite (Hvl1 i v' Hv').
        destruct (decide (i < i_con /\ i <> i_con)), (decide (i < S i_con /\ i <> i_con));
          try lia; reflexivity.
      * intros i v' y' Hv' Hy'. rewrite (Hfl1 i v' y' Hv' Hy').
        destruct (decide (i < i_con /\ i <> i_con)), (decide (i < S i_con /\ i <> i_con));
          try lia; reflexivity.
    + rewrite decide_False by lia.
      assert (Hcur : vertex_list s1 !! k = Some v).
      { rewrite (Hvl1 k v Hv). rewrite decide_False by lia. reflexivity. }
      rewrite (bind_ok _ _ _ _ _ (py_get_ok _ _ _ _ Hcur)).
      rewrite (bind_ok _ _ _ _ _
        (np_binop_same add (np_scale half v) (np_scale half p_con) _
           ltac:(rewrite !np_scale_length; lia))).
      fold (midpoint v p_con). fold (mid v).
      rewrite (bind_ok _ _ _ _ _ (call_total f g f_total (mid v) _)).
      rewrite (bind_ok _ _ _ _ _
        (py_set_ok (f_list s1) k (g (mid v)) _
           ltac:(rewrite (wf_values s1 Hwf1), HN1; exact Hk))).
      cbn [with_nfe with_f_list vertex_list].
      rewrite (bind_ok _ _ _ _ _
        (py_set_ok (vertex_list s1) k (mid v) _
           ltac:(rewrite (wf_vertices s1 Hwf1), HN1; exact Hk))).
      eexists _, _. split; [reflexivity |].
      simpl_fields.
      split.
      { destruct Hwf1 as [W1 W2 W3 W4].
        split; simpl_fields; rewrite ?length_insert; try assumption.
        apply Forall_insert; [exact W3 |].
        rewrite HN1. apply midpoint_length; assumption. }
      repeat (split; [assumption |]).
      split; [rewrite map_app, app_assoc; reflexivity |].
      split; [rewrite length_app; simpl; lia |].
      split.
      * intros i v' Hv'. destruct (decide (i = k)) as [-> | Hik].
        -- rewrite list_lookup_insert_eq
             by (rewrite (wf_vertices s1 Hwf1), HN1; exact Hk).
           rewrite Hv in Hv'. injection Hv' as <-.
           rewrite decide_True by lia. reflexivity.
        -- rewrite list_lookup_insert_ne by lia. rewrite (Hvl1 i v' Hv').
           destruct (decide (i < k /\ i <> i_con)), (decide (i < S k /\ i <> i_con));
             try lia; reflexivity.
      * intros i v' y' Hv' Hy'. destruct (decide (i = k)) as [-> | Hik].
        -- rewrite list_lookup_insert_eq
             by (rewrite (wf_values s1 Hwf1), HN1; exact Hk).
           rewrite Hv in Hv'. injection Hv' as <-.
           rewrite decide_True by lia. reflexivity.
        -- rewrite list_lookup_insert_ne by lia. rewrite (Hfl1 i v' y' Hv' Hy').
           destruct (decide (i < k /\ i <> i_con)), (decide (i < S k /\ i <> i_con));
             try lia; reflexivity.
  - exists s'. rewrite firstn_all2 in Hrun, Hnfe by (rewrite (wf_vertices s Hwf); lia).
    split; [exact Hrun |].
    split; [exact Hwf' |]. repeat (split; [assumption |]).
    split.
    { rewrite Hnfe, length_delete by (exists p_con; exact Hcon).
      rewrite (wf_vertices s Hwf). lia. }
    split.
    + intros i v Hv. rewrite (Hvl i v Hv).
      assert (i < N s + 1).
      { rewrite <- (wf_vertices s Hwf). apply lookup_lt_Some with v. exact Hv. }
      destruct (decide (i < N s + 1 /\ i <> i_con)), (decide (i = i_con));
        try lia; reflexivity.
    + intros i v y Hv Hy. rewrite (Hfl i v y Hv Hy).
      assert (i < N s + 1).
      { rewrite <- (wf_vertices s Hwf). apply lookup_lt_Some with v. exact Hv. }
      destruct (decide (i < N s + 1 /\ i <> i_con)), (decide (i = i_con));
        try lia; reflexivity.
Qed.

End contraction_facts.

(** ** The value model: one step *)

Section step_facts.
Context `{Scalar}.
Variable f : vec -> option num.
Variable g : vec -> num.
Hypothesis f_total : forall p, f p = Some (g p).
Implicit Type self s : NMSimplex vec.

Lemma with_nfe_twice s a b : with_nfe (with_nfe s a) b = with_nfe s b.
Proof. reflexivity. Qed.

(** [take_a_step], executed symbolically on a well-formed simplex. *)
Lemma take_a_step_run s Kreflect Kextend Kcontract (log : calls) :
  well_formed s ->
  exists i_low f_low i_high x_high f_high x_mid,
    lowest s (-1) log = (Ok i_low, log) /\ f_list s !! i_low = Some f_low /\
    highest s (-1) log = (Ok i_high, log) /\
    vertex_list s !! i_high = Some x_high /\ f_list s !! i_high = Some f_high /\
    (ordered_on (f_list s) ->
     forall j fj, f_list s !! j = Some fj ->
       ltb fj f_low = false /\ ltb f_high fj = false) /\
    centroid s (Z.of_nat i_high) log = (Ok x_mid, log) /\
    length x_mid = N s /\ length x_high = N s /\
    let x_refl := reflected Kreflect x_mid x_high in
    let x_ext := extended Kextend x_refl x_mid in
    let x_con := contracted Kcontract x_mid x_high in
    take_a_step f s Kreflect Kextend Kcontract log =
      if ltb (g x_refl) (g x_mid) then
        if ltb (g x_ext) (g x_refl)
        then (Ok (replaced (with_nfe s (nfe s + 3)) i_high x_ext (g x_ext)),
              log ++ [x_mid; x_refl; x_ext])
        else (Ok (replaced (with_nfe s (nfe s + 3)) i_high x_refl (g x_refl)),
              log ++ [x_mid; x_refl; x_ext])
      else if decide (number_above (f_list s) (g x_refl) <= 1) then
        if ltb (g x_con) f_high
        then (Ok (replaced (with_nfe s (nfe s + 3)) i_high x_con (g x_con)),
              log ++ [x_mid; x_refl; x_con])
        else contract_about_one_point f (with_nfe s (nfe s + 3)) i_low
               (log ++ [x_mid; x_refl; x_con])
      else (Ok (replaced (with_nfe s (nfe s + 2)) i_high x_refl (g x_refl)),
            log ++ [x_mid; x_refl]).
Proof.
  intros Hwf.
  destruct (lowest_ok s log (wf_values s Hwf)) as (i_low & f_low & Hlow & Hfl & Hleast).
  destruct (highest_ok s log (wf_values s Hwf)) as (i_high & f_high & Hhigh & Hfh & Hmost).
  assert (Hih : i_high < N s + 1).
  { rewrite <- (wf_values s Hwf). apply lookup_lt_Some with f_high. exact Hfh. }
  destruct (wf_vertex_lookup s i_high Hwf Hih) as (x_high & Hxh & Hxhlen).
  destruct (centroid_ok s (Z.of_nat i_high) log Hwf) as (x_mid & Hmid & Hmlen).
  exists i_low, f_low, i_high, x_high, f_high, x_mid.
  split; [exact Hlow |]. split; [exact Hfl |]. split; [exact Hhigh |].
  split; [exact Hxh |]. split; [exact Hfh |].
  split.
  { intros Hord j fj Hj. split; [apply (Hleast Hord j fj Hj) | apply (Hmost Hord j fj Hj)]. }
  split; [exact Hmid |]. split; [exact Hmlen |]. split; [exact Hxhlen |].
  intros x_refl x_ext x_con.
  assert (Hrl : length x_refl = N s).
  { apply zip_with_same_length; rewrite np_scale_length; assumption. }
  unfold take_a_step.
  rewrite (bind_ok _ _ _ _ _ Hlow), (bind_ok _ _ _ _ _ Hhigh).
  rewrite (bind_ok _ _ _ _ _ (py_get_ok _ _ _ _ Hxh)).
  rewrite (bind_ok _ _ _ _ _ (py_get_ok _ _ _ _ Hfh)).
  rewrite (bind_ok _ _ _ _ _ Hmid).
  rewrite (bind_ok _ _ _ _ _ (call_total f g f_total x_mid _)).
  rewrite (bind_ok _ _ _ _ _
    (np_binop_same sub (np_scale (add one Kreflect) x_mid) (np_scale Kreflect x_high) _
       ltac:(rewrite !np_scale_length; lia))).
  fold (reflected Kreflect x_mid x_high). fold x_refl.
  rewrite (bind_ok _ _ _ _ _ (call_total f g f_total x_refl _)).
  rewrite <- !app_assoc. cbn [app].
  cbv zeta. rewrite ?with_nfe_twice. cbn [nfe with_nfe].
  replace (nfe s + 1 + 1) with (nfe s + 2) by lia.
  destruct (ltb (g x_refl) (g x_mid)).
  - rewrite (bind_ok _ _ _ _ _
      (np_binop_same add (np_scale Kextend x_refl) (np_scale (sub one Kextend) x_mid) _
         ltac:(rewrite !np_scale_length; lia))).
    fold (extended Kextend x_refl x_mid). fold x_ext.
    rewrite (bind_ok _ _ _ _ _ (call_total f g f_total x_ext _)).
    rewrite <- !app_assoc. cbn [app].
    cbv zeta. rewrite ?with_nfe_twice. cbn [nfe with_nfe].
    replace (nfe s + 2 + 1) with (nfe s + 3) by lia.
    destruct (ltb (g x_ext) (g x_refl));
      apply replace_vertex_ok; try (apply wf_with_nfe; exact Hwf); exact Hih.
  - rewrite (bind_ok _ _ _ _ _
      (count_above_ok (with_nfe s (nfe s + 2)) (g x_refl) _ (wf_values s Hwf))).
    cbn [with_nfe f_list].
    destruct (decide (number_above (f_list s) (g x_refl) <= 1)).
    + rewrite (bind_ok _ _ _ _ _
        (np_binop_same add (np_scale (sub one Kcontract) x_mid) (np_scale Kcontract x_high) _
           ltac:(rewrite !np_scale_length; lia))).
      fold (contracted Kcontract x_mid x_high). fold x_con.
      rewrite (bind_ok _ _ _ _ _ (call_total f g f_total x_con _)).
      rewrite <- !app_assoc. cbn [app].
      cbv zeta. rewrite ?with_nfe_twice. cbn [nfe with_nfe].
      replace (nfe s + 2 + 1) with (nfe s + 3) by lia.
      destruct (ltb (g x_con) f_high); [| reflexivity].
      apply replace_vertex_ok; try (apply wf_with_nfe; exact Hwf); exact Hih.
    + apply replace_vertex_ok; try (apply wf_with_nfe; exact Hwf); exact Hih.
Qed.

End step_facts.

(** ** The value model: the local-minimum test *)

Section probe_facts.
Context `{Scalar}.
Variable f : vec -> option num.
Variable g : vec -> num.
Hypothesis f_total : forall p, f p = Some (g p).
Implicit Type self s : NMSimplex vec.

Lemma test_for_minimum_axes_ok s i_min x delta f_min js :
  vertex_list s !! i_min = Some x ->
  (forall j, j ∈ js -> j < length x /\ j < length (dx s)) ->
  forall n (log : calls),
    test_for_minimum_axes f js (with_nfe s n) i_min delta f_min log
    = (Ok (snd (probed g f_min (probes x (dx s) delta js)),
           with_nfe s (n + length (fst (probed g f_min (probes x (dx s) delta js))))),
       log ++ fst (probed g f_min (probes x (dx s) delta js))).
Proof.
  intros Hx. induction js as [| j js IH]; intros Hjs n log.
  - simpl. rewrite app_nil_r, Nat.add_0_r. reflexivity.
  - destruct (Hjs j) as [Hjx Hjd]; [left |].
    destruct (lookup_lt_is_Some_2 x j Hjx) as [xj Hxj].
    destruct (lookup_lt_is_Some_2 (dx s) j Hjd) as [dj Hdj].
    assert (Hup : probe_up x (dx s) delta j = <[j := add xj (mul dj delta)]> x).
    { unfold probe_up. rewrite Hxj, Hdj. reflexivity. }
    assert (Hupj : probe_up x (dx s) delta j !! j = Some (add xj (mul dj delta))).
    { rewrite Hup. apply list_lookup_insert_eq. exact Hjx. }
    assert (Hdown : probe_down x (dx s) delta j
                    = <[j := sub (add xj (mul dj delta)) (mul (mul dj delta) two)]>
                        (probe_up x (dx s) delta j)).
    { unfold probe_down. rewrite Hupj, Hdj. reflexivity. }
    cbn [test_for_minimum_axes probes flat_map app probed].
    fold (probes x (dx s) delta js).
    unfold get_vertex. cbn [with_nfe vertex_list dx nfe].
    rewrite (bind_ok _ _ _ _ _ (py_get_ok _ _ _ _ Hx)).
    rewrite (bind_ok _ _ _ _ _ (py_get_ok _ _ _ _ Hdj)).
    rewrite (bind_ok _ _ _ _ _ (np_item_iop_ok add x j xj (mul dj delta) _ Hxj)).
    rewrite <- Hup.
    rewrite (bind_ok _ _ _ _ _ (call_total f g f_total _ _)).
    destruct (ltb (g (probe_up x (dx s) delta j)) f_min).
    + cbn [fst snd length]. unfold with_nfe. cbn [N vertex_list f_list dx nfe nrestarts].
      reflexivity.
    + rewrite (bind_ok _ _ _ _ _ (py_get_ok _ _ _ _ Hdj)).
      rewrite (bind_ok _ _ _ _ _
        (np_item_iop_ok sub _ j _ (mul (mul dj delta) two) _ Hupj)).
      rewrite <- Hdown.
      rewrite (bind_ok _ _ _ _ _ (call_total f g f_total _ _)).
      destruct (ltb (g (probe_down x (dx s) delta j)) f_min).
      * cbn [fst snd length]. unfold with_nfe. cbn [N vertex_list f_list dx nfe nrestarts].
        rewrite <- app_assoc. replace (n + 2) with (n + 1 + 1) by lia. reflexivity.
      * rewrite with_nfe_twice.
        specialize (IH ltac:(intros j' Hj'; apply Hjs; right; exact Hj')).
        rewrite (IH (n + 1 + 1)). cbn [fst snd length].
        rewrite <- !app_assoc. cbn [app].
        replace (n + 1 + 1 + length (probed g f_min (probes x (dx s) delta js)).1)
          with (n + S (S (length (probed g f_min (probes x (dx s) delta js)).1))) by lia.
        reflexivity.
Qed.

(** [test_for_minimum] on a well-formed simplex. *)
Lemma test_for_minimum_ok s i_min x f_min delta (log : calls) :
  well_formed s ->
  vertex_list s !! i_min = Some x ->
  f_list s !! i_min = Some f_min ->
  let r := probed g f_min (probes x (dx s) delta (seq 0 (N s))) in
  test_for_minimum f s i_min delta log
  = (Ok (snd r, with_nfe s (nfe s + length (fst r))), log ++ fst r).
Proof.
  intros Hwf Hx Hf r. unfold test_for_minimum.
  rewrite (bind_ok _ _ _ _ _ (py_get_ok _ _ _ _ Hf)).
  assert (Hs : s = with_nfe s (nfe s)) by (destruct s; reflexivity).
  rewrite Hs at 2.
  apply test_for_minimum_axes_ok; [exact Hx |].
  intros j Hj. apply elem_of_seq in Hj.
  assert (length x = N s).
  { exact (proj1 (Forall_lookup _ _) (wf_dim s Hwf) i_min x Hx). }
  pose proof (wf_dx s Hwf). lia.
Qed.

End probe_facts.

(** ** The value model: restart *)

Section restart_facts.
Context `{Scalar}.
Variable f : vec -> option num.
Variable g : vec -> num.
Hypothesis f_total : forall p, f p = Some (g p).
Implicit Type self s : NMSimplex vec.

Lemma rescale_ok s ratio (log : calls) :
  well_formed s ->
  exists i_min x f_min,
    lowest s (-1) log = (Ok i_min, log) /\
    vertex_list s !! i_min = Some x /\ f_list s !! i_min = Some f_min /\
    length x = N s /\
    rescale f s ratio log
    = (Ok (rescaled g s ratio x f_min),
       log ++ map (axis_step x (map (fun d => mul d ratio) (dx s))) (seq 0 (length x))).
Proof.
  intros Hwf.
  destruct (lowest_ok s log (wf_values s Hwf)) as (i_min & f_min & Hlow & Hfm & _).
  assert (Him : i_min < N s + 1).
  { rewrite <- (wf_values s Hwf). apply lookup_lt_Some with f_min. exact Hfm. }
  destruct (wf_vertex_lookup s i_min Hwf Him) as (x & Hx & Hxlen).
  exists i_min, x, f_min.
  split; [exact Hlow |]. split; [exact Hx |]. split; [exact Hfm |]. split; [exact Hxlen |].
  unfold rescale, get_vertex.
  rewrite (bind_ok _ _ _ _ _ Hlow). simpl_fields.
  rewrite (bind_ok _ _ _ _ _ (py_get_ok _ _ _ _ Hx)).
  rewrite (bind_ok _ _ _ _ _ (py_get_ok _ _ _ _ Hfm)).
  set (dx' := map (fun d => mul d ratio) (dx s)).
  set (rest := map (axis_step x dx') (seq 0 (length x))).
  set (body := fun (i : nat) (self : NMSimplex vec) => _).
  assert (Hdx' : N s <= length dx').
  { subst dx'. rewrite length_map. exact (wf_dx s Hwf). }
  assert (Hrest : length rest = N s).
  { subst rest. rewrite length_map, length_seq. exact Hxlen. }
  destruct (for_range_ok
    (fun k (s' : NMSimplex vec) (w : calls) =>
       s' = {| N := N s; vertex_list := take k (x :: rest);
               f_list := take k (f_min :: map g rest); dx := dx';
               nfe := nfe s + (k - 1); nrestarts := nrestarts s |}
       /\ w = log ++ take (k - 1) rest)
    body (N s + 1)
    {| N := N s; vertex_list := []; f_list := []; dx := dx';
       nfe := nfe s; nrestarts := nrestarts s |} log)
    as (s' & w' & Hrun & -> & ->).
  - split; [| simpl; rewrite app_nil_r; reflexivity].
    simpl. rewrite Nat.add_0_r. reflexivity.
  - intros k s1 w1 Hk [-> ->]. subst body. cbv beta. simpl_fields.
    destruct k as [| k].
    + rewrite decide_True by reflexivity.
      eexists _, _. split; [reflexivity |]. simpl_fields.
      split; [| reflexivity]. reflexivity.
    + rewrite decide_False by lia.
      replace (S k - 1) with k by lia.
      destruct (lookup_lt_is_Some_2 dx' k) as [dk Hdk]; [lia |].
      destruct (lookup_lt_is_Some_2 x k) as [xk Hxk]; [lia |].
      assert (Hp : rest !! k = Some (<[k := add xk dk]> x)).
      { subst rest. rewrite list_lookup_fmap, lookup_seq_lt by lia. simpl.
        unfold axis_step. rewrite Hxk, Hdk. reflexivity. }
      rewrite (bind_ok _ _ _ _ _ (py_get_ok _ _ _ _ Hdk)).
      rewrite (bind_ok _ _ _ _ _ (np_item_iop_ok add x k xk dk _ Hxk)).
      rewrite (bind_ok _ _ _ _ _ (call_total f g f_total _ _)).
      eexists _, _. split; [reflexivity |]. simpl_fields.
      replace (S (S k) - 1) with (S k) by lia.
      rewrite (take_S_r rest k _ Hp), app_assoc.
      split; [| reflexivity].
      rewrite (take_S_r (x :: rest) (S k) (<[k := add xk dk]> x)) by exact Hp.
      rewrite (take_S_r (f_min :: map g rest) (S k) (g (<[k := add xk dk]> x)))
        by (simpl; rewrite list_lookup_fmap, Hp; reflexivity).
      f_equal. lia.
  - rewrite (bind_ok _ _ _ _ _ Hrun).
    replace (N s + 1 - 1) with (N s) by lia.
    rewrite !firstn_all2 by (simpl; rewrite ?length_map; lia).
    reflexivity.
Qed.

Lemma wf_rescaled s ratio x f_min :
  well_formed s -> length x = N s -> well_formed (rescaled g s ratio x f_min).
Proof.
  intros Hwf Hx. split; unfold rescaled; simpl_fields.
  - rewrite simplex_about_length. lia.
  - simpl. rewrite !length_map, length_seq. lia.
  - unfold simplex_about. apply Forall_cons. split; [exact Hx |].
    apply Forall_forall. intros v Hv.
    apply list_elem_of_fmap in Hv as (k & -> & _).
    unfold axis_step. repeat case_match; rewrite ?length_insert; exact Hx.
  - rewrite length_map. exact (wf_dx s Hwf).
Qed.

End restart_facts.

(** * The claims *)

(** ** Construction with mismatched lengths *)

(** C3, as the code has it.  The constructor never compares the two lengths.
    When [dx] is shorter than the seed, reading the first missing step raises
    [IndexError] - after the seed and one vertex per available step were
    evaluated - and [minimize] lets it through.  When [dx] is longer, the
    constructor succeeds: the surplus steps are never read. *)
Theorem init_with_mismatched_lengths `{Scalar} (g : vec -> num) (x d : vec) (log : calls) :
  length x <> length d ->
  (length d < length x ->
     NMSimplex_init (total g) x d log
     = (Raise IndexError, log ++ take (length d + 1) (simplex_about x d)) /\
     forall fuel tol maxfe n_check delta Kreflect Kextend Kcontract,
       minimize (total g) fuel x (Some d) tol maxfe n_check delta
         Kreflect Kextend Kcontract log
       = (Raise IndexError, log ++ take (length d + 1) (simplex_about x d))) /\
  (length x < length d ->
     NMSimplex_init (total g) x d log
     = (Ok {| N := length x; vertex_list := simplex_about x d;
              f_list := map g (simplex_about x d); dx := d;
              nfe := length x + 1; nrestarts := 0 |},
        log ++ simplex_about x d)).
Proof.
  intros _. split.
  - intros Hshort.
    pose proof (NMSimplex_init_short (total g) g (fun _ => eq_refl) x d log Hshort) as Hinit.
    split; [exact Hinit |].
    intros. unfold minimize. apply bind_raise. exact Hinit.
  - intros Hlong.
    apply (NMSimplex_init_ok (total g) g (fun _ => eq_refl)). lia.
Qed.

Lemma init_with_mismatched_lengths_witness :
  @NMSimplex_init float64 (total test_fun_1) [0; 0]%float [0.5]%float []
  = (Raise IndexError, [[0; 0]; [0.5; 0]]%float).
Proof.
  apply (init_with_mismatched_lengths (H := float64) test_fun_1 [0; 0]%float [0.5]%float []).
  - simpl. lia.
  - simpl. lia.
Defined.

(** C3 as stated fails: a step vector longer than the seed raises nothing,
    neither at construction nor in [minimize]. *)
Lemma init_longer_dx_counterexample :
  let x := [0]%float in
  let d := [0.5; 0.25]%float in
  length x <> length d /\
  @NMSimplex_init float64 (total test_fun_1) x d []
  = (Ok (@Build_NMSimplex float64 _ 1 [[0]; [0.5]]%float [1; 0.25]%float d 2 0),
     [[0]; [0.5]]%float) /\
  exists r log,
    @minimize float64 (total test_fun_1) 100 x (Some d) 1e-6%float 300 20 0.001%float
      1%float 2%float 0.5%float [] = (Ok r, log).
Proof.
  split; [simpl; lia |]. split; [vm_compute; reflexivity |].
  eexists _, _. vm_compute. reflexivity.
Qed.

(** ** The local-minimum test *)

Section probes_shape.
Context `{Scalar}.
Variable g : vec -> num.

Lemma probes_lookup x d delta js k j :
  js !! k = Some j ->
  probes x d delta js !! (2 * k) = Some (probe_up x d delta j) /\
  probes x d delta js !! (2 * k + 1) = Some (probe_down x d delta j).
Proof.
  revert k. induction js as [| j0 js IH]; intros k Hk.
  - discriminate Hk.
  - destruct k as [| k].
    + injection Hk as ->. split; reflexivity.
    + destruct (IH k Hk) as [Hup Hdown].
      replace (2 * S k) with (S (S (2 * k))) by lia.
      replace (S (S (2 * k)) + 1) with (S (S (2 * k + 1))) by lia.
      split; [exact Hup | exact Hdown].
Qed.

Lemma probes_length x d delta js : length (probes x d delta js) = 2 * length js.
Proof.
  induction js as [| j js IH]; [reflexivity |].
  cbn [probes flat_map app length]. fold (probes x d delta js). rewrite IH. lia.
Qed.

Lemma probed_true f_min ps :
  snd (probed g f_min ps) = true <-> forall p, p ∈ ps -> ltb (g p) f_min = false.
Proof.
  induction ps as [| p ps IH]; simpl.
  - split; [| reflexivity]. intros _ p Hp. inversion Hp.
  - destruct (ltb (g p) f_min) eqn:Hp; simpl.
    + split; [discriminate |]. intros Hall.
      rewrite <- Hp. symmetry. apply Hall. left.
    + rewrite IH. split.
      * intros Hall q Hq. apply elem_of_cons in Hq as [-> | Hq]; [exact Hp | exact (Hall q Hq)].
      * intros Hall q Hq. apply Hall. right. exact Hq.
Qed.

Lemma probed_all f_min ps :
  snd (probed g f_min ps) = true -> fst (probed g f_min ps) = ps.
Proof.
  induction ps as [| p ps IH]; simpl; [reflexivity |].
  destruct (ltb (g p) f_min); simpl; [discriminate |].
  intros Hall. rewrite (IH Hall). reflexivity.
Qed.

Lemma probed_false f_min ps :
  snd (probed g f_min ps) = false ->
  exists k p,
    ps !! k = Some p /\ ltb (g p) f_min = true /\
    fst (probed g f_min ps) = take (S k) ps /\
    forall k' p', k' < k -> ps !! k' = Some p' -> ltb (g p') f_min = false.
Proof.
  induction ps as [| p ps IH]; simpl; [discriminate |].
  destruct (ltb (g p) f_min) eqn:Hp; simpl.
  - intros _. exists 0, p. split; [reflexivity |]. split; [exact Hp |].
    split; [rewrite take_0; reflexivity |]. intros k' p' Hk'. lia.
  - intros Hstop. destruct (IH Hstop) as (k & q & Hq & Hlt & Hvis & Hbefore).
    exists (S k), q. split; [exact Hq |]. split; [exact Hlt |].
    split; [simpl; rewrite Hvis; reflexivity |].
    intros k' p' Hk' Hp'. destruct k' as [| k'].
    + injection Hp' as <-. exact Hp.
    + apply (Hbefore k' p'); [lia | exact Hp'].
Qed.

End probes_shape.

(** C4.  [test_for_minimum(i_min, delta)] visits the probes of axis 0, then
    of axis 1, ...: on axis [j] first the best vertex with coordinate [j]
    raised by [dx[j]*delta], then that first probe with coordinate [j]
    lowered by [dx[j]*delta*2].  It evaluates the objective at each probe
    visited and counts it; it stops at the first probe whose value is
    strictly below the cached [f_min] and returns false, and returns true
    exactly when none of the [2N] probes is below [f_min]. *)
Theorem test_for_minimum_probes `{Scalar} (g : vec -> num) (s : NMSimplex vec)
    (i_min : nat) (x : vec) (f_min delta : num) (log : calls) :
  well_formed s ->
  vertex_list s !! i_min = Some x ->
  f_list s !! i_min = Some f_min ->
  let ps := probes x (dx s) delta (seq 0 (N s)) in
  let visited := fst (probed g f_min ps) in
  let is_minimum := snd (probed g f_min ps) in
  test_for_minimum (total g) s i_min delta log
  = (Ok (is_minimum, with_nfe s (nfe s + length visited)), log ++ visited) /\
  length ps = 2 * N s /\
  (forall j xj dj, j < N s -> x !! j = Some xj -> dx s !! j = Some dj ->
     ps !! (2 * j) = Some (<[j := add xj (mul dj delta)]> x) /\
     ps !! (2 * j + 1)
     = Some (<[j := sub (add xj (mul dj delta)) (mul (mul dj delta) two)]> x)) /\
  (is_minimum = true <-> forall p, p ∈ ps -> ltb (g p) f_min = false) /\
  (is_minimum = true -> visited = ps) /\
  (is_minimum = false ->
     exists k p,
       ps !! k = Some p /\ ltb (g p) f_min = true /\ visited = take (S k) ps /\
       forall k' p', k' < k -> ps !! k' = Some p' -> ltb (g p') f_min = false).
Proof.
  intros Hwf Hx Hf ps visited is_minimum.
  split.
  { apply (test_for_minimum_ok (total g) g (fun _ => eq_refl) s i_min x f_min delta log);
      assumption. }
  split.
  { subst ps. rewrite probes_length, length_seq. reflexivity. }
  split.
  { intros j xj dj Hj Hxj Hdj.
    destruct (probes_lookup x (dx s) delta (seq 0 (N s)) j j) as [Hup Hdown].
    { apply lookup_seq_lt. exact Hj. }
    assert (Hjx : j < length x) by (apply lookup_lt_Some with xj; exact Hxj).
    subst ps. rewrite Hup, Hdown. unfold probe_down, probe_up.
    rewrite Hxj, Hdj, list_lookup_insert_eq by exact Hjx.
    rewrite list_insert_insert_eq. split; reflexivity. }
  split; [apply probed_true |].
  split; [apply probed_all | apply probed_false].
Qed.

Lemma test_for_minimum_probes_witness :
  @test_for_minimum float64 (total test_fun_1)
    (@Build_NMSimplex float64 _ 1 [[1]; [2]]%float [0; 1]%float [1]%float 2 0)
    0 0.5%float []
  = (Ok (true, @Build_NMSimplex float64 _ 1 [[1]; [2]]%float [0; 1]%float [1]%float 4 0),
     [[1.5]; [0.5]]%float).
Proof.
  apply (test_for_minimum_probes (H := float64) test_fun_1
           (@Build_NMSimplex float64 _ 1 [[1]; [2]]%float [0; 1]%float [1]%float 2 0)
           0 [1]%float 0%float 0.5%float []).
  - split; simpl; try lia. repeat constructor.
  - reflexivity.
  - reflexivity.
Defined.

(** ** What a call leaves alone *)

Section inversion.
Context `{Scalar}.
Variable f : vec -> option num.

Lemma py_get_inv {W A} (l : list A) i (w : W) a w' :
  py_get l i w = (Ok a, w') -> l !! i = Some a /\ w' = w.
Proof.
  unfold py_get. destruct (l !! i); intros Heq; inversion Heq. split; reflexivity.
Qed.

Lemma py_set_inv {W A} (l : list A) i a (w : W) l' w' :
  py_set l i a w = (Ok l', w') -> l' = <[i := a]> l /\ i < length l /\ w' = w.
Proof.
  unfold py_set. destruct (decide (i < length l)); intros Heq; inversion Heq.
  repeat split; assumption.
Qed.

Lemma np_item_iop_inv {W} op (p : vec) j d (w : W) p' w' :
  np_item_iop op p j d w = (Ok p', w') ->
  exists c, p !! j = Some c /\ p' = <[j := op c d]> p /\ w' = w.
Proof.
  unfold np_item_iop. intros Hrun.
  apply bind_ok_inv in Hrun as (c & w1 & Hget & Hset).
  apply py_get_inv in Hget as [Hc ->].
  apply py_set_inv in Hset as (-> & _ & ->).
  exists c. repeat split. exact Hc.
Qed.

Lemma call_inv p (log : calls) y log' :
  call f p log = (Ok y, log') -> f p = Some y /\ log' = log ++ [p].
Proof.
  unfold call. destruct (f p); intros Heq; inversion Heq. split; reflexivity.
Qed.

Lemma with_nfe_same (s : NMSimplex vec) : with_nfe s (nfe s) = s.
Proof. destruct s; reflexivity. Qed.

Lemma test_for_minimum_axes_frame js :
  forall (s : NMSimplex vec) i_min delta f_min (log : calls) b s' log',
    test_for_minimum_axes f js s i_min delta f_min log = (Ok (b, s'), log') ->
    exists new, s' = with_nfe s (nfe s + length new) /\ log' = log ++ new.
Proof.
  induction js as [| j js IH]; intros s i_min delta f_min log b s' log' Hrun.
  - injection Hrun as <- <- <-. exists []. split; [| rewrite app_nil_r; reflexivity].
    simpl. rewrite Nat.add_0_r, with_nfe_same. reflexivity.
  - cbn [test_for_minimum_axes] in Hrun.
    apply bind_ok_inv in Hrun as (p & w1 & Hp & Hrun).
    apply py_get_inv in Hp as [_ ->].
    apply bind_ok_inv in Hrun as (d & w1 & Hd & Hrun).
    apply py_get_inv in Hd as [_ ->].
    apply bind_ok_inv in Hrun as (p1 & w1 & Hp1 & Hrun).
    apply np_item_iop_inv in Hp1 as (c & _ & _ & ->).
    apply bind_ok_inv in Hrun as (y1 & w1 & Hy1 & Hrun).
    apply call_inv in Hy1 as [_ ->].
    destruct (ltb y1 f_min).
    + injection Hrun as <- <- <-. exists [p1]. split; reflexivity.
    + apply bind_ok_inv in Hrun as (d2 & w1 & Hd2 & Hrun).
      apply py_get_inv in Hd2 as [_ ->].
      apply bind_ok_inv in Hrun as (p2 & w1 & Hp2 & Hrun).
      apply np_item_iop_inv in Hp2 as (c2 & _ & _ & ->).
      apply bind_ok_inv in Hrun as (y2 & w1 & Hy2 & Hrun).
      apply call_inv in Hy2 as [_ ->].
      destruct (ltb y2 f_min).
      * injection Hrun as <- <- <-. exists [p1; p2]. split.
        -- simpl_fields. simpl. replace (nfe s + 1 + 1) with (nfe s + 2) by lia.
           reflexivity.
        -- rewrite <- app_assoc. reflexivity.
      * apply IH in Hrun as (new & -> & ->).
        exists (p1 :: p2 :: new). split.
        -- simpl_fields. simpl.
           replace (nfe s + 1 + 1 + length new) with (nfe s + S (S (length new))) by lia.
           reflexivity.
        -- rewrite <- !app_assoc. reflexivity.
Qed.

End inversion.

(** C10.  Whenever [test_for_minimum] returns, the simplex it leaves differs
    from the one it was called on in [nfe] alone, which grew by the number of
    probes evaluated: [vertex_list], [f_list], [dx], [N] and [nrestarts] are
    what they were, also when the answer is false because a probe improved
    on the best value. *)
Theorem test_for_minimum_frame `{Scalar} (f : vec -> option num) (s : NMSimplex vec)
    (i_min : nat) (delta : num) (log : calls) (b : bool) (s' : NMSimplex vec)
    (log' : calls) :
  test_for_minimum f s i_min delta log = (Ok (b, s'), log') ->
  vertex_list s' = vertex_list s /\ f_list s' = f_list s /\ dx s' = dx s /\
  N s' = N s /\ nrestarts s' = nrestarts s /\
  nfe s' = nfe s + (length log' - length log) /\
  s' = with_nfe s (nfe s').
Proof.
  unfold test_for_minimum. intros Hrun.
  apply bind_ok_inv in Hrun as (f_min & w1 & Hget & Hrun).
  apply py_get_inv in Hget as [_ ->].
  apply test_for_minimum_axes_frame in Hrun as (new & -> & ->).
  simpl_fields. repeat (split; [reflexivity |]).
  split; [| reflexivity]. rewrite length_app. lia.
Qed.

(* Probing about the vertex [2], cached value 1: the second probe [1.5] has
   the value 0.25, the answer is false, and the probe is dropped. *)
Lemma test_for_minimum_frame_witness :
  let s := @Build_NMSimplex float64 _ 1 [[1]; [2]]%float [0; 1]%float [1]%float 2 0 in
  let r := @test_for_minimum float64 (total test_fun_1) s 1 0.5%float [] in
  fst r = Ok (false, with_nfe s 4) /\
  vertex_list (with_nfe s 4) = vertex_list s /\ f_list (with_nfe s 4) = f_list s.
Proof.
  intros s r. split; [vm_compute; reflexivity |].
  pose proof (test_for_minimum_frame (H := float64) (total test_fun_1) s 1 0.5%float []
                false (with_nfe s 4) [[2.5]; [1.5]]%float ltac:(vm_compute; reflexivity))
    as (Hv & Hf & _).
  split; [exact Hv | exact Hf].
Defined.

(** ** Restart *)

Section exact_steps.
Local Open Scope Q_scope.

(** In exact arithmetic a nonzero step shrinks and stays nonzero. *)
Lemma Qmult_shrinks (d ratio : Q) :
  0 < ratio -> ratio < 1 -> ~ d == 0 ->
  Qabs (d * ratio) < Qabs d /\ ~ d * ratio == 0.
Proof.
  intros Hpos Hlt Hd.
  assert (Habs : 0 < Qabs d).
  { destruct (Qlt_le_dec 0 (Qabs d)) as [Hgt | Hle]; [exact Hgt |].
    exfalso. apply Hd.
    apply Qabs_Qle_condition in Hle as [H1 H2]. apply Qle_antisym; assumption. }
  split.
  - rewrite Qabs_Qmult. rewrite (Qabs_pos ratio).
    + rewrite <- (Qmult_1_r (Qabs d)) at 2.
      apply Qmult_lt_l; assumption.
    + apply Qlt_le_weak; exact Hpos.
  - intros Hz. apply Qmult_integral in Hz as [Hz | Hz]; [exact (Hd Hz) |].
    rewrite Hz in Hpos. exact (Qlt_irrefl 0 Hpos).
Qed.

End exact_steps.

(** C5, as the code has it.  In every arithmetic, [rescale(ratio)] multiplies
    every component of [dx] by [ratio] and rebuilds the simplex about the best
    vertex [x] as the constructor would build it from [x] and the shrunk [dx]
    - the same vertices, the same values on the [N] new vertices - but slot 0
    keeps the cached value of [x] and [x] is not evaluated again: exactly the
    [N] new vertices are evaluated, [nfe] grows by [N] and [nrestarts] by 1.
    In exact rational arithmetic, with [0 < ratio < 1], a nonzero component
    thereby gets strictly smaller in magnitude and stays nonzero (a zero
    component stays zero). *)
Theorem rescale_rebuilds_about_best :
  (forall (A : Scalar) (g : vec -> num) (s : NMSimplex vec) (ratio : num)
          (log : calls),
     well_formed s ->
     exists i_min x f_min,
       lowest s (-1) log = (Ok i_min, log) /\
       vertex_list s !! i_min = Some x /\ f_list s !! i_min = Some f_min /\
       let dx' := map (fun d => mul d ratio) (dx s) in
       let fresh := map (axis_step x dx') (seq 0 (N s)) in
       rescale (total g) s ratio log
       = (Ok {| N := N s; vertex_list := x :: fresh;
                f_list := f_min :: map g fresh;
                dx := dx'; nfe := nfe s + N s; nrestarts := nrestarts s + 1 |},
          log ++ fresh) /\
       length fresh = N s /\
       (forall k d, dx s !! k = Some d -> dx' !! k = Some (mul d ratio)) /\
       (forall log0,
          NMSimplex_init (total g) x dx' log0
          = (Ok {| N := N s; vertex_list := x :: fresh;
                   f_list := g x :: map g fresh;
                   dx := dx'; nfe := N s + 1; nrestarts := 0 |},
             log0 ++ x :: fresh))) /\
  (forall (s s' : @NMSimplex exactQ (list Q)) (g : list Q -> Q)
          (ratio : Q) (log log' : list (list Q)),
     (0 < ratio)%Q -> (ratio < 1)%Q -> @well_formed exactQ s ->
     @rescale exactQ (@total exactQ g) s ratio log = (Ok s', log') ->
     forall k d, dx s !! k = Some d ->
       exists d', dx s' !! k = Some d' /\ (d' == d * ratio)%Q /\
         (~ (d == 0)%Q -> (Qabs d' < Qabs d)%Q /\ ~ (d' == 0)%Q)).
Proof.
  split.
  - intros A g s ratio log Hwf.
    destruct (rescale_ok (total g) g (fun _ => eq_refl) s ratio log Hwf)
      as (i_min & x & f_min & Hlow & Hx & Hf & Hxlen & Hrun).
    exists i_min, x, f_min.
    split; [exact Hlow |]. split; [exact Hx |]. split; [exact Hf |].
    intros dx' fresh.
    split.
    { rewrite Hrun. unfold rescaled, simplex_about. rewrite Hxlen. reflexivity. }
    split.
    { subst fresh. rewrite length_map, length_seq. reflexivity. }
    split.
    { intros k d Hd. subst dx'. rewrite list_lookup_fmap, Hd. reflexivity. }
    intros log0.
    rewrite (NMSimplex_init_ok (total g) g (fun _ => eq_refl) x dx' log0).
    + unfold simplex_about. rewrite Hxlen. reflexivity.
    + subst dx'. rewrite length_map, Hxlen. exact (wf_dx s Hwf).
  - intros s s' g ratio log log' Hpos Hlt Hwf Hrun k d Hd.
    destruct (rescale_ok (H := exactQ) (@total exactQ g) g (fun _ => eq_refl)
                s ratio log Hwf)
      as (i_min & x & f_min & _ & _ & _ & _ & Hrun').
    rewrite Hrun' in Hrun. injection Hrun as Hs' _. subst s'.
    exists (d * ratio)%Q. split.
    { unfold rescaled. cbn [dx]. rewrite list_lookup_fmap.
      exact (f_equal (fmap (M := option) (fun d : Q => (d * ratio)%Q)) Hd). }
    split; [reflexivity |].
    intros Hnz. apply (Qmult_shrinks d ratio); assumption.
Qed.

Section restart_exact.
Local Existing Instance exactQ.

Lemma rescale_rebuilds_about_best_witness :
  let s := @Build_NMSimplex exactQ _ 1 [[0]; [1 # 2]]%Q [1; 1 # 4]%Q [1 # 2]%Q 2 0 in
  exists s' log',
    rescale (total test_fun_1) s (1 # 2)%Q [] = (Ok s', log') /\
    dx s' = [(1 # 2) * (1 # 2)]%Q /\ nfe s' = 3 /\ nrestarts s' = 1 /\
    length log' = 1 /\
    (Qabs ((1 # 2) * (1 # 2)) < Qabs (1 # 2))%Q.
Proof.
  intros s.
  assert (Hwf : well_formed s).
  { split; simpl; try lia. repeat constructor. }
  destruct (proj1 rescale_rebuilds_about_best exactQ test_fun_1 s (1 # 2)%Q [] Hwf)
    as (i_min & x & f_min & _ & _ & _ & Hrun & _).
  eexists _, _. split; [exact Hrun |].
  repeat split.
Defined.

End restart_exact.

Section restart_binary64.
Local Existing Instance float64.

(** C5 as stated fails on binary64 numbers: the smallest positive number
    times 0.5 is exactly zero, and a step of zero is left at zero. *)
Lemma rescale_step_driven_to_zero_counterexample :
  let tiny := 0x1p-1074%float in
  let s1 := @Build_NMSimplex float64 _ 1 [[0]; [tiny]]%float [1; 1]%float [tiny] 2 0 in
  let s2 := @Build_NMSimplex float64 _ 1 [[0]; [0]]%float [1; 1]%float [0]%float 2 0 in
  PrimFloat.ltb 0 tiny = true /\
  (exists s' log', rescale (total test_fun_1) s1 0.5%float [] = (Ok s', log') /\
                   dx s' = [0]%float) /\
  (exists s' log', rescale (total test_fun_1) s2 0.5%float [] = (Ok s', log') /\
                   dx s' = dx s2).
Proof.
  split; [vm_compute; reflexivity |].
  split; eexists _, _; (split; [vm_compute; reflexivity | reflexivity]).
Qed.

End restart_binary64.

(** ** Scatter of the cached values *)

Section statistics.
Context `{Scalar}.

Lemma sum_sq_repeat (v : num) n :
  sub v v = zero -> mul zero zero = zero -> add zero zero = zero ->
  sum_sq v (repeat v n) = zero.
Proof.
  intros Hsub Hmul Hadd. unfold sum_sq.
  induction n as [| n IH]; simpl; [reflexivity |].
  rewrite Hsub, Hmul, Hadd. exact IH.
Qed.

End statistics.

(** C7, as the code has it.  On a simplex of dimension [N >= 1],
    [f_statistics] returns the pair of [mean = sum(f_list)/(N+1)] and
    [sqrt(s/N)], [s] being the sum of the squares of [f_i - mean] - the
    divisor is [N], not [N+1].  When all cached values are the same [v] and
    the computed mean is [v] itself, the deviation returned is exactly zero
    (the arithmetic facts used are [v - v = 0], [0*0 = 0], [0+0 = 0],
    [0/N = 0] and [sqrt(0) = 0], true of every finite binary64 number [v]). *)
Theorem f_statistics_formula `{Scalar} {array W : Type} (s : NMSimplex array) (w : W) :
  length (f_list s) = N s + 1 ->
  N s <> 0 ->
  let mean := div (py_sum (f_list s)) (of_nat (N s + 1)) in
  f_statistics s w
  = (Ok (mean, sqrt (div (sum_sq mean (f_list s)) (of_nat (N s)))), w) /\
  forall v,
    f_list s = repeat v (N s + 1) ->
    mean = v ->
    sub v v = zero -> mul zero zero = zero -> add zero zero = zero ->
    div zero (of_nat (N s)) = zero -> sqrt zero = zero ->
    f_statistics s w = (Ok (v, zero), w).
Proof.
  intros Hlen HN mean.
  pose proof (f_statistics_ok s w Hlen HN) as Hrun. fold mean in Hrun.
  unfold mean_of in Hrun. fold mean in Hrun.
  split; [exact Hrun |].
  intros v Hall Hmean Hsub Hmul Hadd Hdiv Hsqrt.
  rewrite Hrun, Hmean, Hall, (sum_sq_repeat v _ Hsub Hmul Hadd), Hdiv, Hsqrt.
  reflexivity.
Qed.

Section statistics_binary64.
Local Existing Instance float64.

Lemma f_statistics_formula_witness :
  f_statistics
    (@Build_NMSimplex float64 (list float) 2 [] [0.5; 0.5; 0.5]%float [] 3 0) tt
  = (Ok (0.5, 0)%float, tt).
Proof.
  pose proof (f_statistics_formula (H := float64)
                (@Build_NMSimplex float64 (list float) 2 [] [0.5; 0.5; 0.5]%float [] 3 0) tt
                eq_refl ltac:(discriminate)) as [_ Hzero].
  apply (Hzero 0.5%float); reflexivity.
Defined.

(** C7 as stated fails on binary64 numbers: the mean of three cached values
    0.1 is computed as 0.10000000000000002, so the deviation returned is not
    zero; and on a simplex of dimension 0 the division by [N] raises. *)
Lemma f_statistics_equal_values_counterexample :
  let s := @Build_NMSimplex float64 (list float) 2 [] [0.1; 0.1; 0.1]%float [] 3 0 in
  let s0 := @Build_NMSimplex float64 (list float) 0 [] [0.1]%float [] 1 0 in
  (exists mean std,
     f_statistics s tt = (Ok (mean, std), tt) /\
     PrimFloat.ltb 0.1 mean = true /\ PrimFloat.ltb 0 std = true) /\
  f_statistics s0 tt = (Raise ZeroDivisionError, tt).
Proof.
  split; [| vm_compute; reflexivity].
  eexists _, _. split; [vm_compute; reflexivity |].
  split; vm_compute; reflexivity.
Qed.

End statistics_binary64.

(** ** Computations that leave the world alone *)

Section quiet.
Context {W : Type}.

Lemma quiet_inv {A} (m : M W A) w o w' : quiet m -> m w = (o, w') -> w' = w.
Proof. intros Hq Hrun. specialize (Hq w). rewrite Hrun in Hq. exact Hq. Qed.

Lemma quiet_ret {A} (a : A) : quiet (ret (W := W) a).
Proof. intros w. reflexivity. Qed.

Lemma quiet_raise {A} e : quiet (raise (W := W) (A := A) e).
Proof. intros w. reflexivity. Qed.

Lemma quiet_bind {A B} (m : M W A) (k : A -> M W B) :
  quiet m -> (forall a, quiet (k a)) -> quiet (bind m k).
Proof.
  intros Hm Hk w. unfold bind. specialize (Hm w).
  destruct (m w) as [[a | e |] w1]; simpl in Hm; subst w1; try reflexivity.
  apply Hk.
Qed.

Lemma quiet_for_in {A} (l : list nat) (body : nat -> A -> M W A) a :
  (forall i a, quiet (body i a)) -> quiet (for_in l body a).
Proof.
  intros Hbody. revert a. induction l as [| i l IH]; intros a; simpl.
  - apply quiet_ret.
  - apply quiet_bind; [apply Hbody | exact IH].
Qed.

Lemma quiet_py_get {A} (l : list A) i : quiet (py_get (W := W) l i).
Proof. intros w. unfold py_get. destruct (l !! i); reflexivity. Qed.

Lemma quiet_py_set {A} (l : list A) i a : quiet (py_set (W := W) l i a).
Proof. intros w. unfold py_set. destruct (decide (i < length l)); reflexivity. Qed.

Context `{Scalar}.

Lemma quiet_np_binop op (a b : vec) : quiet (np_binop (W := W) op a b).
Proof.
  intros w. unfold np_binop.
  destruct (decide (length a = length b)); [reflexivity |].
  destruct a as [| ? [| ? ?]], b as [| ? [| ? ?]]; reflexivity.
Qed.

Lemma quiet_np_iop op (a b : vec) : quiet (np_iop (W := W) op a b).
Proof.
  intros w. unfold np_iop.
  destruct (decide (length b = length a)); [reflexivity |].
  destruct b as [| ? [| ? ?]]; reflexivity.
Qed.

Lemma quiet_np_item_iop op (p : vec) j d : quiet (np_item_iop (W := W) op p j d).
Proof. apply quiet_bind; [apply quiet_py_get | intros c; apply quiet_py_set]. Qed.

Context {array : Type}.
Implicit Type self : NMSimplex array.

Lemma quiet_lowest self exclude : quiet (lowest (W := W) self exclude).
Proof.
  unfold lowest. apply quiet_bind; [apply quiet_py_get | intros v].
  apply quiet_bind; [| intros r; apply quiet_ret].
  apply quiet_for_in. intros i st.
  destruct (decide (Z.of_nat i = exclude)); [apply quiet_ret |].
  apply quiet_bind; [apply quiet_py_get | intros fi].
  destruct (ltb fi st.1); apply quiet_ret.
Qed.

Lemma quiet_highest self exclude : quiet (highest (W := W) self exclude).
Proof.
  unfold highest. apply quiet_bind; [apply quiet_py_get | intros v].
  apply quiet_bind; [| intros r; apply quiet_ret].
  apply quiet_for_in. intros i st.
  destruct (decide (Z.of_nat i = exclude)); [apply quiet_ret |].
  apply quiet_bind; [apply quiet_py_get | intros fi].
  destruct (ltb st.1 fi); apply quiet_ret.
Qed.

Lemma quiet_f_statistics self : quiet (f_statistics (W := W) self).
Proof.
  unfold f_statistics. apply quiet_bind.
  - apply quiet_for_in. intros i acc.
    apply quiet_bind; [apply quiet_py_get | intros fi; apply quiet_ret].
  - intros acc. destruct (decide (N self = 0)); [apply quiet_raise | apply quiet_ret].
Qed.

Lemma quiet_count_above self y : quiet (count_above (W := W) self y).
Proof.
  unfold count_above. apply quiet_for_in. intros i c.
  apply quiet_bind; [apply quiet_py_get | intros fi].
  destruct (ltb y fi); apply quiet_ret.
Qed.

End quiet.

Section quiet_value_model.
Context `{Scalar} {W : Type}.
Implicit Type self : NMSimplex vec.

Lemma quiet_get_vertex self i : quiet (get_vertex (W := W) self i).
Proof. apply quiet_py_get. Qed.

Lemma quiet_replace_vertex self i x y : quiet (replace_vertex (W := W) self i x y).
Proof.
  unfold replace_vertex. apply quiet_bind; [apply quiet_py_set | intros vl].
  apply quiet_bind; [apply quiet_py_set | intros fl; apply quiet_ret].
Qed.

Lemma quiet_centroid self exclude : quiet (centroid (W := W) self exclude).
Proof.
  unfold centroid. apply quiet_bind; [| intros xm; apply quiet_ret].
  apply quiet_for_in. intros i xm.
  destruct (decide (Z.of_nat i = exclude)); [apply quiet_ret |].
  apply quiet_bind; [apply quiet_py_get | intros v; apply quiet_np_iop].
Qed.

End quiet_value_model.

Create HintDb quiet.

#[global] Hint Resolve quiet_ret quiet_raise quiet_py_get quiet_py_set quiet_np_binop
  quiet_np_iop quiet_np_item_iop quiet_lowest quiet_highest quiet_f_statistics
  quiet_count_above quiet_get_vertex quiet_replace_vertex quiet_centroid : quiet.

(** ** The evaluation counter *)

Ltac prove_quiet :=
  repeat match goal with
    | |- quiet (if ?b then _ else _) => destruct b
    | |- quiet (match ?x with _ => _ end) => destruct x
    | |- quiet (bind _ _) => apply quiet_bind
    | |- quiet (for_in _ _ _) => apply quiet_for_in
    | |- quiet (for_range _ _ _) => apply quiet_for_in
    | |- quiet _ => solve [eauto with quiet]
    | |- forall _, _ => intro
    end.

(* One step of running a successful computation backwards: the first
   operation of the bind in [H] is split off, its result named [a]; a call of
   the objective extends the log, a quiet operation leaves it. *)
Ltac inv_step_as H a Ha :=
  let w := fresh "w" in
  lazymatch type of H with
  | bind (call _ _) _ _ = (Ok _, _) =>
      apply bind_ok_inv in H as (a & w & Ha & H);
      apply call_inv in Ha as [Ha ->]
  | bind _ _ _ = (Ok _, _) =>
      apply bind_ok_inv in H as (a & w & Ha & H);
      (let Hw := fresh "Hw" in
       let Hq := fresh "Hq" in
       lazymatch type of Ha with
       | ?m _ = (_, _) =>
           assert (Hq : quiet m) by prove_quiet;
           pose proof (quiet_inv _ _ _ _ Hq Ha) as Hw; clear Hq; subst w
       end)
  end.

Tactic Notation "inv_step" hyp(H) "as" ident(a) ident(Ha) := inv_step_as H a Ha.
Tactic Notation "inv_step" hyp(H) :=
  let a := fresh "a" in
  let Ha := fresh "Ha" in
  inv_step_as H a Ha.

Section counting.
Context `{Scalar}.
Variable f : vec -> option num.
Implicit Type self s : NMSimplex vec.

Lemma counted_refl n (log : calls) : counted n log n log.
Proof. exists []. rewrite app_nil_r. split; [reflexivity | simpl; lia]. Qed.

Lemma counted_trans n0 (log0 : calls) n1 log1 n2 log2 :
  counted n0 log0 n1 log1 -> counted n1 log1 n2 log2 -> counted n0 log0 n2 log2.
Proof.
  intros (new1 & -> & ->) (new2 & -> & ->). exists (new1 ++ new2).
  rewrite app_assoc, length_app. split; [reflexivity | lia].
Qed.

Lemma counted_call n (log : calls) p : counted n log (n + 1) (log ++ [p]).
Proof. exists [p]. split; reflexivity. Qed.

Lemma counted_calls n (log : calls) k ps :
  k = length ps -> counted n log (n + k) (log ++ ps).
Proof. intros ->. exists ps. split; reflexivity. Qed.

(** A loop whose successful rounds keep [I] ends in [I] when it succeeds. *)
Lemma for_in_invariant {W A} (I : A -> W -> Prop) (body : nat -> A -> M W A) l :
  (forall i a w a' w', I a w -> body i a w = (Ok a', w') -> I a' w') ->
  forall a w a' w', I a w -> for_in l body a w = (Ok a', w') -> I a' w'.
Proof.
  intros Hbody. induction l as [| i l IH]; intros a w a' w' Ha Hrun; simpl in Hrun.
  - injection Hrun as <- <-. exact Ha.
  - apply bind_ok_inv in Hrun as (a1 & w1 & Hb & Hrun).
    apply (IH a1 w1 a' w'); [| exact Hrun].
    apply (Hbody i a w); assumption.
Qed.

Lemma replace_vertex_inv {W} s i x y (w : W) s' w' :
  replace_vertex s i x y w = (Ok s', w') -> s' = replaced s i x y /\ w' = w.
Proof.
  unfold replace_vertex. intros Hrun.
  apply bind_ok_inv in Hrun as (vl & w1 & Hvl & Hrun).
  apply py_set_inv in Hvl as (-> & _ & ->).
  apply bind_ok_inv in Hrun as (fl & w1 & Hfl & Hrun).
  apply py_set_inv in Hfl as (-> & _ & ->).
  injection Hrun as <- <-. split; reflexivity.
Qed.

Lemma NMSimplex_init_counted x d (log : calls) s' log' :
  NMSimplex_init f x d log = (Ok s', log') -> counted 0 log (nfe s') log'.
Proof.
  unfold NMSimplex_init, for_range.
  apply (for_in_invariant (fun s (w : calls) => counted 0 log (nfe s) w)).
  - intros i s w s1 w1 Hinv Hrun.
    inv_step Hrun. inv_step Hrun. injection Hrun as <- <-. simpl_fields.
    exact (counted_trans _ _ _ _ _ _ Hinv (counted_call _ _ _)).
  - apply counted_refl.
Qed.

Lemma contract_about_one_point_counted s i_con (log : calls) s' log' :
  contract_about_one_point f s i_con log = (Ok s', log') ->
  counted (nfe s) log (nfe s') log'.
Proof.
  unfold contract_about_one_point, for_range. intros Hrun.
  inv_step Hrun. revert Hrun.
  apply (for_in_invariant (fun s1 (w : calls) => counted (nfe s) log (nfe s1) w)).
  - intros i s1 w s2 w2 Hinv Hrun.
    destruct (decide (i = i_con)).
    + injection Hrun as <- <-. exact Hinv.
    + do 2 inv_step Hrun. inv_step Hrun. do 2 inv_step Hrun.
      injection Hrun as <- <-. simpl_fields.
      exact (counted_trans _ _ _ _ _ _ Hinv (counted_call _ _ _)).
  - apply counted_refl.
Qed.

Lemma rescale_counted s ratio (log : calls) s' log' :
  rescale f s ratio log = (Ok s', log') -> counted (nfe s) log (nfe s') log'.
Proof.
  unfold rescale, for_range. intros Hrun.
  do 3 inv_step Hrun.
  apply bind_ok_inv in Hrun as (s1 & w1 & Hloop & Hrun).
  injection Hrun as <- <-. simpl_fields. revert Hloop.
  apply (for_in_invariant (fun s1 (w : calls) => counted (nfe s) log (nfe s1) w)).
  - intros i s2 w s3 w3 Hinv Hrun.
    destruct (decide (i = 0)).
    + injection Hrun as <- <-. exact Hinv.
    + do 2 inv_step Hrun. inv_step Hrun.
      injection Hrun as <- <-. simpl_fields.
      exact (counted_trans _ _ _ _ _ _ Hinv (counted_call _ _ _)).
  - apply counted_refl.
Qed.

Lemma test_for_minimum_counted s i_min delta (log : calls) b s' log' :
  test_for_minimum f s i_min delta log = (Ok (b, s'), log') ->
  counted (nfe s) log (nfe s') log'.
Proof.
  unfold test_for_minimum. intros Hrun. inv_step Hrun.
  apply test_for_minimum_axes_frame in Hrun as (new & -> & ->).
  exists new. split; reflexivity.
Qed.

Lemma take_a_step_counted s Kreflect Kextend Kcontract (log : calls) s' log' :
  take_a_step f s Kreflect Kextend Kcontract log = (Ok s', log') ->
  counted (nfe s) log (nfe s') log' /\ nfe s + 2 <= nfe s'.
Proof.
  unfold take_a_step. intros Hrun.
  inv_step Hrun as i_low Hlow. inv_step Hrun as i_high Hhigh.
  inv_step Hrun as x_high Hxh. inv_step Hrun as f_high Hfh.
  inv_step Hrun as x_mid Hmid. inv_step Hrun as f_mid Hfm.
  inv_step Hrun as x_refl Hrefl. inv_step Hrun as f_refl Hfr.
  cbv zeta in Hrun. rewrite ?with_nfe_twice in Hrun. cbn [nfe with_nfe] in Hrun.
  assert (Hstep : forall i x y s1 w1 n (l0 : calls),
            counted (nfe s) log n l0 -> nfe s + 2 <= n ->
            replace_vertex (with_nfe s n) i x y l0 = (Ok s1, w1) ->
            counted (nfe s) log (nfe s1) w1 /\ nfe s + 2 <= nfe s1).
  { intros i x y s1 w1 n l0 Hc Hn Hr.
    apply replace_vertex_inv in Hr as [-> ->]. simpl_fields. split; assumption. }
  assert (H2 : counted (nfe s) log (nfe s + 1 + 1) ((log ++ [x_mid]) ++ [x_refl])).
  { exact (counted_trans _ _ _ _ _ _ (counted_call _ _ _) (counted_call _ _ _)). }
  destruct (ltb f_refl f_mid).
  - inv_step Hrun as x_ext Hext. inv_step Hrun as f_ext Hfe.
    cbv zeta in Hrun. rewrite ?with_nfe_twice in Hrun. cbn [nfe with_nfe] in Hrun.
    pose proof (counted_trans _ _ _ _ _ _ H2 (counted_call _ _ x_ext)) as H3.
    destruct (ltb f_ext f_refl); apply (Hstep _ _ _ _ _ _ _ H3 ltac:(lia) Hrun).
  - inv_step Hrun as count Hcount.
    destruct (decide (count <= 1)).
    + inv_step Hrun as x_con Hcon. inv_step Hrun as f_con Hfc.
      cbv zeta in Hrun. rewrite ?with_nfe_twice in Hrun. cbn [nfe with_nfe] in Hrun.
      pose proof (counted_trans _ _ _ _ _ _ H2 (counted_call _ _ x_con)) as H3.
      destruct (ltb f_con f_high).
      * apply (Hstep _ _ _ _ _ _ _ H3 ltac:(lia) Hrun).
      * apply contract_about_one_point_counted in Hrun. cbn [nfe with_nfe] in Hrun.
        split; [exact (counted_trans _ _ _ _ _ _ H3 Hrun) |].
        destruct Hrun as (new & _ & ->). lia.
    + apply (Hstep _ _ _ _ _ _ _ H2 ltac:(lia) Hrun).
Qed.

Lemma minimize_loop_counted fuel tol maxfe n_check delta Kreflect Kextend Kcontract :
  forall converged best smplx (log : calls) x_best f_best c n nr log',
    minimize_loop f fuel tol maxfe n_check delta Kreflect Kextend Kcontract
      converged best smplx log = (Ok (x_best, f_best, c, n, nr), log') ->
    counted (nfe smplx) log n log'.
Proof.
  induction fuel as [| fuel IH];
    intros converged best smplx log x_best f_best c n nr log' Hrun;
    cbn [minimize_loop] in Hrun;
    destruct (negb converged && (Z.of_nat (nfe smplx) <? maxfe)%Z).
  - discriminate Hrun.
  - destruct best as [[xb fb] |]; [| discriminate Hrun].
    injection Hrun as <- <- <- <- <- <-. apply counted_refl.
  - apply bind_ok_inv in Hrun as (s1 & w1 & Hsteps & Hrun).
    assert (Hc1 : counted (nfe smplx) log (nfe s1) w1).
    { revert Hsteps. unfold for_range.
      apply (for_in_invariant (fun s0 (w : calls) => counted (nfe smplx) log (nfe s0) w)).
      - intros i s0 w s2 w2 Hinv Hstep.
        apply take_a_step_counted in Hstep as [Hstep _].
        exact (counted_trans _ _ _ _ _ _ Hinv Hstep).
      - apply counted_refl. }
    inv_step Hrun as i_best Hbest. inv_step Hrun as xb Hxb.
    inv_step Hrun as fb Hfb. inv_step Hrun as stats Hstats.
    cbv zeta in Hrun.
    destruct (ltb stats.2 tol).
    + apply bind_ok_inv in Hrun as ([b s2] & w2 & Htest & Hrun).
      apply test_for_minimum_counted in Htest.
      pose proof (counted_trans _ _ _ _ _ _ Hc1 Htest) as Hc2.
      cbn [fst snd] in Hrun.
      destruct (negb b).
      * apply bind_ok_inv in Hrun as (s3 & w3 & Hres & Hrun).
        apply rescale_counted in Hres.
        apply IH in Hrun.
        exact (counted_trans _ _ _ _ _ _ (counted_trans _ _ _ _ _ _ Hc2 Hres) Hrun).
      * apply IH in Hrun. exact (counted_trans _ _ _ _ _ _ Hc2 Hrun).
    + apply IH in Hrun. exact (counted_trans _ _ _ _ _ _ Hc1 Hrun).
  - destruct best as [[xb fb] |]; [| discriminate Hrun].
    injection Hrun as <- <- <- <- <- <-. apply counted_refl.
Qed.

Lemma minimize_counted fuel x dx0 tol maxfe n_check delta Kreflect Kextend Kcontract
    (log : calls) x_best f_best c n nr log' :
  minimize f fuel x dx0 tol maxfe n_check delta Kreflect Kextend Kcontract log
  = (Ok (x_best, f_best, c, n, nr), log') ->
  counted 0 log n log'.
Proof.
  unfold minimize. intros Hrun.
  apply bind_ok_inv in Hrun as (s0 & w0 & Hinit & Hrun).
  apply NMSimplex_init_counted in Hinit.
  apply minimize_loop_counted in Hrun.
  exact (counted_trans _ _ _ _ _ _ Hinit Hrun).
Qed.

End counting.

(** C6.  Every method that calls the objective adds to [nfe] exactly the
    number of calls it makes - the log of calls grows by [new] and [nfe] by
    [length new], so [nfe] never decreases - and the number of evaluations
    [minimize] returns is the number of calls made during the whole run, the
    evaluation at the centroid in each step included ([take_a_step] makes at
    least two calls). *)
Theorem nfe_counts_objective_calls `{Scalar} (f : vec -> option num) :
  (forall x d (log : calls) s' log',
     NMSimplex_init f x d log = (Ok s', log') -> counted 0 log (nfe s') log') /\
  (forall s Kreflect Kextend Kcontract (log : calls) s' log',
     take_a_step f s Kreflect Kextend Kcontract log = (Ok s', log') ->
     counted (nfe s) log (nfe s') log' /\ nfe s + 2 <= nfe s') /\
  (forall s i_con (log : calls) s' log',
     contract_about_one_point f s i_con log = (Ok s', log') ->
     counted (nfe s) log (nfe s') log') /\
  (forall s i_min delta (log : calls) b s' log',
     test_for_minimum f s i_min delta log = (Ok (b, s'), log') ->
     counted (nfe s) log (nfe s') log') /\
  (forall s ratio (log : calls) s' log',
     rescale f s ratio log = (Ok s', log') -> counted (nfe s) log (nfe s') log') /\
  (forall fuel x dx0 tol maxfe n_check delta Kreflect Kextend Kcontract (log : calls)
          x_best f_best converged n_evals n_restarts log',
     minimize f fuel x dx0 tol maxfe n_check delta Kreflect Kextend Kcontract log
     = (Ok (x_best, f_best, converged, n_evals, n_restarts), log') ->
     exists new, log' = log ++ new /\ n_evals = length new).
Proof.
  split; [apply NMSimplex_init_counted |].
  split; [apply take_a_step_counted |].
  split; [apply contract_about_one_point_counted |].
  split; [apply test_for_minimum_counted |].
  split; [apply rescale_counted |].
  intros fuel x dx0 tol maxfe n_check delta Kreflect Kextend Kcontract log
         x_best f_best converged n_evals n_restarts log' Hrun.
  apply minimize_counted in Hrun as (new & -> & ->).
  exists new. split; reflexivity.
Qed.

Section counting_binary64.
Local Existing Instance float64.

(* The second run of the module's self-test: 127 evaluations reported, 127
   calls logged. *)
Lemma nfe_counts_objective_calls_witness :
  exists x_best f_best log',
    minimize test_fun_2 200 [0; 0]%float (Some [0.5; 0.5]%float) 1e-4%float 300 20
      0.001%float 1%float 2%float 0.5%float []
    = (Ok (x_best, f_best, true, 127, 0), log') /\
    length log' = 127.
Proof.
  destruct (nfe_counts_objective_calls (H := float64) test_fun_2)
    as (_ & _ & _ & _ & _ & Hmin).
  assert (Hrun : exists x_best f_best log',
             minimize test_fun_2 200 [0; 0]%float (Some [0.5; 0.5]%float) 1e-4%float 300 20
               0.001%float 1%float 2%float 0.5%float []
             = (Ok (x_best, f_best, true, 127, 0), log')).
  { eexists _, _, _. vm_compute. reflexivity. }
  destruct Hrun as (x_best & f_best & log' & Hrun).
  exists x_best, f_best, log'. split; [exact Hrun |].
  destruct (Hmin _ _ _ _ _ _ _ _ _ _ _ _ _ _ _ _ _ Hrun) as (new & -> & Hn).
  simpl. symmetry. exact Hn.
Defined.

End counting_binary64.

(** ** One step, when the reflection is not below the centroid *)

(** C1, as the code has it.  On a well-formed simplex [take_a_step] finds
    the best slot [i_low] and the worst slot [i_high], the centroid [x_mid]
    of the other vertices and the reflection [x_refl], and evaluates both.
    When [f_refl < f_mid] is false it counts the vertices whose cached value
    is strictly ABOVE [f_refl] (worse than the reflection, not better).  If
    at most one is, it evaluates the contraction
    [x_con = (1-Kcontract)*x_mid + Kcontract*x_high] and installs it in the
    worst slot when [f_con < f_high]; otherwise it shrinks the simplex with
    [contract_about_one_point(i_low)].  If more than one vertex is above the
    reflection, the reflection replaces the worst vertex outright, after two
    evaluations. *)
Theorem take_a_step_when_reflection_fails `{Scalar} (g : vec -> num) (s : NMSimplex vec)
    (Kreflect Kextend Kcontract : num) (log : calls) :
  well_formed s ->
  exists i_low i_high x_high f_high x_mid,
    lowest s (-1) log = (Ok i_low, log) /\
    highest s (-1) log = (Ok i_high, log) /\
    vertex_list s !! i_high = Some x_high /\ f_list s !! i_high = Some f_high /\
    centroid s (Z.of_nat i_high) log = (Ok x_mid, log) /\
    let x_refl := reflected Kreflect x_mid x_high in
    let x_con := contracted Kcontract x_mid x_high in
    let count := number_above (f_list s) (g x_refl) in
    ltb (g x_refl) (g x_mid) = false ->
    count_above s (g x_refl) log = (Ok count, log) /\
    (count <= 1 -> ltb (g x_con) f_high = true ->
       take_a_step (total g) s Kreflect Kextend Kcontract log
       = (Ok (replaced (with_nfe s (nfe s + 3)) i_high x_con (g x_con)),
          log ++ [x_mid; x_refl; x_con])) /\
    (count <= 1 -> ltb (g x_con) f_high = false ->
       take_a_step (total g) s Kreflect Kextend Kcontract log
       = contract_about_one_point (total g) (with_nfe s (nfe s + 3)) i_low
           (log ++ [x_mid; x_refl; x_con])) /\
    (1 < count ->
       take_a_step (total g) s Kreflect Kextend Kcontract log
       = (Ok (replaced (with_nfe s (nfe s + 2)) i_high x_refl (g x_refl)),
          log ++ [x_mid; x_refl])).
Proof.
  intros Hwf.
  destruct (take_a_step_run (total g) g (fun _ => eq_refl) s Kreflect Kextend Kcontract
              log Hwf)
    as (i_low & f_low & i_high & x_high & f_high & x_mid
        & Hlow & _ & Hhigh & Hxh & Hfh & _ & Hmid & _ & _ & Hrun).
  exists i_low, i_high, x_high, f_high, x_mid.
  split; [exact Hlow |]. split; [exact Hhigh |]. split; [exact Hxh |].
  split; [exact Hfh |]. split; [exact Hmid |].
  intros x_refl x_con count Hnot.
  cbv zeta in Hrun. fold x_refl x_con in Hrun. rewrite Hnot in Hrun. fold count in Hrun.
  split; [apply count_above_ok; exact (wf_values s Hwf) |].
  split; [| split].
  - intros Hcount Hcon. rewrite Hrun, decide_True, Hcon by exact Hcount. reflexivity.
  - intros Hcount Hcon. rewrite Hrun, decide_True, Hcon by exact Hcount. reflexivity.
  - intros Hcount. rewrite Hrun, decide_False by lia. reflexivity.
Qed.

Section step_binary64.
Local Existing Instance float64.

(* The simplex about the origin with unit steps, on the bowl with floor at
   (0.5, 0.25): the reflection (1,-1) is worse than every vertex, none lies
   above it, and the contraction (0.25, 0.5) is installed. *)
Lemma take_a_step_when_reflection_fails_witness :
  let s := @Build_NMSimplex float64 (list float) 2
             [[0; 0]; [1; 0]; [0; 1]]%float [1.0625; 1.0625; 1.5625]%float
             [1; 1]%float 3 0 in
  take_a_step (total (bowl 0.25)) s 1%float 2%float 0.5%float []
  = (Ok (replaced (with_nfe s 6) 2 [0.25; 0.5]%float 0.3125%float),
     [[0.5; 0]; [1; -1]; [0.25; 0.5]]%float).
Proof.
  intros s.
  destruct (take_a_step_when_reflection_fails (H := float64) (bowl 0.25) s
              1%float 2%float 0.5%float [])
    as (i_low & i_high & x_high & f_high & x_mid
        & Hlow & Hhigh & Hxh & Hfh & Hmid & Hcases).
  { split; simpl; try lia. repeat constructor. }
  vm_compute in Hhigh. injection Hhigh as <-.
  vm_compute in Hxh. injection Hxh as <-.
  vm_compute in Hfh. injection Hfh as <-.
  vm_compute in Hmid. injection Hmid as <-.
  destruct Hcases as (_ & Hcon & _); [vm_compute; reflexivity |].
  rewrite Hcon; [vm_compute; reflexivity | vm_compute; lia | vm_compute; reflexivity].
Defined.

(** C1 as stated fails both ways.  On the bowl with floor at (0.5, -0.625)
    no vertex is strictly better than the reflection (at most one "beats"
    it), yet no contraction is attempted: three vertices are above the
    reflection, which is installed after two evaluations.  On the bowl with
    floor at (0.5, 0.25) all three vertices are strictly better than the
    reflection, yet it is not installed: the contraction is evaluated and
    accepted. *)
Lemma take_a_step_counts_vertices_above_counterexample :
  let s1 := @Build_NMSimplex float64 (list float) 2
              [[0; 0]; [1; 0]; [0; 1]]%float [1.390625; 1.390625; 3.640625]%float
              [1; 1]%float 3 0 in
  let s2 := @Build_NMSimplex float64 (list float) 2
              [[0; 0]; [1; 0]; [0; 1]]%float [1.0625; 1.0625; 1.5625]%float
              [1; 1]%float 3 0 in
  let x_mid := [0.5; 0]%float in
  let x_refl := [1; -1]%float in
  let x_con := [0.25; 0.5]%float in
  (NMSimplex_init (total (bowl (-0.625))) [0; 0]%float [1; 1]%float [] = (Ok s1, vertex_list s1) /\
   PrimFloat.ltb (bowl (-0.625) x_refl) (bowl (-0.625) x_mid) = false /\
   number_below (f_list s1) (bowl (-0.625) x_refl) = 0 /\
   number_above (f_list s1) (bowl (-0.625) x_refl) = 3 /\
   take_a_step (total (bowl (-0.625))) s1 1%float 2%float 0.5%float []
   = (Ok (replaced (with_nfe s1 5) 2 x_refl (bowl (-0.625) x_refl)), [x_mid; x_refl])) /\
  (NMSimplex_init (total (bowl 0.25)) [0; 0]%float [1; 1]%float [] = (Ok s2, vertex_list s2) /\
   PrimFloat.ltb (bowl 0.25 x_refl) (bowl 0.25 x_mid) = false /\
   number_below (f_list s2) (bowl 0.25 x_refl) = 3 /\
   number_above (f_list s2) (bowl 0.25 x_refl) = 0 /\
   take_a_step (total (bowl 0.25)) s2 1%float 2%float 0.5%float []
   = (Ok (replaced (with_nfe s2 6) 2 x_con (bowl 0.25 x_con)), [x_mid; x_refl; x_con])).
Proof.
  repeat split; vm_compute; reflexivity.
Qed.

End step_binary64.

(** ** Termination of the driver *)

Section progress.
Context `{Scalar}.
Variable f : vec -> option num.
Variable g : vec -> num.
Hypothesis f_total : forall p, f p = Some (g p).
Implicit Type self s smplx : NMSimplex vec.

Lemma reflected_length Kreflect (x_mid x_high : vec) n :
  length x_mid = n -> length x_high = n -> length (reflected Kreflect x_mid x_high) = n.
Proof.
  intros Hm Hh. apply zip_with_same_length; rewrite np_scale_length; assumption.
Qed.

Lemma extended_length Kextend (x_refl x_mid : vec) n :
  length x_refl = n -> length x_mid = n -> length (extended Kextend x_refl x_mid) = n.
Proof.
  intros Hr Hm. apply zip_with_same_length; rewrite np_scale_length; assumption.
Qed.

Lemma contracted_length Kcontract (x_mid x_high : vec) n :
  length x_mid = n -> length x_high = n -> length (contracted Kcontract x_mid x_high) = n.
Proof.
  intros Hm Hh. apply zip_with_same_length; rewrite np_scale_length; assumption.
Qed.

(** A step on a well-formed simplex succeeds, keeps it well-formed and
    spends at least two evaluations. *)
Lemma take_a_step_ok s Kreflect Kextend Kcontract (log : calls) :
  well_formed s ->
  exists s' log',
    take_a_step f s Kreflect Kextend Kcontract log = (Ok s', log') /\
    well_formed s' /\ N s' = N s /\ nfe s + 2 <= nfe s'.
Proof.
  intros Hwf.
  destruct (take_a_step_run f g f_total s Kreflect Kextend Kcontract log Hwf)
    as (i_low & f_low & i_high & x_high & f_high & x_mid
        & Hlow & Hfl & Hhigh & Hxh & Hfh & _ & Hmid & Hml & Hhl & Hrun).
  cbv zeta in Hrun.
  assert (Hrl := reflected_length Kreflect x_mid x_high (N s) Hml Hhl).
  assert (Hel := extended_length Kextend _ x_mid (N s) Hrl Hml).
  assert (Hcl := contracted_length Kcontract x_mid x_high (N s) Hml Hhl).
  assert (Hil : i_low < N s + 1).
  { rewrite <- (wf_values s Hwf). apply lookup_lt_Some with f_low. exact Hfl. }
  assert (Hdone : exists s' log',
            take_a_step f s Kreflect Kextend Kcontract log = (Ok s', log') /\
            well_formed s' /\ N s' = N s).
  { rewrite Hrun.
    assert (Hrep : forall n x y (l0 : calls), length x = N s ->
              exists s' log',
                (Ok (replaced (with_nfe s n) i_high x y), l0) = (Ok s', log') /\
                well_formed s' /\ N s' = N s).
    { intros n x y l0 Hx. eexists _, _. split; [reflexivity |]. split; [| reflexivity].
      apply wf_replaced; [apply wf_with_nfe; exact Hwf | exact Hx]. }
    destruct (ltb _ _).
    - destruct (ltb _ _); apply Hrep; assumption.
    - destruct (decide _); [| apply Hrep; assumption].
      destruct (ltb _ _); [apply Hrep; assumption |].
      destruct (wf_vertex_lookup s i_low Hwf Hil) as (p_con & Hpc & _).
      destruct (contract_about_one_point_ok f g f_total (with_nfe s (nfe s + 3)) i_low p_con
                  (log ++ [x_mid; reflected Kreflect x_mid x_high;
                           contracted Kcontract x_mid x_high])
                  (wf_with_nfe s _ Hwf) Hpc)
        as (s' & Hc & Hwf' & HN' & _).
      exists s'. eexists. split; [exact Hc |]. split; [exact Hwf' | exact HN']. }
  destruct Hdone as (s' & log' & Hok & Hwf' & HN').
  exists s', log'. split; [exact Hok |]. split; [exact Hwf' |]. split; [exact HN' |].
  exact (proj2 (take_a_step_counted f s _ _ _ log s' log' Hok)).
Qed.

(** [n_check] steps in a row. *)
Lemma take_steps_ok n s Kreflect Kextend Kcontract (log : calls) :
  well_formed s ->
  exists s' log',
    for_range n (fun _ smplx => take_a_step f smplx Kreflect Kextend Kcontract) s log
    = (Ok s', log') /\
    well_formed s' /\ N s' = N s /\ nfe s + 2 * n <= nfe s'.
Proof.
  intros Hwf.
  destruct (for_range_ok
    (fun k (s1 : NMSimplex vec) (w : calls) =>
       well_formed s1 /\ N s1 = N s /\ nfe s + 2 * k <= nfe s1)
    (fun _ smplx => take_a_step f smplx Kreflect Kextend Kcontract) n s log)
    as (s' & log' & Hrun & Hinv).
  - split; [exact Hwf |]. split; [reflexivity | lia].
  - intros k s1 w1 Hk (Hwf1 & HN1 & Hn1).
    destruct (take_a_step_ok s1 Kreflect Kextend Kcontract w1 Hwf1)
      as (s2 & w2 & Hstep & Hwf2 & HN2 & Hn2).
    exists s2, w2. split; [exact Hstep |].
    split; [exact Hwf2 |]. split; [congruence | lia].
  - exists s', log'. split; [exact Hrun | exact Hinv].
Qed.

End progress.

Section driver.
Context `{Scalar}.
Variable f : vec -> option num.
Variable g : vec -> num.
Hypothesis f_total : forall p, f p = Some (g p).
Variables (tol : num) (maxfe n_check : Z) (delta Kreflect Kextend Kcontract : num).
Hypothesis n_check_positive : (1 <= n_check)%Z.
Implicit Type self s smplx : NMSimplex vec.

(** A property [J] of the simplex that every operation of the loop keeps,
    and what it gives about the best value [minimize] records. *)
Variable J : NMSimplex vec -> Prop.
Variable Q : num -> Prop.
Hypothesis J_step : forall s (log : calls) s' log',
  well_formed s -> 1 <= N s -> J s ->
  take_a_step f s Kreflect Kextend Kcontract log = (Ok s', log') -> J s'.
Hypothesis J_nfe : forall s n, J s -> J (with_nfe s n).
Hypothesis J_rescale : forall s (log : calls) s' log',
  well_formed s -> 1 <= N s -> J s -> rescale f s delta log = (Ok s', log') -> J s'.
Hypothesis J_best : forall s (log : calls) i y,
  well_formed s -> J s -> lowest s (-1) log = (Ok i, log) -> f_list s !! i = Some y -> Q y.

Lemma take_steps_keep n s (log : calls) :
  well_formed s -> 1 <= N s -> J s ->
  exists s' log',
    for_range n (fun _ smplx => take_a_step f smplx Kreflect Kextend Kcontract) s log
    = (Ok s', log') /\
    well_formed s' /\ N s' = N s /\ nfe s + 2 * n <= nfe s' /\ J s'.
Proof.
  intros Hwf HN HJ.
  destruct (for_range_ok
    (fun k (s1 : NMSimplex vec) (w : calls) =>
       well_formed s1 /\ N s1 = N s /\ nfe s + 2 * k <= nfe s1 /\ J s1)
    (fun _ smplx => take_a_step f smplx Kreflect Kextend Kcontract) n s log)
    as (s' & log' & Hrun & Hinv).
  - split; [exact Hwf |]. split; [reflexivity |]. split; [lia | exact HJ].
  - intros k s1 w1 Hk (Hwf1 & HN1 & Hn1 & HJ1).
    destruct (take_a_step_ok f g f_total s1 Kreflect Kextend Kcontract w1 Hwf1)
      as (s2 & w2 & Hstep & Hwf2 & HN2 & Hn2).
    exists s2, w2. split; [exact Hstep |].
    split; [exact Hwf2 |]. split; [congruence |]. split; [lia |].
    apply (J_step s1 w1 s2 w2); try assumption. lia.
  - exists s', log'. split; [exact Hrun | exact Hinv].
Qed.

(** The loop ends within [n] rounds when at most [n] evaluations remain in
    the budget, and what it returns does not depend on the fuel left over. *)
Lemma minimize_loop_ok n :
  forall converged best smplx (log : calls),
    well_formed smplx -> 1 <= N smplx -> J smplx ->
    Z.to_nat (maxfe - Z.of_nat (nfe smplx)) <= n ->
    (forall xb fb, best = Some (xb, fb) -> Q fb) ->
    (best = None -> converged = false /\ (Z.of_nat (nfe smplx) < maxfe)%Z) ->
    exists x_best f_best c n_evals n_restarts log',
      Q f_best /\
      forall fuel, n <= fuel ->
        minimize_loop f fuel tol maxfe n_check delta Kreflect Kextend Kcontract
          converged best smplx log
        = (Ok (x_best, f_best, c, n_evals, n_restarts), log').
Proof.
  induction n as [| n IH]; intros converged best smplx log Hwf HN HJ Hn HQ Hbest.
  - (* nothing left in the budget *)
    assert (Hcond : negb converged && (Z.of_nat (nfe smplx) <? maxfe)%Z = false).
    { apply andb_false_iff. right. apply Z.ltb_ge. lia. }
    destruct best as [[xb fb] |].
    + exists xb, fb, converged, (nfe smplx), (nrestarts smplx), log.
      split; [apply (HQ xb fb); reflexivity |].
      intros fuel _. destruct fuel; cbn [minimize_loop]; rewrite Hcond; reflexivity.
    + destruct Hbest as [_ Hlt]; [reflexivity | lia].
  - destruct (negb converged && (Z.of_nat (nfe smplx) <? maxfe)%Z) eqn:Hcond.
    + apply andb_true_iff in Hcond as Hc. destruct Hc as [Hconv Hlt].
      apply Z.ltb_lt in Hlt.
      destruct (take_steps_keep (Z.to_nat n_check) smplx log Hwf HN HJ)
        as (s1 & w1 & Hsteps & Hwf1 & HN1 & Hn1 & HJ1).
      destruct (lowest_ok s1 w1 (wf_values s1 Hwf1)) as (i_best & f_best & Hlow & Hfb & _).
      assert (Hib : i_best < N s1 + 1).
      { rewrite <- (wf_values s1 Hwf1). apply lookup_lt_Some with f_best. exact Hfb. }
      destruct (wf_vertex_lookup s1 i_best Hwf1 Hib) as (x_best & Hxb & _).
      pose proof (f_statistics_ok s1 w1 (wf_values s1 Hwf1) ltac:(lia)) as Hstats.
      pose proof (J_best s1 w1 i_best f_best Hwf1 HJ1 Hlow Hfb) as HQb.
      set (stddev := sqrt (div (sum_sq (mean_of s1) (f_list s1)) (of_nat (N s1)))) in Hstats.
      (* the simplex the next round starts from, and how it is reached *)
      assert (Hnext : exists c' s2 w2,
                well_formed s2 /\ 1 <= N s2 /\ J s2 /\ nfe smplx + 2 <= nfe s2 /\
                forall fuel,
                  minimize_loop f (S fuel) tol maxfe n_check delta Kreflect Kextend Kcontract
                    converged best smplx log
                  = minimize_loop f fuel tol maxfe n_check delta Kreflect Kextend Kcontract
                      c' (Some (x_best, f_best)) s2 w2).
      { destruct (ltb stddev tol) eqn:Htol.
        - pose proof (test_for_minimum_ok f g f_total s1 i_best x_best f_best delta w1
                        Hwf1 Hxb Hfb) as Htest.
          cbv zeta in Htest.
          set (r := probed g f_best (probes x_best (dx s1) delta (seq 0 (N s1)))) in Htest.
          set (s1' := with_nfe s1 (nfe s1 + length r.1)) in Htest.
          assert (Hwf1' : well_formed s1') by (apply wf_with_nfe; exact Hwf1).
          destruct (r.2) eqn:Hr.
          + exists true, s1', (w1 ++ r.1).
            split; [exact Hwf1' |]. split; [simpl; lia |].
            split; [apply J_nfe; exact HJ1 |]. split; [simpl; lia |].
            intros fuel. cbn [minimize_loop]. rewrite Hcond.
            rewrite (bind_ok _ _ _ _ _ Hsteps), (bind_ok _ _ _ _ _ Hlow).
            unfold get_vertex.
            rewrite (bind_ok _ _ _ _ _ (py_get_ok _ _ _ _ Hxb)).
            rewrite (bind_ok _ _ _ _ _ (py_get_ok _ _ _ _ Hfb)).
            rewrite (bind_ok _ _ _ _ _ Hstats). cbn [snd]. fold stddev. rewrite Htol.
            rewrite (bind_ok _ _ _ _ _ Htest). cbn [fst snd negb]. reflexivity.
          + destruct (rescale_ok f g f_total s1' delta (w1 ++ r.1) Hwf1')
              as (i_min & x & f_min & _ & _ & _ & Hxl & Hres).
            eexists false, _, _.
            split; [exact (wf_rescaled g s1' delta x f_min Hwf1' Hxl) |].
            split; [simpl; lia |].
            split.
            { eapply (J_rescale s1');
                [exact Hwf1' | simpl; lia | apply J_nfe; exact HJ1 | exact Hres]. }
            split; [simpl; lia |].
            intros fuel. cbn [minimize_loop]. rewrite Hcond.
            rewrite (bind_ok _ _ _ _ _ Hsteps), (bind_ok _ _ _ _ _ Hlow).
            unfold get_vertex.
            rewrite (bind_ok _ _ _ _ _ (py_get_ok _ _ _ _ Hxb)).
            rewrite (bind_ok _ _ _ _ _ (py_get_ok _ _ _ _ Hfb)).
            rewrite (bind_ok _ _ _ _ _ Hstats). cbn [snd]. fold stddev. rewrite Htol.
            rewrite (bind_ok _ _ _ _ _ Htest). cbn [fst snd negb].
            rewrite (bind_ok _ _ _ _ _ Hres). reflexivity.
        - exists converged, s1, w1.
          split; [exact Hwf1 |]. split; [lia |]. split; [exact HJ1 |]. split; [lia |].
          intros fuel. cbn [minimize_loop]. rewrite Hcond.
          rewrite (bind_ok _ _ _ _ _ Hsteps), (bind_ok _ _ _ _ _ Hlow).
          unfold get_vertex.
          rewrite (bind_ok _ _ _ _ _ (py_get_ok _ _ _ _ Hxb)).
          rewrite (bind_ok _ _ _ _ _ (py_get_ok _ _ _ _ Hfb)).
          rewrite (bind_ok _ _ _ _ _ Hstats). cbn [snd]. fold stddev. rewrite Htol.
          reflexivity. }
      destruct Hnext as (c' & s2 & w2 & Hwf2 & HN2 & HJ2 & Hn2 & Hunfold).
      destruct (IH c' (Some (x_best, f_best)) s2 w2 Hwf2 HN2 HJ2)
        as (xb & fb & c & ne & nr & log' & HQf & Hrun).
      * lia.
      * intros xb fb [= <- <-]. exact HQb.
      * discriminate.
      * exists xb, fb, c, ne, nr, log'. split; [exact HQf |].
        intros fuel Hfuel. destruct fuel as [| fuel]; [lia |].
        rewrite Hunfold. apply Hrun. lia.
    + destruct best as [[xb fb] |].
      * exists xb, fb, converged, (nfe smplx), (nrestarts smplx), log.
        split; [apply (HQ xb fb); reflexivity |].
        intros fuel _. destruct fuel; cbn [minimize_loop]; rewrite Hcond; reflexivity.
      * destruct Hbest as [-> Hlt]; [reflexivity |].
        apply Z.ltb_lt in Hlt. rewrite Hlt in Hcond. discriminate Hcond.
Qed.

End driver.

(** C2, as the code has it by design.  For an objective that never raises,
    a seed of [N >= 1] coordinates, steps of the same length (or the default
    ones), at least one step between convergence checks and a budget
    [maxfe > N+1], [minimize] returns its five results - best coordinates,
    best value, converged flag, evaluations, restarts - for every [tol] and
    [delta] and all three coefficients: the loop ends within [maxfe] rounds,
    and the results do not depend on the fuel beyond that. *)
Theorem minimize_terminates `{Scalar} (g : vec -> num) (x : vec) (dx0 : option vec)
    (tol : num) (maxfe n_check : Z) (delta Kreflect Kextend Kcontract : num)
    (log : calls) :
  1 <= length x ->
  match dx0 with Some d => length d = length x | None => True end ->
  (1 <= n_check)%Z ->
  (Z.of_nat (length x) + 1 < maxfe)%Z ->
  exists x_best f_best converged n_evals n_restarts log',
    forall fuel, Z.to_nat maxfe <= fuel ->
      minimize (total g) fuel x dx0 tol maxfe n_check delta Kreflect Kextend Kcontract log
      = (Ok (x_best, f_best, converged, n_evals, n_restarts), log').
Proof.
  intros Hx Hdx Hcheck Hbudget.
  set (d := match dx0 with None => repeat tenth (length x) | Some d => d end).
  assert (Hd : length x <= length d).
  { subst d. destruct dx0 as [d |]; [lia | rewrite repeat_length; lia]. }
  pose proof (NMSimplex_init_ok (total g) g (fun _ => eq_refl) x d log Hd) as Hinit.
  set (s0 := {| N := length x; vertex_list := simplex_about x d;
                f_list := map g (simplex_about x d); dx := d;
                nfe := length x + 1; nrestarts := 0 |}) in Hinit.
  assert (Hwf : well_formed s0).
  { split; subst s0; simpl_fields.
    - apply simplex_about_length.
    - rewrite length_map. apply simplex_about_length.
    - unfold simplex_about. apply Forall_cons. split; [reflexivity |].
      apply Forall_forall. intros v Hv.
      apply list_elem_of_fmap in Hv as (k & -> & _).
      unfold axis_step. repeat case_match; rewrite ?length_insert; reflexivity.
    - exact Hd. }
  destruct (minimize_loop_ok (total g) g (fun _ => eq_refl) tol maxfe n_check delta
              Kreflect Kextend Kcontract Hcheck (fun _ => True) (fun _ => True)
              ltac:(trivial) ltac:(trivial) ltac:(trivial) ltac:(trivial)
              (Z.to_nat maxfe) false None s0 (log ++ simplex_about x d) Hwf)
    as (xb & fb & c & ne & nr & log' & _ & Hrun).
  - exact Hx.
  - exact I.
  - lia.
  - discriminate.
  - intros _. split; [reflexivity |]. subst s0. simpl_fields. lia.
  - exists xb, fb, c, ne, nr, log'. intros fuel Hfuel.
    unfold minimize. fold d. rewrite (bind_ok _ _ _ _ _ Hinit).
    apply Hrun. exact Hfuel.
Qed.

Section driver_binary64.
Local Existing Instance float64.

Lemma minimize_terminates_witness :
  exists x_best f_best converged n_evals n_restarts log',
    forall fuel, 300 <= fuel ->
      minimize (total test_fun_1) fuel [0; 0; 0]%float None 1e-6%float 300 20 0.001%float
        1%float 2%float 0.5%float []
      = (Ok (x_best, f_best, converged, n_evals, n_restarts), log').
Proof.
  apply (minimize_terminates (H := float64) test_fun_1 [0; 0; 0]%float None 1e-6%float
           300 20 0.001%float 1%float 2%float 0.5%float []).
  - simpl. lia.
  - exact I.
  - lia.
  - simpl. lia.
Defined.

(* With no step between the checks nothing is ever evaluated again, and the
   round ends where it started. *)
Lemma minimize_loop_without_steps fuel :
  forall best,
    fst (minimize_loop (total test_fun_1) fuel 1e-6%float 300 0 0.001%float
           1%float 2%float 0.5%float false best
           (Build_NMSimplex float64 (list float) 1 [[0]; [0.5]]%float
              [1; 0.25]%float [0.5]%float 2 0)
           [[0]; [0.5]]%float)
    = OutOfFuel.
Proof.
  induction fuel as [| fuel IH]; intros best.
  - reflexivity.
  - etransitivity; [| exact (IH (Some ([0.5]%float, 0.25%float)))]. reflexivity.
Qed.

(** C2 as stated fails by design in two ways.  With [n_check = 0] no step
    is taken between the checks, [nfe] stays where it is and the loop never
    ends, whatever the fuel.  With an empty seed ([N = 0]) the statistics
    divide by zero. *)
Lemma minimize_never_returns_counterexample :
  (forall fuel,
     fst (minimize (total test_fun_1) fuel [0]%float (Some [0.5]%float) 1e-6%float 300 0
            0.001%float 1%float 2%float 0.5%float [])
     = OutOfFuel) /\
  fst (minimize (total test_fun_1) 10 []%float None 1e-6%float 300 20 0.001%float
         1%float 2%float 0.5%float [])
  = Raise ZeroDivisionError.
Proof.
  split; [| vm_compute; reflexivity].
  intros fuel. unfold minimize. cbv beta iota zeta.
  assert (Hinit : NMSimplex_init (total test_fun_1) [0]%float [0.5]%float []
                  = (Ok (Build_NMSimplex float64 (list float) 1 [[0]; [0.5]]%float
                           [1; 0.25]%float [0.5]%float 2 0),
                     [[0]; [0.5]]%float))
    by (vm_compute; reflexivity).
  rewrite (bind_ok _ _ _ _ _ Hinit).
  apply minimize_loop_without_steps.
Qed.

(* The budget already spent by the constructor: the loop body never runs and
   the [return] reads [x_best] before any assignment. *)
Lemma minimize_budget_spent_by_constructor :
  forall fuel,
    minimize (total test_fun_1) fuel [0]%float (Some [0.5]%float) 1e-6%float 2 20
      0.001%float 1%float 2%float 0.5%float []
    = (Raise UnboundLocalError, [[0]; [0.5]]%float).
Proof.
  intros fuel. destruct fuel; reflexivity.
Qed.

End driver_binary64.

(** ** The best cached value *)

Section order_facts.
Context `{Scalar} (valid : num -> Prop) `{!StrictWeakOrder valid}.

Lemma ltb_irrefl a : valid a -> ltb a a = false.
Proof.
  intros Ha. destruct (ltb a a) eqn:Haa; [| reflexivity].
  pose proof (ltb_asym a a Ha Ha Haa). congruence.
Qed.

Lemma ltb_trans a b c :
  valid a -> valid b -> valid c -> ltb a b = true -> ltb b c = true -> ltb a c = true.
Proof.
  intros Ha Hb Hc Hab Hbc.
  destruct (ltb_cotrans a c b Ha Hc Hb Hab) as [Hac | Hcb]; [exact Hac |].
  rewrite (ltb_asym b c Hb Hc Hbc) in Hcb. discriminate Hcb.
Qed.

(** [c <= b] and [b <= a] give [c <= a]. *)
Lemma not_above_trans a b c :
  valid a -> valid b -> valid c -> ltb a b = false -> ltb b c = false -> ltb a c = false.
Proof.
  intros Ha Hb Hc Hab Hbc. destruct (ltb a c) eqn:Hac; [| reflexivity].
  destruct (ltb_cotrans a b c Ha Hb Hc Hac) as [H1 | H1]; congruence.
Qed.

Lemma ordered_on_valid l : Forall valid l -> ordered_on l.
Proof.
  intros Hl. pose proof (proj1 (Forall_forall _ _) Hl) as Hin. split.
  - intros a Ha. apply ltb_irrefl. auto.
  - intros a b c Ha Hb Hc. apply ltb_trans; auto.
Qed.

Lemma no_worse_refl l : Forall valid l -> no_worse l l.
Proof.
  intros Hl z Hz. exists z. split; [exact Hz |].
  apply ltb_irrefl. exact (proj1 (Forall_forall _ _) Hl z Hz).
Qed.

Lemma no_worse_trans l2 l1 l0 :
  Forall valid l0 -> Forall valid l1 -> Forall valid l2 ->
  no_worse l1 l0 -> no_worse l2 l1 -> no_worse l2 l0.
Proof.
  intros H0 H1 H2 H10 H21 z Hz.
  destruct (H10 z Hz) as (z1 & Hz1 & Hle1).
  destruct (H21 z1 Hz1) as (z2 & Hz2 & Hle2).
  exists z2. split; [exact Hz2 |].
  apply (not_above_trans z z1 z2); try assumption.
  - exact (proj1 (Forall_forall _ _) H0 z Hz).
  - exact (proj1 (Forall_forall _ _) H1 z1 Hz1).
  - exact (proj1 (Forall_forall _ _) H2 z2 Hz2).
Qed.

(** Where the new values are no worse, the least value has not gone up. *)
Lemma least_value_no_worse l' l y y' :
  Forall valid l -> Forall valid l' -> no_worse l' l ->
  least_value l y -> least_value l' y' -> ltb y y' = false.
Proof.
  intros Hl Hl' Hnw [Hy _] [Hy' Hleast'].
  destruct (Hnw y Hy) as (z' & Hz' & Hle).
  apply (not_above_trans y z' y'); try assumption.
  - exact (proj1 (Forall_forall _ _) Hl y Hy).
  - exact (proj1 (Forall_forall _ _) Hl' z' Hz').
  - exact (proj1 (Forall_forall _ _) Hl' y' Hy').
  - apply Hleast'. exact Hz'.
Qed.

(** Overwriting a slot that holds a greatest value, when there is another
    slot. *)
Lemma no_worse_insert_highest l i_high f_high v :
  Forall valid l -> 2 <= length l ->
  l !! i_high = Some f_high ->
  (forall j fj, l !! j = Some fj -> ltb f_high fj = false) ->
  no_worse (<[i_high := v]> l) l.
Proof.
  intros Hl Hlen Hhigh Hmost z Hz.
  apply list_elem_of_lookup in Hz as (j & Hj).
  destruct (decide (j = i_high)) as [-> | Hne].
  - rewrite Hhigh in Hj. injection Hj as <-.
    (* another slot survives, and it is not above the greatest value *)
    set (k := if decide (i_high = 0) then 1 else 0).
    assert (Hk : k <> i_high) by (subst k; destruct (decide (i_high = 0)); lia).
    destruct (lookup_lt_is_Some_2 l k) as [fk Hfk].
    { subst k. destruct (decide (i_high = 0)); lia. }
    exists fk. split.
    + apply list_elem_of_lookup. exists k.
      rewrite list_lookup_insert_ne by lia. exact Hfk.
    + exact (Hmost k fk Hfk).
  - exists z. split.
    + apply list_elem_of_lookup. exists j.
      rewrite list_lookup_insert_ne by lia. exact Hj.
    + apply ltb_irrefl. apply (proj1 (Forall_lookup _ _) Hl j z Hj).
Qed.

(** Keeping a slot that holds a least value. *)
Lemma no_worse_keep_lowest l' l i f_low :
  l' !! i = Some f_low ->
  (forall j fj, l !! j = Some fj -> ltb fj f_low = false) ->
  no_worse l' l.
Proof.
  intros Hkeep Hleast z Hz.
  apply list_elem_of_lookup in Hz as (j & Hj).
  exists f_low. split.
  - apply list_elem_of_lookup. exists i. exact Hkeep.
  - exact (Hleast j z Hj).
Qed.

End order_facts.

Section monotone.
Context `{Scalar} (valid : num -> Prop) `{!StrictWeakOrder valid}.
Variable f : vec -> option num.
Variable g : vec -> num.
Hypothesis f_total : forall p, f p = Some (g p).
Hypothesis g_valid : forall p, valid (g p).
Implicit Type self s smplx : NMSimplex vec.

Lemma contract_about_one_point_keeps s i_con p_con y_con (log : calls) s' log' :
  well_formed s ->
  vertex_list s !! i_con = Some p_con -> f_list s !! i_con = Some y_con ->
  Forall valid (f_list s) ->
  contract_about_one_point f s i_con log = (Ok s', log') ->
  vertex_list s' !! i_con = Some p_con /\ f_list s' !! i_con = Some y_con /\
  Forall valid (f_list s') /\
  (least_value (f_list s) y_con -> no_worse (f_list s') (f_list s)).
Proof.
  intros Hwf Hp Hy Hval Hrun.
  destruct (contract_about_one_point_ok f g f_total s i_con p_con log Hwf Hp)
    as (s1 & Hc & Hwf1 & HN1 & _ & _ & _ & Hvl & Hfl).
  rewrite Hc in Hrun. injection Hrun as <- <-.
  pose proof (Hvl i_con p_con Hp) as Hp'. rewrite decide_True in Hp' by reflexivity.
  pose proof (Hfl i_con p_con y_con Hp Hy) as Hy'. rewrite decide_True in Hy' by reflexivity.
  split; [exact Hp' |]. split; [exact Hy' |]. split.
  - apply Forall_lookup. intros i y' Hi.
    assert (Hlt : i < N s + 1).
    { rewrite <- HN1, <- (wf_values s1 Hwf1). apply lookup_lt_Some with y'. exact Hi. }
    destruct (wf_vertex_lookup s i Hwf Hlt) as (v & Hv & _).
    destruct (wf_value_lookup s i Hwf Hlt) as (y & Hyi).
    rewrite (Hfl i v y Hv Hyi) in Hi. injection Hi as <-.
    destruct (decide (i = i_con)); [| apply g_valid].
    exact (proj1 (Forall_lookup _ _) Hval i y Hyi).
  - intros [_ Hleast]. apply (no_worse_keep_lowest (f_list s1) (f_list s) i_con y_con Hy').
    intros j fj Hj. apply Hleast. apply list_elem_of_lookup. exists j. exact Hj.
Qed.

Lemma take_a_step_no_worse s Kreflect Kextend Kcontract (log : calls) s' log' :
  well_formed s -> 1 <= N s -> Forall valid (f_list s) ->
  take_a_step f s Kreflect Kextend Kcontract log = (Ok s', log') ->
  Forall valid (f_list s') /\ no_worse (f_list s') (f_list s).
Proof.
  intros Hwf HN Hval Hstep.
  destruct (take_a_step_run f g f_total s Kreflect Kextend Kcontract log Hwf)
    as (i_low & f_low & i_high & x_high & f_high & x_mid
        & Hlow & Hfl & Hhigh & Hxh & Hfh & Hext & Hmid & Hml & Hhl & Hrun).
  cbv zeta in Hrun. rewrite Hrun in Hstep. clear Hrun.
  specialize (Hext (ordered_on_valid valid _ Hval)).
  assert (Hrep : forall n x (l0 : calls),
            (Ok (replaced (with_nfe s n) i_high x (g x)), l0) = (Ok s', log') ->
            Forall valid (f_list s') /\ no_worse (f_list s') (f_list s)).
  { intros n x l0 Heq. injection Heq as <- <-. cbn [replaced with_nfe f_list]. split.
    - apply Forall_insert; [exact Hval | apply g_valid].
    - apply (no_worse_insert_highest valid _ i_high f_high); try assumption.
      + rewrite (wf_values s Hwf). lia.
      + intros j fj Hj. apply (Hext j fj Hj). }
  destruct (ltb _ _).
  - destruct (ltb _ _); exact (Hrep _ _ _ Hstep).
  - destruct (decide _); [| exact (Hrep _ _ _ Hstep)].
    destruct (ltb _ _); [exact (Hrep _ _ _ Hstep) |].
    assert (Hil : i_low < N s + 1).
    { rewrite <- (wf_values s Hwf). apply lookup_lt_Some with f_low. exact Hfl. }
    destruct (wf_vertex_lookup s i_low Hwf Hil) as (p_con & Hpc & _).
    destruct (contract_about_one_point_keeps (with_nfe s (nfe s + 3)) i_low p_con f_low
                _ s' log' (wf_with_nfe s _ Hwf) Hpc Hfl Hval Hstep)
      as (_ & _ & Hval' & Hnw).
    split; [exact Hval' |]. apply Hnw. split.
    + apply list_elem_of_lookup. exists i_low. exact Hfl.
    + intros z Hz. apply list_elem_of_lookup in Hz as (j & Hj). apply (Hext j z Hj).
Qed.

Lemma rescale_no_worse s ratio (log : calls) s' log' :
  well_formed s -> Forall valid (f_list s) ->
  rescale f s ratio log = (Ok s', log') ->
  Forall valid (f_list s') /\ no_worse (f_list s') (f_list s) /\
  exists i_min x f_min,
    lowest s (-1) log = (Ok i_min, log) /\
    vertex_list s !! i_min = Some x /\ f_list s !! i_min = Some f_min /\
    vertex_list s' !! 0 = Some x /\ f_list s' !! 0 = Some f_min.
Proof.
  intros Hwf Hval Hrun.
  destruct (rescale_ok f g f_total s ratio log Hwf)
    as (i_min & x & f_min & Hlow & Hx & Hfm & Hxl & Hres).
  rewrite Hres in Hrun. injection Hrun as <- <-.
  destruct (lowest_ok s log (wf_values s Hwf)) as (i & y & Hlow' & Hy & Hleast).
  rewrite Hlow in Hlow'. injection Hlow' as <-.
  rewrite Hfm in Hy. injection Hy as <-.
  specialize (Hleast (ordered_on_valid valid _ Hval)).
  cbn [rescaled f_list vertex_list].
  split; [| split].
  - apply Forall_cons. split.
    + exact (proj1 (Forall_lookup _ _) Hval i_min f_min Hfm).
    + apply Forall_forall. intros z Hz.
      apply list_elem_of_fmap in Hz as (p & -> & _). apply g_valid.
  - apply (no_worse_keep_lowest _ (f_list s) 0 f_min); [reflexivity | exact Hleast].
  - exists i_min, x, f_min. repeat split; assumption.
Qed.

End monotone.

(** C9, as the code has it.  Where [<] is a strict weak order on the values
    the objective returns, on a well-formed simplex with [N >= 1] whose
    cached values are such values: [take_a_step] returns a simplex whose
    least cached value is not above the least cached value before;
    [contract_about_one_point(i_con)] leaves slot [i_con] - vertex and
    value - as it was, so it does not raise the least value when that slot
    holds a least value (as in [take_a_step], its only caller; about another
    slot it can); [rescale] puts the best vertex with its cached value in
    slot 0 and does not raise the least value; and the best value
    [minimize] returns is not above the value at any vertex of the initial
    simplex. *)
Theorem best_cached_value_never_increases `{Scalar} (valid : num -> Prop)
    `{!StrictWeakOrder valid} (g : vec -> num) :
  (forall p, valid (g p)) ->
  (forall s Kreflect Kextend Kcontract (log : calls),
     well_formed s -> 1 <= N s -> Forall valid (f_list s) ->
     exists s' log',
       take_a_step (total g) s Kreflect Kextend Kcontract log = (Ok s', log') /\
       forall y y', least_value (f_list s) y -> least_value (f_list s') y' ->
         ltb y y' = false) /\
  (forall s i_con p_con y_con (log : calls),
     well_formed s -> Forall valid (f_list s) ->
     vertex_list s !! i_con = Some p_con -> f_list s !! i_con = Some y_con ->
     exists s' log',
       contract_about_one_point (total g) s i_con log = (Ok s', log') /\
       vertex_list s' !! i_con = Some p_con /\ f_list s' !! i_con = Some y_con /\
       (least_value (f_list s) y_con ->
        forall y y', least_value (f_list s) y -> least_value (f_list s') y' ->
          ltb y y' = false)) /\
  (forall s ratio (log : calls),
     well_formed s -> Forall valid (f_list s) ->
     exists s' log' i_min x f_min,
       rescale (total g) s ratio log = (Ok s', log') /\
       lowest s (-1) log = (Ok i_min, log) /\
       vertex_list s !! i_min = Some x /\ f_list s !! i_min = Some f_min /\
       vertex_list s' !! 0 = Some x /\ f_list s' !! 0 = Some f_min /\
       forall y y', least_value (f_list s) y -> least_value (f_list s') y' ->
         ltb y y' = false) /\
  (forall x d tol maxfe n_check delta Kreflect Kextend Kcontract (log : calls),
     1 <= length x -> length d = length x ->
     (1 <= n_check)%Z -> (Z.of_nat (length x) + 1 < maxfe)%Z ->
     exists x_best f_best converged n_evals n_restarts log',
       (forall fuel, Z.to_nat maxfe <= fuel ->
          minimize (total g) fuel x (Some d) tol maxfe n_check delta
            Kreflect Kextend Kcontract log
          = (Ok (x_best, f_best, converged, n_evals, n_restarts), log')) /\
       forall v, v ∈ simplex_about x d -> ltb (g v) f_best = false).
Proof.
  intros g_valid.
  assert (f_total : forall p, total g p = Some (g p)) by reflexivity.
  split; [| split; [| split]].
  - intros s Kreflect Kextend Kcontract log Hwf HN Hval.
    destruct (take_a_step_ok (total g) g f_total s Kreflect Kextend Kcontract log Hwf)
      as (s' & log' & Hstep & _).
    exists s', log'. split; [exact Hstep |].
    destruct (take_a_step_no_worse valid (total g) g f_total g_valid s _ _ _ log s' log'
                Hwf HN Hval Hstep) as [Hval' Hnw].
    intros y y'. apply (least_value_no_worse valid); assumption.
  - intros s i_con p_con y_con log Hwf Hval Hp Hy.
    destruct (contract_about_one_point_ok (total g) g f_total s i_con p_con log Hwf Hp)
      as (s' & Hc & _).
    exists s'. eexists. split; [exact Hc |].
    destruct (contract_about_one_point_keeps valid (total g) g f_total g_valid s i_con
                p_con y_con log s' _ Hwf Hp Hy Hval Hc) as (Hp' & Hy' & Hval' & Hnw).
    split; [exact Hp' |]. split; [exact Hy' |].
    intros Hleast y y'. apply (least_value_no_worse valid); auto.
  - intros s ratio log Hwf Hval.
    destruct (rescale_ok (total g) g f_total s ratio log Hwf)
      as (i & x0 & f0 & _ & _ & _ & _ & Hres).
    destruct (rescale_no_worse valid (total g) g f_total g_valid s ratio log _ _
                Hwf Hval Hres)
      as (Hval' & Hnw & i_min & x & f_min & Hlow & Hx & Hf & Hx' & Hf').
    eexists _, _, i_min, x, f_min. split; [exact Hres |].
    repeat (split; [assumption |]).
    intros y y'. apply (least_value_no_worse valid); assumption.
  - intros x d tol maxfe n_check delta Kreflect Kextend Kcontract log Hx Hd Hcheck Hbudget.
    pose proof (NMSimplex_init_ok (total g) g f_total x d log ltac:(lia)) as Hinit.
    set (l0 := map g (simplex_about x d)) in *.
    set (s0 := {| N := length x; vertex_list := simplex_about x d; f_list := l0;
                  dx := d; nfe := length x + 1; nrestarts := 0 |}) in Hinit.
    assert (Hl0 : Forall valid l0).
    { apply Forall_forall. intros z Hz.
      apply list_elem_of_fmap in Hz as (p & -> & _). apply g_valid. }
    assert (Hwf : well_formed s0).
    { split; subst s0 l0; simpl_fields.
      - apply simplex_about_length.
      - rewrite length_map. apply simplex_about_length.
      - unfold simplex_about. apply Forall_cons. split; [reflexivity |].
        apply Forall_forall. intros v Hv.
        apply list_elem_of_fmap in Hv as (k & -> & _).
        unfold axis_step. repeat case_match; rewrite ?length_insert; reflexivity.
      - lia. }
    destruct (minimize_loop_ok (total g) g f_total tol maxfe n_check delta
                Kreflect Kextend Kcontract Hcheck
                (fun s => Forall valid (f_list s) /\ no_worse (f_list s) l0)
                (fun fb => forall z, z ∈ l0 -> ltb z fb = false))
      with (n := Z.to_nat maxfe) (converged := false) (best := @None (vec * num))
           (smplx := s0) (log := log ++ simplex_about x d)
      as (xb & fb & c & ne & nr & log' & HQ & Hrun).
    + intros s w s' w' Hwfs HNs [Hvs Hnws] Hstep.
      destruct (take_a_step_no_worse valid (total g) g f_total g_valid s _ _ _ w s' w'
                  Hwfs HNs Hvs Hstep) as [Hval' Hnw].
      split; [exact Hval' |].
      apply (no_worse_trans valid _ (f_list s)); assumption.
    + intros s n HJ. exact HJ.
    + intros s w s' w' Hwfs HNs [Hvs Hnws] Hres.
      destruct (rescale_no_worse valid (total g) g f_total g_valid s delta w s' w'
                  Hwfs Hvs Hres) as (Hval' & Hnw & _).
      split; [exact Hval' |].
      apply (no_worse_trans valid _ (f_list s)); assumption.
    + intros s w i y Hwfs [Hvs Hnws] Hlow Hy z Hz.
      destruct (lowest_ok s w (wf_values s Hwfs)) as (i' & y' & Hlow' & Hy' & Hleast).
      rewrite Hlow in Hlow'. injection Hlow' as <-.
      rewrite Hy in Hy'. injection Hy' as <-.
      destruct (Hnws z Hz) as (z' & Hz' & Hle).
      apply (not_above_trans valid z z' y).
      * exact (proj1 (Forall_forall _ _) Hl0 z Hz).
      * exact (proj1 (Forall_forall _ _) Hvs z' Hz').
      * exact (proj1 (Forall_lookup _ _) Hvs i y Hy).
      * exact Hle.
      * apply list_elem_of_lookup in Hz' as (j & Hj).
        exact (Hleast (ordered_on_valid valid _ Hvs) j z' Hj).
    + exact Hwf.
    + exact Hx.
    + split; [exact Hl0 | apply (no_worse_refl valid); exact Hl0].
    + lia.
    + discriminate.
    + intros _. split; [reflexivity |]. subst s0. simpl_fields. lia.
    + exists xb, fb, c, ne, nr, log'. split.
      * intros fuel Hfuel. unfold minimize. rewrite (bind_ok _ _ _ _ _ Hinit).
        apply Hrun. exact Hfuel.
      * intros v Hv. apply HQ. subst l0. apply list_elem_of_fmap. exists v.
        split; [reflexivity | exact Hv].
Qed.

(** ** The order of binary64 numbers *)

Section binary64_order.

Ltac compare_cases :=
  repeat match goal with
    | |- context [Z.compare ?a ?b] => destruct (Z.compare_spec a b)
    | |- context [Pos.compare_cont Eq ?a ?b] =>
        change (Pos.compare_cont Eq a b) with (Pos.compare a b)
    | |- context [Pos.compare ?a ?b] => destruct (Pos.compare_spec a b)
    end.

Lemma SFltb_asym a b : SFltb a b = true -> SFltb b a = false.
Proof.
  unfold SFltb, SFcompare.
  destruct a as [[|] | [|] | | [|] m1 e1], b as [[|] | [|] | | [|] m2 e2];
    simpl; try discriminate; try reflexivity;
    compare_cases; simpl; try discriminate; try reflexivity; intros; try lia.
Qed.

Lemma SFltb_cotrans a b c :
  b <> S754_nan -> SFltb a c = true -> SFltb a b = true \/ SFltb b c = true.
Proof.
  unfold SFltb, SFcompare. intros Hb.
  destruct a as [[|] | [|] | | [|] m1 e1], c as [[|] | [|] | | [|] m3 e3];
    simpl; try discriminate;
    destruct b as [[|] | [|] | | [|] m2 e2]; simpl; try congruence; auto;
    compare_cases; simpl; try discriminate; auto; intros; try lia.
Qed.

Lemma not_nan_spec x : PrimFloat.is_nan x = false -> Prim2SF x <> S754_nan.
Proof.
  unfold PrimFloat.is_nan. rewrite FloatAxioms.eqb_spec. intros Hx Hnan.
  rewrite Hnan in Hx. discriminate Hx.
Qed.

(** On the binary64 numbers that are not NaN, [<] is a strict weak order. *)
Lemma float64_order :
  @StrictWeakOrder float64 (fun x => PrimFloat.is_nan x = false).
Proof.
  split; cbn [ltb float64 num].
  - intros a b _ _. rewrite !FloatAxioms.ltb_spec. apply SFltb_asym.
  - intros a b c _ Hb _. rewrite !FloatAxioms.ltb_spec. apply SFltb_cotrans.
    apply not_nan_spec. exact Hb.
Qed.

Lemma with_sentinel_valid g p : PrimFloat.is_nan (with_sentinel g p) = false.
Proof.
  unfold with_sentinel. destruct (PrimFloat.is_nan (g p)) eqn:Hnan.
  - reflexivity.
  - exact Hnan.
Qed.

End binary64_order.

Section best_value_binary64.
Local Existing Instance float64.

Lemma best_cached_value_never_increases_witness :
  exists x_best f_best converged n_evals n_restarts log',
    (forall fuel, 300 <= fuel ->
       minimize (total (with_sentinel (@test_fun_1 float64))) fuel [0; 0]%float (Some [0.5; 0.5]%float)
         1e-6%float 300 20 0.001%float 1%float 2%float 0.5%float []
       = (Ok (x_best, f_best, converged, n_evals, n_restarts), log')) /\
    forall v, v ∈ [[0; 0]; [0.5; 0]; [0; 0.5]]%float ->
      PrimFloat.ltb (with_sentinel (@test_fun_1 float64) v) f_best = false.
Proof.
  destruct (best_cached_value_never_increases (H := float64)
              (fun x => PrimFloat.is_nan x = false) (StrictWeakOrder0 := float64_order)
              (with_sentinel (@test_fun_1 float64)) (with_sentinel_valid (@test_fun_1 float64)))
    as (_ & _ & _ & Hrun).
  apply (Hrun [0; 0]%float [0.5; 0.5]%float 1e-6%float 300%Z 20%Z 0.001%float
           1%float 2%float 0.5%float []).
  - simpl. lia.
  - reflexivity.
  - lia.
  - simpl. lia.
Defined.

(** C9 as stated fails for [contract_about_one_point] on its own: about the
    worst slot it moves the best vertex.  On the simplex [1], [3] with the
    values 0 and 4, contracting about slot 1 replaces the best vertex by the
    midpoint [2] with the value 1: the least cached value rises from 0 to 1. *)
Lemma contract_about_worst_slot_counterexample :
  let s := Build_NMSimplex float64 (list float) 1 [[1]; [3]]%float [0; 4]%float
             [2]%float 2 0 in
  let s' := Build_NMSimplex float64 (list float) 1 [[2]; [3]]%float [1; 4]%float
              [2]%float 3 0 in
  NMSimplex_init (total test_fun_1) [1]%float [2]%float [] = (Ok s, [[1]; [3]]%float) /\
  contract_about_one_point (total test_fun_1) s 1 [] = (Ok s', [[2]]%float) /\
  least_value (f_list s) 0%float /\ least_value (f_list s') 1%float /\
  PrimFloat.ltb 0 1 = true.
Proof.
  split; [vm_compute; reflexivity |].
  split; [vm_compute; reflexivity |].
  split; [| split; [| reflexivity]].
  - split; [left |]. intros z Hz.
    repeat (apply elem_of_cons in Hz as [-> | Hz]; [reflexivity |]). inversion Hz.
  - split; [left |]. intros z Hz.
    repeat (apply elem_of_cons in Hz as [-> | Hz]; [reflexivity |]). inversion Hz.
Qed.

End best_value_binary64.

(** ** The reference model: what a run may overwrite *)

Section frame.
Context `{Scalar}.
Variable f : vec -> option num.

(** The number of array objects that existed before the run: the caller's. *)
Variable base : nat.

Lemma framed_ret {A} (a : A) (Q : A -> Prop) : Q a -> framed base (ret a) Q.
Proof.
  intros HQ h Hh. simpl. split; [lia |]. split; [reflexivity |].
  intros a' [= <-]. exact HQ.
Qed.

Lemma framed_raise {A} e (Q : A -> Prop) : framed base (raise e) Q.
Proof.
  intros h Hh. simpl. split; [lia |]. split; [reflexivity |]. intros a' [=].
Qed.

Lemma framed_bind {A B} (m : M Ref.store A) (k : A -> M Ref.store B) Q1 Q :
  framed base m Q1 -> (forall a, Q1 a -> framed base (k a) Q) -> framed base (bind m k) Q.
Proof.
  intros Hm Hk h Hh. unfold bind.
  destruct (Hm h Hh) as (Hlen & Htake & HQ1).
  destruct (m h) as [[a | e |] h1]; simpl in *.
  - destruct (Hk a (HQ1 a eq_refl) h1 ltac:(lia)) as (Hlen2 & Htake2 & HQ).
    split; [lia |]. split; [congruence | exact HQ].
  - split; [exact Hlen |]. split; [exact Htake |]. intros a' [=].
  - split; [exact Hlen |]. split; [exact Htake |]. intros a' [=].
Qed.

Lemma framed_weaken {A} (m : M Ref.store A) (Q Q' : A -> Prop) :
  framed base m Q -> (forall a, Q a -> Q' a) -> framed base m Q'.
Proof.
  intros Hm HQ h Hh. destruct (Hm h Hh) as (Hlen & Htake & HQ1).
  split; [exact Hlen |]. split; [exact Htake |]. intros a Ha. apply HQ, HQ1, Ha.
Qed.

Lemma framed_for_in {A} (l : list nat) (body : nat -> A -> M Ref.store A) (Q : A -> Prop) :
  (forall i a, Q a -> framed base (body i a) Q) ->
  forall a, Q a -> framed base (for_in l body a) Q.
Proof.
  intros Hbody. induction l as [| i l IH]; intros a Ha; simpl.
  - apply framed_ret. exact Ha.
  - apply (framed_bind _ _ Q); [apply Hbody; exact Ha | exact IH].
Qed.

Lemma framed_quiet {A} (m : M Ref.store A) : quiet m -> framed base m (fun _ => True).
Proof.
  intros Hq h Hh. rewrite (Hq h). split; [lia |]. split; [reflexivity |]. trivial.
Qed.

Lemma framed_np_new v : framed base (Ref.np_new v) (fun l => base <= l).
Proof.
  intros h Hh. unfold Ref.np_new. simpl. rewrite length_app. simpl.
  split; [lia |]. split; [apply take_app_le; exact Hh |].
  intros a [= <-]. exact Hh.
Qed.

Lemma quiet_np_read l : quiet (Ref.np_read l).
Proof. intros h. unfold Ref.np_read. destruct (h !! l); reflexivity. Qed.

Lemma framed_np_write l v : base <= l -> framed base (Ref.np_write l v) (fun _ => True).
Proof.
  intros Hl h Hh. unfold Ref.np_write.
  destruct (decide (l < length h)); simpl.
  - rewrite length_insert. split; [lia |]. split; [| trivial].
    apply take_insert_ge. exact Hl.
  - split; [lia |]. split; [reflexivity | trivial].
Qed.

Lemma framed_np_copy l : framed base (Ref.np_copy l) (fun l' => base <= l').
Proof.
  unfold Ref.np_copy.
  apply (framed_bind _ _ (fun _ => True)); [apply framed_quiet, quiet_np_read |].
  intros v _. apply framed_np_new.
Qed.

Lemma quiet_np_item l j : quiet (Ref.np_item l j).
Proof.
  unfold Ref.np_item. apply quiet_bind; [apply quiet_np_read | intros v; apply quiet_py_get].
Qed.

Lemma quiet_call_ref p : quiet (Ref.call f p).
Proof.
  unfold Ref.call. apply quiet_bind; [apply quiet_np_read |].
  intros v. destruct (f v); [apply quiet_ret | apply quiet_raise].
Qed.

Lemma framed_np_item_iop_ref op p j d :
  base <= p -> framed base (Ref.np_item_iop_ref op p j d) (fun _ => True).
Proof.
  intros Hp. unfold Ref.np_item_iop_ref.
  apply (framed_bind _ _ (fun _ => True)); [apply framed_quiet, quiet_np_read |].
  intros v _.
  apply (framed_bind _ _ (fun _ => True)); [apply framed_quiet, quiet_np_item_iop |].
  intros v' _. apply framed_np_write. exact Hp.
Qed.

Local Hint Resolve quiet_np_read quiet_np_item quiet_call_ref : quiet.

(* A quiet operation at the head of a bind. *)
Ltac framed_quiet_step :=
  apply (framed_bind _ _ (fun _ => True));
  [apply framed_quiet; prove_quiet | intros ? _].

Implicit Type self smplx : NMSimplex Ref.loc.

Lemma framed_init x dx0 :
  framed base (Ref.NMSimplex_init f x dx0) (fun s => base <= dx s).
Proof.
  unfold Ref.NMSimplex_init. framed_quiet_step.
  apply (framed_bind _ _ (fun l => base <= l)); [apply framed_np_copy |].
  intros self_dx Hdx.
  apply (framed_for_in _ _ (fun s => base <= dx s)); [| exact Hdx].
  intros i self Hself.
  apply (framed_bind _ _ (fun l => base <= l)); [apply framed_np_copy |].
  intros p Hp.
  apply (framed_bind _ _ (fun _ => True)).
  { destruct (decide (1 <= i)); [| apply framed_ret; trivial].
    framed_quiet_step. apply framed_np_item_iop_ref. exact Hp. }
  intros _ _. framed_quiet_step. apply framed_ret. exact Hself.
Qed.

Lemma framed_get_vertex self i : framed base (Ref.get_vertex self i) (fun l => base <= l).
Proof. unfold Ref.get_vertex. framed_quiet_step. apply framed_np_copy. Qed.

Lemma framed_replace_vertex self i x y :
  base <= dx self -> framed base (Ref.replace_vertex self i x y) (fun s => base <= dx s).
Proof.
  intros Hself. unfold Ref.replace_vertex.
  apply (framed_bind _ _ (fun l => base <= l)); [apply framed_np_copy |].
  intros c _. do 2 framed_quiet_step. apply framed_ret. exact Hself.
Qed.

Lemma framed_centroid self exclude : framed base (Ref.centroid self exclude) (fun l => base <= l).
Proof.
  unfold Ref.centroid.
  apply (framed_bind _ _ (fun l => base <= l)); [apply framed_np_new |].
  intros xmid Hxmid.
  apply (framed_bind _ _ (fun _ => True)).
  { apply (framed_for_in _ _ (fun _ => True)); [| trivial].
    intros i [] _. destruct (decide (Z.of_nat i = exclude)); [apply framed_ret; trivial |].
    do 4 framed_quiet_step. apply framed_np_write. exact Hxmid. }
  intros _ _. framed_quiet_step.
  apply (framed_bind _ _ (fun _ => True)); [apply framed_np_write; exact Hxmid |].
  intros _ _. apply framed_ret. exact Hxmid.
Qed.

Lemma framed_np_combine op k1 a k2 b :
  framed base (Ref.np_combine op k1 a k2 b) (fun l => base <= l).
Proof. unfold Ref.np_combine. do 3 framed_quiet_step. apply framed_np_new. Qed.

Lemma framed_contract self i_con :
  base <= dx self ->
  framed base (Ref.contract_about_one_point f self i_con) (fun s => base <= dx s).
Proof.
  intros Hself. unfold Ref.contract_about_one_point. framed_quiet_step.
  apply (framed_for_in _ _ (fun s => base <= dx s)); [| exact Hself].
  intros i s Hs. destruct (decide (i = i_con)); [apply framed_ret; exact Hs |].
  framed_quiet_step.
  apply (framed_bind _ _ (fun l => base <= l)); [apply framed_np_combine |].
  intros p _. do 3 framed_quiet_step. apply framed_ret. exact Hs.
Qed.

Lemma framed_rescale self ratio :
  base <= dx self -> framed base (Ref.rescale f self ratio) (fun s => base <= dx s).
Proof.
  intros Hself. unfold Ref.rescale. do 2 framed_quiet_step.
  apply (framed_bind _ _ (fun _ => True)); [apply framed_np_write; exact Hself |].
  intros _ _.
  apply (framed_bind _ _ (fun l => base <= l)); [apply framed_get_vertex |].
  intros x _. framed_quiet_step.
  apply (framed_bind _ _ (fun s => base <= dx s)).
  { apply (framed_for_in _ _ (fun s => base <= dx s)); [| exact Hself].
    intros i s Hs.
    apply (framed_bind _ _ (fun l => base <= l)); [apply framed_np_copy |].
    intros p Hp. destruct (decide (i = 0)); [apply framed_ret; exact Hs |].
    framed_quiet_step.
    apply (framed_bind _ _ (fun _ => True)); [apply framed_np_item_iop_ref; exact Hp |].
    intros _ _. framed_quiet_step. apply framed_ret. exact Hs. }
  intros s Hs. apply framed_ret. exact Hs.
Qed.

Lemma framed_test_for_minimum_axes js :
  forall self i_min delta f_min,
    base <= dx self ->
    framed base (Ref.test_for_minimum_axes f js self i_min delta f_min)
      (fun r => base <= dx (snd r)).
Proof.
  induction js as [| j js IH]; intros self i_min delta f_min Hself;
    cbn [Ref.test_for_minimum_axes].
  - apply framed_ret. exact Hself.
  - apply (framed_bind _ _ (fun l => base <= l)); [apply framed_get_vertex |].
    intros p Hp. framed_quiet_step.
    apply (framed_bind _ _ (fun _ => True)); [apply framed_np_item_iop_ref; exact Hp |].
    intros _ _. framed_quiet_step.
    destruct (ltb _ f_min); [apply framed_ret; exact Hself |].
    framed_quiet_step.
    apply (framed_bind _ _ (fun _ => True)); [apply framed_np_item_iop_ref; exact Hp |].
    intros _ _. framed_quiet_step.
    destruct (ltb _ f_min); [apply framed_ret; exact Hself |].
    apply IH. exact Hself.
Qed.

Lemma framed_test_for_minimum self i_min delta :
  base <= dx self ->
  framed base (Ref.test_for_minimum f self i_min delta) (fun r => base <= dx (snd r)).
Proof.
  intros Hself. unfold Ref.test_for_minimum. framed_quiet_step.
  apply framed_test_for_minimum_axes. exact Hself.
Qed.

Lemma framed_take_a_step self Kreflect Kextend Kcontract :
  base <= dx self ->
  framed base (Ref.take_a_step f self Kreflect Kextend Kcontract) (fun s => base <= dx s).
Proof.
  intros Hself. unfold Ref.take_a_step. do 4 framed_quiet_step.
  apply (framed_bind _ _ (fun l => base <= l)); [apply framed_centroid |].
  intros x_mid _. framed_quiet_step.
  apply (framed_bind _ _ (fun l => base <= l)); [apply framed_np_combine |].
  intros x_refl _. framed_quiet_step.
  destruct (ltb _ _).
  - apply (framed_bind _ _ (fun l => base <= l)); [apply framed_np_combine |].
    intros x_ext _. framed_quiet_step.
    destruct (ltb _ _); apply framed_replace_vertex; exact Hself.
  - framed_quiet_step.
    destruct (decide _); [| apply framed_replace_vertex; exact Hself].
    apply (framed_bind _ _ (fun l => base <= l)); [apply framed_np_combine |].
    intros x_con _. framed_quiet_step.
    destruct (ltb _ _); [apply framed_replace_vertex | apply framed_contract]; exact Hself.
Qed.

Lemma framed_minimize_loop fuel tol maxfe n_check delta Kreflect Kextend Kcontract :
  forall converged best smplx,
    base <= dx smplx ->
    framed base (Ref.minimize_loop f fuel tol maxfe n_check delta Kreflect Kextend Kcontract
              converged best smplx) (fun _ => True).
Proof.
  induction fuel as [| fuel IH]; intros converged best smplx Hs;
    cbn [Ref.minimize_loop];
    destruct (negb converged && (Z.of_nat (nfe smplx) <? maxfe)%Z).
  - intros h Hh. simpl. split; [lia |]. split; [reflexivity |]. intros a [=].
  - destruct best as [[xb fb] |]; [apply framed_ret; trivial | apply framed_raise].
  - apply (framed_bind _ _ (fun s => base <= dx s)).
    { apply (framed_for_in _ _ (fun s => base <= dx s)); [| exact Hs].
      intros i s Hsi. apply framed_take_a_step. exact Hsi. }
    intros s1 Hs1. framed_quiet_step.
    apply (framed_bind _ _ (fun l => base <= l)); [apply framed_get_vertex |].
    intros v _.
    apply (framed_bind _ _ (fun l => base <= l)); [apply framed_np_copy |].
    intros x_best _. do 2 framed_quiet_step.
    cbv zeta. destruct (ltb _ tol); [| apply IH; exact Hs1].
    apply (framed_bind _ _ (fun r => base <= dx (snd r)));
      [apply framed_test_for_minimum; exact Hs1 |].
    intros [b s2] Hs2. cbn [fst snd] in *.
    destruct (negb b); [| apply IH; exact Hs2].
    apply (framed_bind _ _ (fun s => base <= dx s)); [apply framed_rescale; exact Hs2 |].
    intros s3 Hs3. apply IH. exact Hs3.
  - destruct best as [[xb fb] |]; [apply framed_ret; trivial | apply framed_raise].
Qed.

Lemma framed_minimize fuel x dx0 tol maxfe n_check delta Kreflect Kextend Kcontract :
  framed base (Ref.minimize f fuel x dx0 tol maxfe n_check delta Kreflect Kextend Kcontract)
    (fun _ => True).
Proof.
  unfold Ref.minimize. framed_quiet_step.
  apply (framed_bind _ _ (fun _ => True)).
  { destruct dx0 as [d |]; [apply framed_ret; trivial |].
    apply (framed_weaken _ (fun l => base <= l)); [apply framed_np_new | trivial]. }
  intros d _.
  apply (framed_bind _ _ (fun s => base <= dx s)); [apply framed_init |].
  intros s Hs. apply framed_minimize_loop. exact Hs.
Qed.

End frame.

(** C8.  Whatever the outcome of [minimize] - a result, an exception, or
    the loop still running when the fuel is spent - every array object that
    existed when it was called holds afterwards the elements it held at
    entry: the seed [x] and the step vector [dx] of the caller among them.
    The run only adds objects; [rescale] scales the simplex's own copy. *)
Theorem minimize_leaves_caller_arrays `{Scalar} (f : vec -> option num) (fuel : nat)
    (x : Ref.loc) (dx0 : option Ref.loc) (tol : num) (maxfe n_check : Z)
    (delta Kreflect Kextend Kcontract : num) (h : Ref.store) :
  let h' := snd (Ref.minimize f fuel x dx0 tol maxfe n_check delta
                   Kreflect Kextend Kcontract h) in
  length h <= length h' /\
  take (length h) h' = h /\
  forall l v, h !! l = Some v -> h' !! l = Some v.
Proof.
  intros h'.
  destruct (framed_minimize f (length h) fuel x dx0 tol maxfe n_check delta
              Kreflect Kextend Kcontract h (Nat.le_refl _)) as (Hlen & Htake & _).
  fold h' in Hlen, Htake. rewrite firstn_all in Htake.
  split; [exact Hlen |]. split; [exact Htake |].
  intros l v Hl. rewrite <- Htake in Hl.
  rewrite lookup_take_lt in Hl; [exact Hl |].
  apply lookup_lt_Some in Hl. rewrite length_take in Hl. lia.
Qed.

Section frame_binary64.
Local Existing Instance float64.

(* The first run of the module's self-test, the caller's arrays at locations
   0 and 1.  The run restarts four times; the caller's steps are still 0.1,
   the simplex's own steps, at location 2, are not. *)
Lemma minimize_scales_its_own_steps :
  let h := [[0; 0; 0]; [0.1; 0.1; 0.1]]%float in
  let r := Ref.minimize (total test_fun_1) 100 0 (Some 1) 1e-6%float 300 20 0.001%float
             1%float 2%float 0.5%float h in
  (exists x_best f_best, fst r = Ok (x_best, f_best, false, 361, 4)) /\
  snd r !! 0 = Some [0; 0; 0]%float /\
  snd r !! 1 = Some [0.1; 0.1; 0.1]%float /\
  exists d, snd r !! 2 = Some [d; d; d] /\ PrimFloat.ltb d 1e-12 = true.
Proof.
  intros h r. split; [eexists _, _; vm_compute; reflexivity |].
  split; [vm_compute; reflexivity |]. split; [vm_compute; reflexivity |].
  eexists. split; vm_compute; reflexivity.
Qed.

End frame_binary64.

(** ** The two models on the module's self-test *)

Section self_test.
Local Existing Instance float64.

(** On tests 1 and 2 of the self-test the reference model returns what the
    value model returns, the best vertex being read from the store. *)
Lemma models_agree_on_self_test :
  (let v := minimize (total test_fun_1) 100 [0; 0; 0]%float None 1e-6%float 300 20
              0.001%float 1%float 2%float 0.5%float [] in
   let r := Ref.minimize (total test_fun_1) 100 0 None 1e-6%float 300 20 0.001%float
              1%float 2%float 0.5%float [[0; 0; 0]]%float in
   exists x_best l_best f_best,
     fst v = Ok (x_best, f_best, false, 361, 4) /\
     fst r = Ok (l_best, f_best, false, 361, 4) /\
     snd r !! l_best = Some x_best) /\
  (let v := minimize test_fun_2 200 [0; 0]%float (Some [0.5; 0.5]%float) 1e-4%float 300 20
              0.001%float 1%float 2%float 0.5%float [] in
   let r := Ref.minimize test_fun_2 200 0 (Some 1) 1e-4%float 300 20 0.001%float
              1%float 2%float 0.5%float [[0; 0]; [0.5; 0.5]]%float in
   exists x_best l_best f_best,
     fst v = Ok (x_best, f_best, true, 127, 0) /\
     fst r = Ok (l_best, f_best, true, 127, 0) /\
     snd r !! l_best = Some x_best).
Proof.
  split; intros v r; eexists _, _, _;
    (split; [vm_compute; reflexivity |]);
    (split; [vm_compute; reflexivity |]); vm_compute; reflexivity.
Qed.

End self_test.

(** * Further properties of the code *)

(** ** Further properties: the extreme vertices *)

Section extreme.
Context `{Scalar} {array W : Type} (valid : num -> Prop).
Implicit Type self : NMSimplex array.

(** The scan shared by [lowest] and [highest], for a comparison [lt] that is
    a strict weak order on the cached values. *)
Variable lt : num -> num -> bool.
Hypothesis lt_asym : forall a b, valid a -> valid b -> lt a b = true -> lt b a = false.
Hypothesis lt_cotrans : forall a b c, valid a -> valid b -> valid c ->
  lt a c = true -> lt a b = true \/ lt b c = true.

Lemma scan_first_extreme self (exclude : Z) (indx : nat) (y0 : num) (w : W) :
  length (f_list self) = N self + 1 ->
  Forall valid (f_list self) ->
  f_list self !! indx = Some y0 ->
  Z.of_nat indx <> exclude ->
  (forall j, j < indx -> Z.of_nat j = exclude) ->
  exists i y,
    for_range (N self + 1)
      (fun i (st : num * nat) =>
         if decide (Z.of_nat i = exclude) then ret st
         else fi <- py_get (f_list self) i ;;
              if lt fi (fst st) then ret (fi, i) else ret st)
      (y0, indx) w = (Ok (y, i), w) /\
    f_list self !! i = Some y /\
    Z.of_nat i <> exclude /\
    (forall j fj, f_list self !! j = Some fj -> Z.of_nat j <> exclude -> lt fj y = false) /\
    (forall j fj, j < i -> Z.of_nat j <> exclude -> f_list self !! j = Some fj ->
       lt y fj = true).
Proof.
  intros Hlen Hval H0 Hex Hbefore.
  assert (Hv : forall j fj, f_list self !! j = Some fj -> valid fj).
  { intros j fj Hj. exact (proj1 (Forall_lookup _ _) Hval j fj Hj). }
  destruct (for_range_ok
    (fun i (st : num * nat) w' =>
       w' = w /\ f_list self !! snd st = Some (fst st) /\ Z.of_nat (snd st) <> exclude /\
       (forall j fj, j < i -> f_list self !! j = Some fj -> Z.of_nat j <> exclude ->
          lt fj (fst st) = false) /\
       (forall j fj, j < snd st -> Z.of_nat j <> exclude -> f_list self !! j = Some fj ->
          lt (fst st) fj = true))
    (fun i (st : num * nat) =>
         if decide (Z.of_nat i = exclude) then ret st
         else fi <- py_get (f_list self) i ;;
              if lt fi (fst st) then ret (fi, i) else ret st)
    (N self + 1) (y0, indx) w) as ([y i] & w' & Hrun & -> & Hi & Hne & Hleast & Hfirst).
  - cbn [fst snd]. split; [reflexivity |]. split; [exact H0 |]. split; [exact Hex |].
    split; [intros j fj Hj; lia |].
    intros j fj Hj Hne. apply Hbefore in Hj. contradiction.
  - intros i [m idx] w0 Hi (-> & Hm & Hne & Hleast & Hfirst). cbn [fst snd] in *.
    destruct (decide (Z.of_nat i = exclude)) as [He | He].
    + exists (m, idx), w. split; [reflexivity |]. cbn [fst snd].
      repeat (split; [assumption || reflexivity |]).
      split; [| exact Hfirst].
      intros j fj Hj Hfj Hjne. apply (Hleast j fj); [| assumption | assumption].
      destruct (decide (j = i)) as [-> | ?]; [contradiction | lia].
    + destruct (f_list self !! i) as [fi |] eqn:Hfi.
      2:{ apply lookup_ge_None_1 in Hfi. lia. }
      rewrite (bind_ok _ _ _ _ _ (py_get_ok _ _ _ _ Hfi)).
      pose proof (Hv _ _ Hfi) as Vfi. pose proof (Hv _ _ Hm) as Vm.
      destruct (lt fi m) eqn:Hlt.
      * exists (fi, i), w. split; [reflexivity |]. cbn [fst snd].
        split; [reflexivity |]. split; [exact Hfi |]. split; [exact He |]. split.
        -- intros j fj Hj Hfj Hjne. pose proof (Hv _ _ Hfj) as Vfj.
           destruct (decide (j = i)) as [-> | Hji].
           ++ rewrite Hfi in Hfj. injection Hfj as <-.
              destruct (lt fi fi) eqn:Hii; [| reflexivity].
              rewrite (lt_asym _ _ Vfi Vfi Hii) in Hii. discriminate.
           ++ destruct (lt fj fi) eqn:Hji'; [| reflexivity].
              destruct (lt_cotrans fj m fi Vfj Vm Vfi Hji') as [Hc | Hc].
              ** rewrite (Hleast j fj) in Hc; [discriminate | lia | assumption | assumption].
              ** rewrite (lt_asym _ _ Vfi Vm Hlt) in Hc. discriminate.
        -- intros j fj Hj Hjne Hfj. pose proof (Hv _ _ Hfj) as Vfj.
           destruct (lt_cotrans fi fj m Vfi Vfj Vm Hlt) as [Hc | Hc]; [exact Hc |].
           rewrite (Hleast j fj) in Hc; [discriminate | lia | assumption | assumption].
      * exists (m, idx), w. split; [reflexivity |]. cbn [fst snd].
        repeat (split; [assumption || reflexivity |]).
        split; [| exact Hfirst].
        intros j fj Hj Hfj Hjne.
        destruct (decide (j = i)) as [-> | Hji].
        -- rewrite Hfi in Hfj. injection Hfj as <-. exact Hlt.
        -- apply (Hleast j fj); [lia | assumption | assumption].
  - cbn [fst snd] in *. exists i, y. split; [exact Hrun |].
    split; [exact Hi |]. split; [exact Hne |]. split; [| exact Hfirst].
    intros j fj Hfj Hjne. apply (Hleast j fj); [| assumption | assumption].
    apply lookup_lt_Some in Hfj. lia.
Qed.

End extreme.

Section extreme_vertices.
Context `{Scalar} {array W : Type} (valid : num -> Prop) `{!StrictWeakOrder valid}.
Implicit Type self : NMSimplex array.

(** X1.  [lowest(exclude)], where [<] is a strict weak order on the cached values
    and the simplex has a vertex other than the excluded one: the call
    returns the first index, the excluded one apart, whose cached value has
    no other cached value strictly below it; every earlier index holds a
    strictly greater value.  The excluded index is never returned, and the
    world is left as it was. *)
Theorem lowest_first_least self (exclude : Z) (w : W) :
  length (f_list self) = N self + 1 ->
  Forall valid (f_list self) ->
  (exclude = 0%Z -> 1 <= N self) ->
  exists i y,
    lowest self exclude w = (Ok i, w) /\
    i <= N self /\ Z.of_nat i <> exclude /\
    f_list self !! i = Some y /\
    (forall j fj, f_list self !! j = Some fj -> Z.of_nat j <> exclude ->
       ltb fj y = false) /\
    (forall j fj, j < i -> Z.of_nat j <> exclude -> f_list self !! j = Some fj ->
       ltb y fj = true).
Proof.
  intros Hlen Hval HN. unfold lowest.
  set (indx := if decide (exclude = 0%Z) then 1 else 0).
  assert (Hindx : indx < length (f_list self)).
  { subst indx. destruct (decide (exclude = 0%Z)) as [He | He]; [specialize (HN He) |]; lia. }
  destruct (lookup_lt_is_Some_2 _ _ Hindx) as [y0 Hy0].
  rewrite (bind_ok _ _ _ _ _ (py_get_ok _ _ _ _ Hy0)).
  destruct (scan_first_extreme valid ltb ltb_asym ltb_cotrans self exclude indx y0 w
              Hlen Hval Hy0) as (i & y & Hrun & Hi & Hne & Hleast & Hfirst).
  - subst indx. destruct (decide (exclude = 0%Z)); lia.
  - subst indx. intros j Hj. destruct (decide (exclude = 0%Z)); lia.
  - rewrite (bind_ok _ _ _ _ _ Hrun). exists i, y. split; [reflexivity |].
    split; [apply lookup_lt_Some in Hi; lia |].
    repeat (split; [assumption |]). assumption.
Qed.

(** X2.  [highest(exclude)], under the same conditions: the first index, the
    excluded one apart, whose cached value has no other cached value strictly
    above it; every earlier index holds a strictly smaller value. *)
Theorem highest_first_greatest self (exclude : Z) (w : W) :
  length (f_list self) = N self + 1 ->
  Forall valid (f_list self) ->
  (exclude = 0%Z -> 1 <= N self) ->
  exists i y,
    highest self exclude w = (Ok i, w) /\
    i <= N self /\ Z.of_nat i <> exclude /\
    f_list self !! i = Some y /\
    (forall j fj, f_list self !! j = Some fj -> Z.of_nat j <> exclude ->
       ltb y fj = false) /\
    (forall j fj, j < i -> Z.of_nat j <> exclude -> f_list self !! j = Some fj ->
       ltb fj y = true).
Proof.
  intros Hlen Hval HN. unfold highest.
  set (indx := if decide (exclude = 0%Z) then 1 else 0).
  assert (Hindx : indx < length (f_list self)).
  { subst indx. destruct (decide (exclude = 0%Z)) as [He | He]; [specialize (HN He) |]; lia. }
  destruct (lookup_lt_is_Some_2 _ _ Hindx) as [y0 Hy0].
  rewrite (bind_ok _ _ _ _ _ (py_get_ok _ _ _ _ Hy0)).
  destruct (scan_first_extreme valid (fun a b => ltb b a)
              (fun a b Ha Hb => ltb_asym b a Hb Ha)
              (fun a b c Ha Hb Hc Hac =>
                 match ltb_cotrans c b a Hc Hb Ha Hac with
                 | or_introl Hcb => or_intror Hcb
                 | or_intror Hba => or_introl Hba
                 end)
              self exclude indx y0 w Hlen Hval Hy0)
    as (i & y & Hrun & Hi & Hne & Hleast & Hfirst).
  - subst indx. destruct (decide (exclude = 0%Z)); lia.
  - subst indx. intros j Hj. destruct (decide (exclude = 0%Z)); lia.
  - rewrite (bind_ok _ _ _ _ _ Hrun). exists i, y. split; [reflexivity |].
    split; [apply lookup_lt_Some in Hi; lia |].
    repeat (split; [assumption |]). assumption.
Qed.

(** X3.  On a simplex of dimension 0 there is no vertex but the excluded one:
    [lowest(0)] and [highest(0)] read [f_list[1]] and raise [IndexError]. *)
Theorem extreme_excluding_only_vertex self (w : W) :
  length (f_list self) = N self + 1 -> N self = 0 ->
  lowest self 0 w = (Raise IndexError, w) /\
  highest self 0 w = (Raise IndexError, w).
Proof.
  intros Hlen HN. unfold lowest, highest. cbn [decide].
  rewrite decide_True by reflexivity.
  unfold bind. rewrite !py_get_raise by lia. split; reflexivity.
Qed.

End extreme_vertices.

Section extreme_vertices_binary64.
Local Existing Instance float64.

Lemma lowest_first_least_witness :
  let s := Build_NMSimplex float64 (list float) 2 [[0; 0]; [1; 0]; [0; 1]]%float
             [3; 1; 1]%float [1; 1]%float 3 0 in
  lowest s (-1) ([] : calls) = (Ok 1, []) /\ lowest s 1 ([] : calls) = (Ok 2, []).
Proof.
  intros s.
  assert (Hval : Forall (fun x => PrimFloat.is_nan x = false) (f_list s)).
  { repeat constructor. }
  split.
  - destruct (lowest_first_least (H := float64) (fun x => PrimFloat.is_nan x = false)
                (StrictWeakOrder0 := float64_order) s (-1) ([] : calls))
      as (i & y & Hrun & _); [reflexivity | exact Hval | lia |].
    rewrite Hrun. revert Hrun. vm_compute. intros [= <-]. reflexivity.
  - vm_compute. reflexivity.
Defined.

Lemma highest_first_greatest_witness :
  let s := Build_NMSimplex float64 (list float) 2 [[0; 0]; [1; 0]; [0; 1]]%float
             [1; 3; 3]%float [1; 1]%float 3 0 in
  highest s (-1) ([] : calls) = (Ok 1, []).
Proof.
  intros s.
  assert (Hval : Forall (fun x => PrimFloat.is_nan x = false) (f_list s)).
  { repeat constructor. }
  destruct (highest_first_greatest (H := float64) (fun x => PrimFloat.is_nan x = false)
              (StrictWeakOrder0 := float64_order) s (-1) ([] : calls))
    as (i & y & Hrun & _); [reflexivity | exact Hval | lia |].
  rewrite Hrun. revert Hrun. vm_compute. intros [= <-]. reflexivity.
Defined.

Lemma extreme_excluding_only_vertex_witness :
  let s := Build_NMSimplex float64 (list float) 0 [[]] [1]%float [] 1 0 in
  lowest s 0 ([] : calls) = (Raise IndexError, []) /\
  highest s 0 ([] : calls) = (Raise IndexError, []).
Proof.
  intros s. apply (extreme_excluding_only_vertex (H := float64) s []); reflexivity.
Defined.

End extreme_vertices_binary64.

(** ** Further properties: a NaN among the cached values *)

Section nan_values.
Local Existing Instance float64.

Lemma nan_spec x : PrimFloat.is_nan x = true -> Prim2SF x = S754_nan.
Proof.
  unfold PrimFloat.is_nan. rewrite FloatAxioms.eqb_spec.
  unfold SFeqb, SFcompare.
  destruct (Prim2SF x) as [[|] | [|] | | [|] m e]; simpl; try discriminate; try reflexivity;
    rewrite ?Z.compare_refl, ?Pos.compare_cont_refl, ?Pos.compare_refl; simpl;
    try discriminate; rewrite ?Pos.compare_cont_refl, ?Pos.compare_refl; simpl; discriminate.
Qed.

Lemma ltb_nan x y :
  PrimFloat.is_nan y = true -> PrimFloat.ltb x y = false /\ PrimFloat.ltb y x = false.
Proof.
  intros Hy. rewrite !FloatAxioms.ltb_spec, (nan_spec y Hy).
  unfold SFltb, SFcompare. destruct (Prim2SF x) as [[|] | [|] | | [|] m e]; split; reflexivity.
Qed.

(** X4.  A NaN cached in slot 0 hides every other vertex.  Both comparisons with
    NaN are false, so neither scan ever moves off its starting slot:
    [lowest()] and [highest()] both return 0, whatever the other cached
    values are. *)
Theorem nan_in_slot_zero_is_lowest_and_highest {array W : Type}
    (s : @NMSimplex float64 array) (y : float) (w : W) :
  length (f_list s) = N s + 1 ->
  f_list s !! 0 = Some y ->
  PrimFloat.is_nan y = true ->
  lowest s (-1) w = (Ok 0, w) /\ highest s (-1) w = (Ok 0, w).
Proof.
  intros Hlen Hy Hnan.
  assert (Hscan : forall lt : float -> float -> bool,
            (forall a, lt a y = false) ->
            for_range (N s + 1)
              (fun i (st : float * nat) =>
                 if decide (Z.of_nat i = (-1)%Z) then ret st
                 else fi <- py_get (f_list s) i ;;
                      if lt fi (fst st) then ret (fi, i) else ret st)
              (y, 0) w = (Ok (y, 0), w)).
  { intros lt Hlt.
    destruct (for_range_ok
      (fun (i : nat) (st : float * nat) (w' : W) => st = (y, 0) /\ w' = w)
      (fun i (st : float * nat) =>
         if decide (Z.of_nat i = (-1)%Z) then ret st
         else fi <- py_get (f_list s) i ;;
              if lt fi (fst st) then ret (fi, i) else ret st)
      (N s + 1) (y, 0) w) as (st & w' & Hrun & -> & ->).
    - split; reflexivity.
    - intros i st w0 Hi [-> ->]. rewrite decide_False by lia.
      destruct (lookup_lt_is_Some_2 (f_list s) i) as [fi Hfi]; [lia |].
      rewrite (bind_ok _ _ _ _ _ (py_get_ok _ _ _ _ Hfi)). cbn [fst].
      rewrite Hlt. exists (y, 0), w. repeat split.
    - exact Hrun. }
  split.
  - unfold lowest. cbn [decide]. rewrite decide_False by lia.
    rewrite (bind_ok _ _ _ _ _ (py_get_ok _ _ _ _ Hy)).
    rewrite (bind_ok _ _ _ _ _ (Hscan (@ltb float64) (fun a => proj1 (ltb_nan a y Hnan)))).
    reflexivity.
  - unfold highest. rewrite decide_False by lia.
    rewrite (bind_ok _ _ _ _ _ (py_get_ok _ _ _ _ Hy)).
    rewrite (bind_ok _ _ _ _ _
               (Hscan (fun a b => @ltb float64 b a) (fun a => proj2 (ltb_nan a y Hnan)))).
    reflexivity.
Qed.

Lemma nan_in_slot_zero_is_lowest_and_highest_witness :
  let s := Build_NMSimplex float64 (list float) 2 [[0; 0]; [1; 0]; [0; 1]]%float
             [nan; 1; 5]%float [1; 1]%float 3 0 in
  lowest s (-1) ([] : calls) = (Ok 0, []) /\ highest s (-1) ([] : calls) = (Ok 0, []).
Proof.
  intros s.
  apply (nan_in_slot_zero_is_lowest_and_highest s nan ([] : calls)); reflexivity.
Defined.

End nan_values.

(** ** Further properties: the centroid *)

Section centroid_facts.
Context `{Scalar}.
Implicit Type s : NMSimplex vec.

Lemma kept_snoc {A} (exclude : Z) (l : list A) (x : A) :
  kept exclude (l ++ [x])
  = if decide (Z.of_nat (length l) = exclude) then kept exclude l
    else kept exclude l ++ [x].
Proof.
  unfold kept. destruct (decide (0 <= exclude)%Z) as [Hpos | Hneg].
  - rewrite delete_snoc.
    destruct (decide (Z.to_nat exclude = length l)) as [He | He],
             (decide (Z.of_nat (length l) = exclude)) as [He' | He']; try lia.
    + rewrite delete_out_of_range by lia. reflexivity.
    + reflexivity.
  - rewrite decide_False by lia. reflexivity.
Qed.

Lemma coordinate_snoc k (vs : list vec) (v : vec) c :
  v !! k = Some c -> coordinate k (vs ++ [v]) = coordinate k vs ++ [c].
Proof.
  intros Hc. unfold coordinate. rewrite omap_app. simpl. rewrite Hc. reflexivity.
Qed.

Lemma lookup_repeat {A} (x : A) n k : k < n -> repeat x n !! k = Some x.
Proof.
  revert k. induction n as [| n IH]; intros k Hk; [lia |].
  destruct k as [| k]; simpl; [reflexivity | apply IH; lia].
Qed.

Lemma centroid_sum {W} s (exclude : Z) (w : W) :
  well_formed s ->
  exists x_mid,
    centroid s exclude w = (Ok x_mid, w) /\ length x_mid = N s /\
    forall k, k < N s ->
      x_mid !! k
      = Some (div (fold_left add (coordinate k (kept exclude (vertex_list s))) zero)
                  (of_nat (N s))).
Proof.
  intros Hwf. unfold centroid.
  set (body := fun (i : nat) (xmid : vec) => _).
  destruct (for_range_ok
    (fun (i : nat) (xmid : vec) (w' : W) =>
       w' = w /\ length xmid = N s /\
       forall k, k < N s ->
         xmid !! k
         = Some (fold_left add (coordinate k (kept exclude (take i (vertex_list s)))) zero))
    body (N s + 1) (repeat zero (N s)) w) as (xm & w' & Hrun & -> & Hlen & Hsum).
  - split; [reflexivity |]. split; [apply repeat_length |].
    intros k Hk. rewrite take_0.
    replace (kept exclude (@nil vec)) with (@nil vec)
      by (unfold kept; destruct (decide _); reflexivity).
    simpl. apply lookup_repeat. exact Hk.
  - intros i xmid w1 Hi (-> & Hlen & Hsum).
    destruct (wf_vertex_lookup s i Hwf Hi) as (v & Hv & Hvlen).
    assert (Htake : length (take i (vertex_list s)) = i).
    { rewrite length_take, (wf_vertices s Hwf). lia. }
    subst body. cbv beta.
    destruct (decide (Z.of_nat i = exclude)) as [Heq | Hne].
    + eexists _, _. split; [reflexivity |]. split; [reflexivity |].
      split; [exact Hlen |].
      intros k Hk. rewrite (take_S_r _ _ _ Hv), kept_snoc, Htake.
      rewrite decide_True by exact Heq. apply Hsum. exact Hk.
    + rewrite (bind_ok _ _ _ _ _ (py_get_ok _ _ _ w Hv)).
      rewrite np_iop_same by lia.
      eexists _, _. split; [reflexivity |]. split; [reflexivity |].
      split; [apply zip_with_same_length; assumption |].
      intros k Hk. rewrite (take_S_r _ _ _ Hv), kept_snoc, Htake.
      rewrite decide_False by exact Hne.
      destruct (lookup_lt_is_Some_2 v k) as [c Hc]; [lia |].
      rewrite (coordinate_snoc _ _ _ _ Hc), fold_left_app. simpl.
      rewrite lookup_zip_with, (Hsum k Hk), Hc. reflexivity.
  - rewrite (bind_ok _ _ _ _ _ Hrun).
    eexists. split; [reflexivity |]. split; [rewrite length_map; exact Hlen |].
    intros k Hk. rewrite list_lookup_fmap, (Hsum k Hk).
    rewrite firstn_all2 by (rewrite (wf_vertices s Hwf); lia). reflexivity.
Qed.

(** X5.  [centroid(exclude)] on a well-formed simplex never raises and leaves the
    world as it was.  Coordinate [k] of the array it returns is the sum of
    coordinate [k] over the vertices the loop visits, accumulated from [0.0]
    in index order, divided by [N].  The loop visits every vertex but the
    one at index [exclude]: all [N+1] of them when [exclude] is the default
    [-1] (or any index outside [0..N]), and the divisor is [N] then too. *)
Theorem centroid_formula {W} s (exclude : Z) (w : W) :
  well_formed s ->
  exists x_mid,
    centroid s exclude w = (Ok x_mid, w) /\ length x_mid = N s /\
    length (kept exclude (vertex_list s))
    = (if decide (0 <= exclude <= Z.of_nat (N s))%Z then N s else N s + 1) /\
    forall k, k < N s ->
      x_mid !! k
      = Some (div (fold_left add (coordinate k (kept exclude (vertex_list s))) zero)
                  (of_nat (N s))).
Proof.
  intros Hwf. destruct (centroid_sum s exclude w Hwf) as (x_mid & Hrun & Hlen & Hsum).
  exists x_mid. split; [exact Hrun |]. split; [exact Hlen |]. split; [| exact Hsum].
  unfold kept. pose proof (wf_vertices s Hwf) as Hvl.
  destruct (decide (0 <= exclude)%Z) as [Hpos | Hneg].
  - destruct (decide (0 <= exclude <= Z.of_nat (N s))%Z) as [Hin | Hout].
    + rewrite length_delete; [lia |].
      apply lookup_lt_is_Some_2. lia.
    + rewrite delete_out_of_range by lia. exact Hvl.
  - rewrite decide_False by lia. exact Hvl.
Qed.

End centroid_facts.

Section centroid_exact.
Local Existing Instance exactQ.

(** X6.  In exact rational arithmetic, on a well-formed simplex with [N >= 1],
    [N] times coordinate [k] of [centroid(exclude)] is the sum of coordinate
    [k] over the vertices other than [exclude]: with a vertex excluded the
    result is the mean of the [N] others; with none excluded it is the sum of
    all [N+1] vertices divided by [N]. *)
Theorem centroid_exact_mean (s : NMSimplex vec) (exclude : Z) (w : calls) :
  well_formed s -> 1 <= N s ->
  exists x_mid : vec,
    centroid s exclude w = (Ok x_mid, w) /\
    forall k, k < N s ->
      exists c : Q,
        x_mid !! k = Some c /\
        (inject_Z (Z.of_nat (N s)) * c
         == fold_left Qplus (coordinate k (kept exclude (vertex_list s))) 0)%Q.
Proof.
  intros Hwf HN.
  destruct (centroid_sum (H := exactQ) s exclude w Hwf) as (x_mid & Hrun & _ & Hsum).
  exists x_mid. split; [exact Hrun |].
  intros k Hk. eexists. split; [exact (Hsum k Hk) |].
  cbn [div exactQ of_nat].
  apply Qmult_div_r.
  intros H0. unfold Qeq, inject_Z in H0. cbn [Qnum Qden] in H0. lia.
Qed.

Lemma centroid_exact_mean_witness :
  let s := @Build_NMSimplex exactQ _ 2 [[0; 0]; [1; 0]; [0; 3]]%Q [0; 1; 9]%Q [1; 3]%Q 3 0 in
  centroid s 2 ([] : calls) = (Ok [1 # 2; 0 # 2]%Q, []) /\
  (2 * (1 # 2) == 0 + 0 + 1)%Q.
Proof.
  intros s.
  assert (Hwf : well_formed s).
  { split; simpl; try lia. repeat constructor. }
  destruct (centroid_exact_mean s 2 [] Hwf) as (x_mid & Hrun & Hmean); [simpl; lia |].
  split; [vm_compute; reflexivity | reflexivity].
Defined.

End centroid_exact.

Section centroid_binary64.
Local Existing Instance float64.

Lemma centroid_formula_witness :
  let s := Build_NMSimplex float64 (list float) 2 [[0; 0]; [1; 0]; [0; 3]]%float
             [0; 1; 9]%float [1; 3]%float 3 0 in
  centroid s 2 ([] : calls) = (Ok [0.5; 0]%float, []) /\
  centroid s (-1) ([] : calls) = (Ok [0.5; 1.5]%float, []).
Proof.
  intros s.
  assert (Hwf : well_formed s).
  { split; simpl; try lia. repeat constructor. }
  destruct (centroid_formula (H := float64) s 2 ([] : calls) Hwf) as (x_mid & Hrun & _).
  split; vm_compute; reflexivity.
Defined.

End centroid_binary64.

(** ** Further properties: one step of the simplex *)

Section step_shape.
Context `{Scalar}.
Variable f : vec -> option num.
Variable g : vec -> num.
Hypothesis f_total : forall p, f p = Some (g p).
Implicit Type s : NMSimplex vec.

Lemma take_a_step_shape s
    (Kreflect Kextend Kcontract : num) (log : calls) :
  well_formed s ->
  exists s' new i_low i_high,
    take_a_step f s Kreflect Kextend Kcontract log = (Ok s', log ++ new) /\
    lowest s (-1) log = (Ok i_low, log) /\
    highest s (-1) log = (Ok i_high, log) /\
    well_formed s' /\
    N s' = N s /\ dx s' = dx s /\ nrestarts s' = nrestarts s /\
    nfe s' = nfe s + length new /\
    (length new = 2 \/ length new = 3 \/ length new = N s + 3) /\
    (i_low <> i_high ->
       vertex_list s' !! i_low = vertex_list s !! i_low /\
       f_list s' !! i_low = f_list s !! i_low).
Proof.
  intros Hwf.
  destruct (take_a_step_run f g f_total s Kreflect Kextend Kcontract
              log Hwf)
    as (i_low & f_low & i_high & x_high & f_high & x_mid
        & Hlow & Hfl & Hhigh & Hxh & Hfh & _ & Hmid & Hmlen & Hhlen & Hrun).
  cbv zeta in Hrun.
  set (x_refl := reflected Kreflect x_mid x_high) in *.
  set (x_ext := extended Kextend x_refl x_mid) in *.
  set (x_con := contracted Kcontract x_mid x_high) in *.
  assert (Hrl : length x_refl = N s) by (apply reflected_length; assumption).
  assert (Hel : length x_ext = N s) by (apply extended_length; assumption).
  assert (Hcl : length x_con = N s) by (apply contracted_length; assumption).
  assert (Hrep : forall n x y new,
            length x = N s -> (length new = 2 \/ length new = 3) -> n = length new ->
            exists s' new0 i_low0 i_high0,
              (Ok (replaced (with_nfe s (nfe s + n)) i_high x y), log ++ new)
              = (Ok s', log ++ new0) /\
              lowest s (-1) log = (Ok i_low0, log) /\
              highest s (-1) log = (Ok i_high0, log) /\
              well_formed s' /\
              N s' = N s /\ dx s' = dx s /\ nrestarts s' = nrestarts s /\
              nfe s' = nfe s + length new0 /\
              (length new0 = 2 \/ length new0 = 3 \/ length new0 = N s + 3) /\
              (i_low0 <> i_high0 ->
                 vertex_list s' !! i_low0 = vertex_list s !! i_low0 /\
                 f_list s' !! i_low0 = f_list s !! i_low0)).
  { intros n x y new Hx Hn ->. exists (replaced (with_nfe s (nfe s + length new)) i_high x y),
      new, i_low, i_high.
    split; [reflexivity |]. split; [exact Hlow |]. split; [exact Hhigh |].
    split; [apply wf_replaced; [apply wf_with_nfe; exact Hwf | exact Hx] |].
    repeat (split; [reflexivity |]).
    split; [tauto |].
    intros Hne. cbn [replaced vertex_list f_list with_nfe].
    rewrite !list_lookup_insert_ne by congruence. split; reflexivity. }
  destruct (ltb (g x_refl) (g x_mid)).
  - destruct (ltb (g x_ext) (g x_refl)); rewrite Hrun;
      apply (Hrep 3 _ _ [x_mid; x_refl; x_ext]); auto.
  - destruct (decide (number_above (f_list s) (g x_refl) <= 1)) as [Hc | Hc].
    + destruct (ltb (g x_con) f_high).
      * rewrite Hrun. apply (Hrep 3 _ _ [x_mid; x_refl; x_con]); auto.
      * assert (Hwf3 : well_formed (with_nfe s (nfe s + 3))) by (apply wf_with_nfe; exact Hwf).
        assert (Hil : i_low < N s + 1).
        { apply lookup_lt_Some in Hfl. rewrite (wf_values s Hwf) in Hfl. exact Hfl. }
        destruct (wf_vertex_lookup s i_low Hwf Hil) as (p_con & Hp & Hplen).
        destruct (contract_about_one_point_ok f g f_total
                    (with_nfe s (nfe s + 3)) i_low p_con
                    (log ++ [x_mid; x_refl; x_con]) Hwf3 Hp)
          as (s' & Hc' & Hwf' & HN' & Hdx' & Hnr' & Hnfe' & Hvs & Hfs).
        rewrite Hrun, Hc'. rewrite <- app_assoc.
        eexists s', _, i_low, i_high.
        split; [reflexivity |]. split; [exact Hlow |]. split; [exact Hhigh |].
        split; [exact Hwf' |]. split; [exact HN' |]. split; [exact Hdx' |].
        split; [exact Hnr' |].
        assert (Hdl : length (delete i_low (vertex_list (with_nfe s (nfe s + 3)))) = N s).
        { cbn [with_nfe vertex_list]. rewrite length_delete; [| eauto].
          rewrite (wf_vertices s Hwf). lia. }
        split.
        { rewrite Hnfe'. cbn [with_nfe nfe N]. rewrite length_app, length_map, Hdl.
          simpl. lia. }
        split.
        { right; right. rewrite length_app, length_map, Hdl. simpl. lia. }
        intros _. split.
        -- rewrite (Hvs i_low p_con Hp), decide_True by reflexivity.
           symmetry. exact Hp.
        -- rewrite (Hfs i_low p_con f_low Hp Hfl), decide_True by reflexivity.
           symmetry. exact Hfl.
    + rewrite Hrun. apply (Hrep 2 _ _ [x_mid; x_refl]); auto.
Qed.

End step_shape.

(** X7.  [take_a_step] when the reflection is good.  With [f_refl < f_mid] the
    step evaluates a third point, the extension
    [x_ext = Kextend*x_refl + (1-Kextend)*x_mid], and replaces the worst
    vertex: by the extension when [f_ext < f_refl], by the reflection
    otherwise.  Either way the objective is evaluated exactly three times,
    at [x_mid], [x_refl] and [x_ext] in that order, and the cached values of
    the other vertices are not consulted. *)
Theorem take_a_step_when_reflection_succeeds `{Scalar} (g : vec -> num) (s : NMSimplex vec)
    (Kreflect Kextend Kcontract : num) (log : calls) :
  well_formed s ->
  exists i_high x_high x_mid,
    highest s (-1) log = (Ok i_high, log) /\
    vertex_list s !! i_high = Some x_high /\
    centroid s (Z.of_nat i_high) log = (Ok x_mid, log) /\
    let x_refl := reflected Kreflect x_mid x_high in
    let x_ext := extended Kextend x_refl x_mid in
    ltb (g x_refl) (g x_mid) = true ->
    (ltb (g x_ext) (g x_refl) = true ->
       take_a_step (total g) s Kreflect Kextend Kcontract log
       = (Ok (replaced (with_nfe s (nfe s + 3)) i_high x_ext (g x_ext)),
          log ++ [x_mid; x_refl; x_ext])) /\
    (ltb (g x_ext) (g x_refl) = false ->
       take_a_step (total g) s Kreflect Kextend Kcontract log
       = (Ok (replaced (with_nfe s (nfe s + 3)) i_high x_refl (g x_refl)),
          log ++ [x_mid; x_refl; x_ext])).
Proof.
  intros Hwf.
  destruct (take_a_step_run (total g) g (fun _ => eq_refl) s Kreflect Kextend Kcontract
              log Hwf)
    as (i_low & f_low & i_high & x_high & f_high & x_mid
        & _ & _ & Hhigh & Hxh & _ & _ & Hmid & _ & _ & Hrun).
  exists i_high, x_high, x_mid.
  split; [exact Hhigh |]. split; [exact Hxh |]. split; [exact Hmid |].
  intros x_refl x_ext Hgood.
  cbv zeta in Hrun. fold x_refl x_ext in Hrun. rewrite Hgood in Hrun.
  split; intros Hext; rewrite Hrun, Hext; reflexivity.
Qed.

(** X8.  What a step costs and what it leaves alone.  On a well-formed simplex
    and an objective that does not raise, [take_a_step] returns a
    well-formed simplex with the same [N], the same [dx] and the same
    [nrestarts]; it evaluates the objective two times, three times, or -
    when it shrinks the simplex - [N + 3] times; and the vertex with the
    lowest cached value, when it is not also the highest, keeps its slot
    and its value. *)
Theorem take_a_step_cost_and_frame `{Scalar} (g : vec -> num) (s : NMSimplex vec)
    (Kreflect Kextend Kcontract : num) (log : calls) :
  well_formed s ->
  exists s' new i_low i_high,
    take_a_step (total g) s Kreflect Kextend Kcontract log = (Ok s', log ++ new) /\
    lowest s (-1) log = (Ok i_low, log) /\
    highest s (-1) log = (Ok i_high, log) /\
    well_formed s' /\
    N s' = N s /\ dx s' = dx s /\ nrestarts s' = nrestarts s /\
    nfe s' = nfe s + length new /\
    (length new = 2 \/ length new = 3 \/ length new = N s + 3) /\
    (i_low <> i_high ->
       vertex_list s' !! i_low = vertex_list s !! i_low /\
       f_list s' !! i_low = f_list s !! i_low).
Proof. apply (take_a_step_shape (total g) g). reflexivity. Qed.


Section step_shape_binary64.
Local Existing Instance float64.

(* The simplex about the origin with unit steps, on the bowl with floor at
   (0.5, -4): the reflection (1,-1) is below the centroid and the extension
   (1.5,-2) is lower still. *)
Lemma take_a_step_when_reflection_succeeds_witness :
  let s := @Build_NMSimplex float64 (list float) 2
             [[0; 0]; [1; 0]; [0; 1]]%float [17; 17; 26]%float [1; 1]%float 3 0 in
  take_a_step (total (bowl (-4))) s 1%float 2%float 0.5%float []
  = (Ok (replaced (with_nfe s 6) 2 [1.5; -2]%float 8%float),
     [[0.5; 0]; [1; -1]; [1.5; -2]]%float).
Proof.
  intros s.
  destruct (take_a_step_when_reflection_succeeds (H := float64) (bowl (-4)) s
              1%float 2%float 0.5%float [])
    as (i_high & x_high & x_mid & Hhigh & Hxh & Hmid & Hcases).
  { split; simpl; try lia. repeat constructor. }
  vm_compute in Hhigh. injection Hhigh as <-.
  vm_compute in Hxh. injection Hxh as <-.
  vm_compute in Hmid. injection Hmid as <-.
  destruct Hcases as (Hext & _); [vm_compute; reflexivity |].
  rewrite Hext; [vm_compute; reflexivity | vm_compute; reflexivity].
Defined.

Lemma take_a_step_cost_and_frame_witness :
  let s := @Build_NMSimplex float64 (list float) 2
             [[0; 0]; [1; 0]; [0; 1]]%float [17; 17; 26]%float [1; 1]%float 3 0 in
  exists s' new,
    take_a_step (total (bowl (-4))) s 1%float 2%float 0.5%float [] = (Ok s', new) /\
    nfe s' = 3 + length new /\ dx s' = [1; 1]%float /\
    vertex_list s' !! 0 = Some [0; 0]%float.
Proof.
  intros s.
  destruct (take_a_step_cost_and_frame (H := float64) (bowl (-4)) s
              1%float 2%float 0.5%float [])
    as (s' & new & i_low & i_high & Hrun & Hlow & Hhigh & _ & _ & Hdx & _ & Hnfe & _ & Hkeep).
  { split; simpl; try lia. repeat constructor. }
  vm_compute in Hlow. injection Hlow as <-.
  vm_compute in Hhigh. injection Hhigh as <-.
  exists s', new. split; [exact Hrun |]. split; [exact Hnfe |]. split; [exact Hdx |].
  destruct Hkeep as [Hv _]; [lia |]. etransitivity; [exact Hv | reflexivity].
Defined.

End step_shape_binary64.

(** ** Further properties: the constructor *)

Section constructor.
Context `{Scalar}.
Variable f : vec -> option num.

Lemma axis_step_lookup (x d : vec) k xk dk :
  x !! k = Some xk -> d !! k = Some dk ->
  axis_step x d k !! k = Some (add xk dk) /\
  forall j, j <> k -> axis_step x d k !! j = x !! j.
Proof.
  intros Hx Hd. unfold axis_step. rewrite Hx, Hd. split.
  - apply list_lookup_insert_eq. apply lookup_lt_Some with xk. exact Hx.
  - intros j Hj. apply list_lookup_insert_ne. congruence.
Qed.

Lemma wf_simplex_about (g : vec -> num) (x d : vec) :
  length x <= length d ->
  well_formed {| N := length x; vertex_list := simplex_about x d;
                 f_list := map g (simplex_about x d); dx := d;
                 nfe := length x + 1; nrestarts := 0 |}.
Proof.
  intros Hd. split; simpl_fields.
  - apply simplex_about_length.
  - rewrite length_map. apply simplex_about_length.
  - unfold simplex_about. apply Forall_cons. split; [reflexivity |].
    apply Forall_forall. intros v Hv.
    apply list_elem_of_fmap in Hv as (k & -> & _).
    unfold axis_step. repeat case_match; rewrite ?length_insert; reflexivity.
  - exact Hd.
Qed.

(** The vertex the constructor's loop builds in round [i]. *)
Lemma init_vertex (x d : vec) i p (log : calls) :
  simplex_about x d !! i = Some p ->
  i <= length d ->
  (if decide (1 <= i)
   then d0 <- py_get d (i - 1) ;; np_item_iop add x (i - 1) d0
   else ret x) log = (Ok p, log).
Proof.
  intros Hp Hi.
  assert (Hlen : i < length x + 1).
  { rewrite <- (simplex_about_length x d). apply lookup_lt_Some with p. exact Hp. }
  destruct (decide (1 <= i)) as [Hge | Hlt].
  - destruct i as [| k]; [lia |]. replace (S k - 1) with k by lia.
    rewrite simplex_about_lookup_S in Hp by lia. injection Hp as <-.
    destruct (lookup_lt_is_Some_2 d k) as [dk Hdk]; [lia |].
    destruct (lookup_lt_is_Some_2 x k) as [xk Hxk]; [lia |].
    rewrite (bind_ok _ _ _ _ _ (py_get_ok d k dk log Hdk)).
    rewrite (np_item_iop_ok add x k xk dk log Hxk).
    unfold axis_step. rewrite Hxk, Hdk. reflexivity.
  - assert (i = 0) as -> by lia. simpl in Hp. injection Hp as <-. reflexivity.
Qed.

Lemma init_failure (x d : vec) k p (log : calls) :
  length x <= length d ->
  simplex_about x d !! k = Some p ->
  f p = None ->
  (forall j q, j < k -> simplex_about x d !! j = Some q -> f q <> None) ->
  NMSimplex_init f x d log
  = (Raise ObjectiveFailure, log ++ take (S k) (simplex_about x d)).
Proof.
  intros Hlen Hp Hfail Hbefore. unfold NMSimplex_init.
  set (body := fun (i : nat) (self : NMSimplex vec) => _).
  assert (Hk : k < length x + 1).
  { rewrite <- (simplex_about_length x d). apply lookup_lt_Some with p. exact Hp. }
  destruct (for_range_raise
    (fun i (s : NMSimplex vec) (w : calls) => w = log ++ take i (simplex_about x d))
    (fun w => w = log ++ take (S k) (simplex_about x d))
    body (length x + 1) k ObjectiveFailure
    {| N := length x; vertex_list := []; f_list := []; dx := d; nfe := 0; nrestarts := 0 |}
    log) as (w' & Hrun & Hw).
  - exact Hk.
  - simpl. rewrite app_nil_r. reflexivity.
  - intros i s w Hi ->.
    destruct (lookup_lt_is_Some_2 (simplex_about x d) i) as [q Hq].
    { rewrite simplex_about_length. lia. }
    destruct (f q) as [y |] eqn:Hfq; [| exfalso; exact (Hbefore i q Hi Hq Hfq)].
    eexists _, _. split.
    + subst body. cbv beta.
      rewrite (bind_ok _ _ _ _ _ (init_vertex x d i q _ Hq ltac:(lia))). cbv zeta.
      unfold bind at 1. unfold call. rewrite Hfq. reflexivity.
    + rewrite (take_S_r _ _ _ Hq), app_assoc. reflexivity.
  - intros s w ->. eexists. split.
    + subst body. cbv beta.
      rewrite (bind_ok _ _ _ _ _ (init_vertex x d k p _ Hp ltac:(lia))). cbv zeta.
      unfold bind at 1. unfold call. rewrite Hfail. reflexivity.
    + rewrite (take_S_r _ _ _ Hp), app_assoc. reflexivity.
  - rewrite Hrun, Hw. reflexivity.
Qed.

End constructor.

(** X9.  The constructor.  Given a seed [x] of [N] coordinates, a step for every
    axis (surplus steps are not read) and an objective that does not raise,
    [NMSimplex(x, dx, f)] holds [N + 1] vertices of [N] coordinates: the
    seed in slot 0 and, in slot [k + 1], the seed with coordinate [k] - and
    no other - increased by [dx[k]].  The objective is evaluated once at
    each vertex, in slot order; each cached value is the objective at its
    vertex; [nfe] is [N + 1], [nrestarts] is 0 and [dx] holds the steps
    given. *)
Theorem init_builds_simplex_about_seed `{Scalar} (g : vec -> num) (x d : vec)
    (log : calls) :
  length x <= length d ->
  exists s,
    NMSimplex_init (total g) x d log = (Ok s, log ++ vertex_list s) /\
    well_formed s /\ coherent g s /\
    N s = length x /\ nfe s = length x + 1 /\ nrestarts s = 0 /\ dx s = d /\
    vertex_list s !! 0 = Some x /\
    forall k xk dk, x !! k = Some xk -> d !! k = Some dk ->
      exists v, vertex_list s !! S k = Some v /\
                v !! k = Some (add xk dk) /\
                forall j, j <> k -> v !! j = x !! j.
Proof.
  intros Hd.
  exists {| N := length x; vertex_list := simplex_about x d;
            f_list := map g (simplex_about x d); dx := d;
            nfe := length x + 1; nrestarts := 0 |}.
  split; [apply (NMSimplex_init_ok (total g) g); [reflexivity | exact Hd] |].
  split; [apply wf_simplex_about; exact Hd |].
  split; [reflexivity |].
  repeat (split; [reflexivity |]).
  intros k xk dk Hx Hdk. cbn [vertex_list].
  exists (axis_step x d k).
  split; [apply simplex_about_lookup_S; apply lookup_lt_Some with xk; exact Hx |].
  apply axis_step_lookup; assumption.
Qed.

(** X10.  An exception of the objective in the constructor is not caught.  When
    the objective raises at a vertex of the initial simplex, and at none
    before it, the constructor raises that exception once the objective has
    been called at the vertices up to and including that one; and so does
    [minimize]. *)
Theorem init_propagates_objective_failure `{Scalar} (f : vec -> option num) (x : vec)
    (dx0 : option vec) (k : nat) (p : vec) (log : calls)
    (fuel : nat) (tol : num) (maxfe n_check : Z) (delta Kreflect Kextend Kcontract : num) :
  let d := match dx0 with Some d => d | None => repeat tenth (length x) end in
  length x <= length d ->
  simplex_about x d !! k = Some p ->
  f p = None ->
  (forall j q, j < k -> simplex_about x d !! j = Some q -> f q <> None) ->
  NMSimplex_init f x d log
  = (Raise ObjectiveFailure, log ++ take (S k) (simplex_about x d)) /\
  minimize f fuel x dx0 tol maxfe n_check delta Kreflect Kextend Kcontract log
  = (Raise ObjectiveFailure, log ++ take (S k) (simplex_about x d)).
Proof.
  intros d Hd Hp Hfail Hbefore.
  pose proof (init_failure f x d k p log Hd Hp Hfail Hbefore) as Hinit.
  split; [exact Hinit |].
  unfold minimize. fold d. unfold bind. rewrite Hinit. reflexivity.
Qed.

Section constructor_binary64.
Local Existing Instance float64.

Lemma init_builds_simplex_about_seed_witness :
  exists s,
    NMSimplex_init (total test_fun_1) [0; 0]%float [0.5; 0.25; 9]%float []
    = (Ok s, vertex_list s) /\
    vertex_list s = [[0; 0]; [0.5; 0]; [0; 0.25]]%float /\ nfe s = 3.
Proof.
  destruct (init_builds_simplex_about_seed (H := float64) test_fun_1 [0; 0]%float
              [0.5; 0.25; 9]%float [])
    as (s & Hrun & _ & _ & _ & Hnfe & _).
  - simpl. lia.
  - exists s. split; [exact Hrun |]. split; [| exact Hnfe].
    revert Hrun. vm_compute. intros [= <- _]. reflexivity.
Defined.

(* [test_fun_2] unpacks two coordinates: on a seed of three it raises at the
   first call. *)
Lemma init_propagates_objective_failure_witness :
  minimize test_fun_2 10 [0; 0; 0]%float None 1e-4%float 300 20 0.001%float
    1%float 2%float 0.5%float []
  = (Raise ObjectiveFailure, [[0; 0; 0]]%float).
Proof.
  apply (init_propagates_objective_failure (H := float64) test_fun_2 [0; 0; 0]%float None
           0 [0; 0; 0]%float [] 10 1e-4%float 300 20 0.001%float 1%float 2%float 0.5%float).
  - simpl. lia.
  - reflexivity.
  - reflexivity.
  - intros j q Hj. lia.
Defined.

End constructor_binary64.

(** ** Further properties: shrinking, and indices out of range *)

Section shrink_exact.
Local Existing Instance exactQ.

(** X11.  [contract_about_one_point(i_con)] in exact arithmetic: every vertex
    other than [i_con] moves to the point half way to vertex [i_con] - on
    every axis its offset from that vertex is halved - and its cached value
    becomes the objective at the new point, after [N] evaluations in all. *)
Theorem contract_halves_offsets (g : vec -> num) (s : NMSimplex vec) (i_con : nat)
    (p_con : vec) (log : calls) :
  well_formed s ->
  vertex_list s !! i_con = Some p_con ->
  exists s' log',
    contract_about_one_point (total g) s i_con log = (Ok s', log') /\
    length log' = length log + N s /\
    forall i v, i <> i_con -> vertex_list s !! i = Some v ->
      exists v' : vec,
        vertex_list s' !! i = Some v' /\ f_list s' !! i = Some (g v') /\
        forall k (c pk : Q), v !! k = Some c -> p_con !! k = Some pk ->
          exists c' : Q, v' !! k = Some c' /\ (c' - pk == (c - pk) * (1 # 2))%Q.
Proof.
  intros Hwf Hp.
  destruct (contract_about_one_point_ok (H := exactQ) (total g) g (fun _ => eq_refl)
              s i_con p_con log Hwf Hp)
    as (s' & Hrun & _ & _ & _ & _ & _ & Hvs & Hfs).
  eexists s', _. split; [exact Hrun |]. split.
  { rewrite length_app, length_map, length_delete by eauto.
    rewrite (wf_vertices s Hwf). lia. }
  intros i v Hi Hv.
  assert (Hilt : i < N s + 1).
  { rewrite <- (wf_vertices s Hwf). apply lookup_lt_Some with v. exact Hv. }
  destruct (wf_value_lookup s i Hwf Hilt) as (y & Hy).
  exists (midpoint v p_con).
  split; [rewrite (Hvs i v Hv), decide_False by exact Hi; reflexivity |].
  split; [rewrite (Hfs i v y Hv Hy), decide_False by exact Hi; reflexivity |].
  intros k c pk Hc Hpk.
  exists ((1 # 2) * c + (1 # 2) * pk)%Q. split.
  - unfold midpoint, np_scale. rewrite lookup_zip_with, !list_lookup_fmap.
    assert (Hc' : @lookup nat (@num exactQ) (list (@num exactQ)) _ k v = Some c)
      by exact Hc.
    assert (Hpk' : @lookup nat (@num exactQ) (list (@num exactQ)) _ k p_con = Some pk)
      by exact Hpk.
    rewrite Hc', Hpk'. reflexivity.
  - ring.
Qed.

Lemma contract_halves_offsets_witness :
  let s := @Build_NMSimplex exactQ _ 1 [[1]; [3]]%Q [0; 4]%Q [2]%Q 2 0 in
  exists s' log',
    contract_about_one_point (total test_fun_1) s 0 [] = (Ok s', log') /\
    vertex_list s' = [[1]; [(1 # 2) * 3 + (1 # 2) * 1]]%Q /\ length log' = 1.
Proof.
  intros s.
  destruct (contract_halves_offsets test_fun_1 s 0 [1]%Q [])
    as (s' & log' & Hrun & Hlen & _).
  - split; simpl; try lia. repeat constructor.
  - reflexivity.
  - exists s', log'. split; [exact Hrun |]. split; [| exact Hlen].
    revert Hrun. vm_compute. intros [= <- _]. reflexivity.
Defined.

End shrink_exact.

(** X12.  A slot index past the last vertex.  On a well-formed simplex,
    [get_vertex], [replace_vertex], [contract_about_one_point] and
    [test_for_minimum] called with an index beyond [N] raise [IndexError]
    before the objective is called. *)
Theorem slot_out_of_range `{Scalar} (f : vec -> option num) (s : NMSimplex vec)
    (i : nat) (x : vec) (y delta : num) (log : calls) :
  well_formed s -> N s < i ->
  get_vertex s i log = (Raise IndexError, log) /\
  replace_vertex s i x y log = (Raise IndexError, log) /\
  contract_about_one_point f s i log = (Raise IndexError, log) /\
  test_for_minimum f s i delta log = (Raise IndexError, log).
Proof.
  intros Hwf Hi.
  assert (Hv : length (vertex_list s) <= i) by (rewrite (wf_vertices s Hwf); lia).
  assert (Hf : length (f_list s) <= i) by (rewrite (wf_values s Hwf); lia).
  split; [apply py_get_raise; exact Hv |].
  split.
  { unfold replace_vertex, bind, py_set. rewrite decide_False by lia. reflexivity. }
  split.
  { unfold contract_about_one_point, bind. rewrite py_get_raise by exact Hv. reflexivity. }
  unfold test_for_minimum, bind. rewrite py_get_raise by exact Hf. reflexivity.
Qed.

Section slot_binary64.
Local Existing Instance float64.

Lemma slot_out_of_range_witness :
  let s := Build_NMSimplex float64 (list float) 1 [[1]; [3]]%float [0; 4]%float
             [2]%float 2 0 in
  get_vertex s 2 ([] : calls) = (Raise IndexError, []) /\
  replace_vertex s 2 [5]%float 16%float ([] : calls) = (Raise IndexError, []) /\
  contract_about_one_point (total test_fun_1) s 2 [] = (Raise IndexError, []) /\
  test_for_minimum (total test_fun_1) s 2 0.001%float [] = (Raise IndexError, []).
Proof.
  intros s.
  apply (slot_out_of_range (H := float64) (total test_fun_1) s 2 [5]%float 16%float
           0.001%float []).
  - split; simpl; try lia. repeat constructor.
  - simpl. lia.
Defined.

End slot_binary64.

(** ** Further properties: the rounds of the driver *)

Section rounds.
Context `{Scalar}.
Variable f : vec -> option num.
Variable g : vec -> num.
Hypothesis f_total : forall p, f p = Some (g p).
Variables (tol : num) (maxfe n_check : Z) (delta Kreflect Kextend Kcontract : num).
Hypothesis n_check_positive : (1 <= n_check)%Z.
Implicit Type s smplx : NMSimplex vec.

Lemma take_steps_shape n s (log : calls) :
  well_formed s ->
  exists s' log',
    for_range n (fun _ smplx => take_a_step f smplx Kreflect Kextend Kcontract) s log
    = (Ok s', log') /\
    well_formed s' /\ N s' = N s /\ dx s' = dx s /\ nrestarts s' = nrestarts s /\
    nfe s + 2 * n <= nfe s' <= nfe s + n * (N s + 3).
Proof.
  intros Hwf.
  destruct (for_range_ok
    (fun k (s1 : NMSimplex vec) (w : calls) =>
       well_formed s1 /\ N s1 = N s /\ dx s1 = dx s /\ nrestarts s1 = nrestarts s /\
       nfe s + 2 * k <= nfe s1 <= nfe s + k * (N s + 3))
    (fun _ smplx => take_a_step f smplx Kreflect Kextend Kcontract) n s log)
    as (s' & log' & Hrun & Hinv).
  - split; [exact Hwf |]. repeat (split; [reflexivity |]). lia.
  - intros k s1 w1 Hk (Hwf1 & HN1 & Hdx1 & Hnr1 & Hn1).
    destruct (take_a_step_shape f g f_total s1 Kreflect Kextend Kcontract w1 Hwf1)
      as (s2 & new & _ & _ & Hstep & _ & _ & Hwf2 & HN2 & Hdx2 & Hnr2 & Hn2 & Hcost & _).
    exists s2, (w1 ++ new). split.
    { exact Hstep. }
    split; [exact Hwf2 |]. split; [congruence |]. split; [congruence |].
    split; [congruence |]. nia.
  - exists s', log'. split; [exact Hrun | exact Hinv].
Qed.


(** A property [R] of the simplex kept by the steps and the probes of a
    round, and a property [B] of the recorded best point, the flag and the
    simplex that each round establishes; a restart re-establishes [R]. *)
Variable R : NMSimplex vec -> Prop.
Variable B : vec -> num -> bool -> NMSimplex vec -> Prop.
Hypothesis R_step : forall s (log : calls) s' log',
  well_formed s -> R s ->
  take_a_step f s Kreflect Kextend Kcontract log = (Ok s', log') -> R s'.
Hypothesis R_nfe : forall s n, R s -> R (with_nfe s n).
Hypothesis B_round : forall s0 (log0 : calls) s1 log1 i x y,
  well_formed s0 -> R s0 -> (Z.of_nat (nfe s0) < maxfe)%Z ->
  for_range (Z.to_nat n_check)
    (fun _ smplx => take_a_step f smplx Kreflect Kextend Kcontract) s0 log0
  = (Ok s1, log1) ->
  well_formed s1 -> R s1 ->
  lowest s1 (-1) log1 = (Ok i, log1) ->
  vertex_list s1 !! i = Some x -> f_list s1 !! i = Some y ->
  let stddev := sqrt (div (sum_sq (mean_of s1) (f_list s1)) (of_nat (N s1))) in
  let r := probed g y (probes x (dx s1) delta (seq 0 (N s1))) in
  let s1' := with_nfe s1 (nfe s1 + length (fst r)) in
  (ltb stddev tol = false -> B x y false s1) /\
  (ltb stddev tol = true -> snd r = true -> B x y true s1') /\
  (ltb stddev tol = true -> snd r = false ->
     forall s2 log2, rescale f s1' delta (log1 ++ fst r) = (Ok s2, log2) ->
       R s2 /\ B x y false s2).

Lemma take_steps_R n s (log : calls) s' log' :
  well_formed s -> R s ->
  for_range n (fun _ smplx => take_a_step f smplx Kreflect Kextend Kcontract) s log
  = (Ok s', log') ->
  R s'.
Proof.
  intros Hwf HR Hrun.
  assert (Hinv : well_formed s' /\ R s'); [| exact (proj2 Hinv)].
  revert Hrun. unfold for_range.
  apply (for_in_invariant (fun (s1 : NMSimplex vec) (w : calls) => well_formed s1 /\ R s1)
           (fun _ smplx => take_a_step f smplx Kreflect Kextend Kcontract)).
  - intros i a w a' w' [Hwfa HRa] Hstep. split.
    + destruct (take_a_step_shape f g f_total a Kreflect Kextend Kcontract w Hwfa)
        as (s2 & new & _ & _ & Hstep2 & _ & _ & Hwf2 & _).
      rewrite Hstep in Hstep2. injection Hstep2 as -> _. exact Hwf2.
    + exact (R_step a w a' w' Hwfa HRa Hstep).
  - split; assumption.
Qed.

(** The loop ends within [n] rounds when at most [n] evaluations remain in
    the budget; it returns the counters of the simplex it ends with. *)
Lemma minimize_loop_rounds n :
  forall converged best smplx (log : calls),
    well_formed smplx -> 1 <= N smplx -> R smplx ->
    Z.to_nat (maxfe - Z.of_nat (nfe smplx)) <= n ->
    (forall xb fb, best = Some (xb, fb) -> B xb fb converged smplx) ->
    (best = None -> converged = false /\ (Z.of_nat (nfe smplx) < maxfe)%Z) ->
    exists x_best f_best c s_fin log',
      well_formed s_fin /\ N s_fin = N smplx /\ R s_fin /\ B x_best f_best c s_fin /\
      (c = false -> (maxfe <= Z.of_nat (nfe s_fin))%Z) /\
      forall fuel, n <= fuel ->
        minimize_loop f fuel tol maxfe n_check delta Kreflect Kextend Kcontract
          converged best smplx log
        = (Ok (x_best, f_best, c, nfe s_fin, nrestarts s_fin), log').
Proof.
  assert (Hexit : forall converged xb fb smplx (log : calls),
            well_formed smplx -> R smplx -> B xb fb converged smplx ->
            negb converged && (Z.of_nat (nfe smplx) <? maxfe)%Z = false ->
            exists x_best f_best c s_fin log',
              well_formed s_fin /\ N s_fin = N smplx /\ R s_fin /\
              B x_best f_best c s_fin /\
              (c = false -> (maxfe <= Z.of_nat (nfe s_fin))%Z) /\
              forall fuel,
                minimize_loop f fuel tol maxfe n_check delta Kreflect Kextend Kcontract
                  converged (Some (xb, fb)) smplx log
                = (Ok (x_best, f_best, c, nfe s_fin, nrestarts s_fin), log')).
  { intros converged xb fb smplx log Hwf HR HB Hcond.
    exists xb, fb, converged, smplx, log.
    split; [exact Hwf |]. split; [reflexivity |]. split; [exact HR |].
    split; [exact HB |]. split.
    - intros ->. simpl in Hcond. apply Z.ltb_ge in Hcond. exact Hcond.
    - intros fuel. destruct fuel; cbn [minimize_loop]; rewrite Hcond; reflexivity. }
  induction n as [| n IH]; intros converged best smplx log Hwf HN HR Hn HB Hbest.
  - assert (Hcond : negb converged && (Z.of_nat (nfe smplx) <? maxfe)%Z = false).
    { apply andb_false_iff. right. apply Z.ltb_ge. lia. }
    destruct best as [[xb fb] |].
    + destruct (Hexit converged xb fb smplx log Hwf HR (HB xb fb eq_refl) Hcond)
        as (x_best & f_best & c & s_fin & log' & H1 & H2 & H3 & H4 & H5 & H6).
      exists x_best, f_best, c, s_fin, log'.
      repeat (split; [assumption |]).
      intros fuel _. apply H6.
    + destruct Hbest as [_ Hlt]; [reflexivity | lia].
  - destruct (negb converged && (Z.of_nat (nfe smplx) <? maxfe)%Z) eqn:Hcond.
    + apply andb_true_iff in Hcond as Hc. destruct Hc as [Hconv Hlt].
      apply Z.ltb_lt in Hlt. apply negb_true_iff in Hconv.
      destruct (take_steps_shape (Z.to_nat n_check) smplx log Hwf)
        as (s1 & w1 & Hsteps & Hwf1 & HN1 & _ & _ & Hn1).
      pose proof (take_steps_R _ _ _ _ _ Hwf HR Hsteps) as HR1.
      destruct (lowest_ok s1 w1 (wf_values s1 Hwf1)) as (i_best & f_best & Hlow & Hfb & _).
      assert (Hib : i_best < N s1 + 1).
      { rewrite <- (wf_values s1 Hwf1). apply lookup_lt_Some with f_best. exact Hfb. }
      destruct (wf_vertex_lookup s1 i_best Hwf1 Hib) as (x_best & Hxb & _).
      pose proof (f_statistics_ok s1 w1 (wf_values s1 Hwf1) ltac:(lia)) as Hstats.
      pose proof (B_round smplx log s1 w1 i_best x_best f_best Hwf HR Hlt Hsteps Hwf1 HR1
                    Hlow Hxb Hfb) as HBr.
      cbv zeta in HBr.
      set (stddev := sqrt (div (sum_sq (mean_of s1) (f_list s1)) (of_nat (N s1)))) in *.
      pose proof (test_for_minimum_ok f g f_total s1 i_best x_best f_best delta w1
                    Hwf1 Hxb Hfb) as Htest.
      cbv zeta in Htest.
      set (r := probed g f_best (probes x_best (dx s1) delta (seq 0 (N s1)))) in *.
      set (s1' := with_nfe s1 (nfe s1 + length (fst r))) in *.
      destruct HBr as (Bfar & Bconv & Brestart).
      assert (Hnext : exists c' s2 w2,
                well_formed s2 /\ N s2 = N smplx /\ R s2 /\ nfe smplx + 2 <= nfe s2 /\
                B x_best f_best c' s2 /\
                forall fuel,
                  minimize_loop f (S fuel) tol maxfe n_check delta Kreflect Kextend Kcontract
                    converged best smplx log
                  = minimize_loop f fuel tol maxfe n_check delta Kreflect Kextend Kcontract
                      c' (Some (x_best, f_best)) s2 w2).
      { destruct (ltb stddev tol) eqn:Htol.
        - assert (Hwf1' : well_formed s1') by (apply wf_with_nfe; exact Hwf1).
          destruct (snd r) eqn:Hr.
          + exists true, s1', (w1 ++ fst r).
            split; [exact Hwf1' |]. split; [exact HN1 |].
            split; [apply R_nfe; exact HR1 |]. split; [simpl; lia |].
            split; [apply Bconv; reflexivity |].
            intros fuel. cbn [minimize_loop]. rewrite Hcond.
            rewrite (bind_ok _ _ _ _ _ Hsteps), (bind_ok _ _ _ _ _ Hlow).
            unfold get_vertex.
            rewrite (bind_ok _ _ _ _ _ (py_get_ok _ _ _ _ Hxb)).
            rewrite (bind_ok _ _ _ _ _ (py_get_ok _ _ _ _ Hfb)).
            rewrite (bind_ok _ _ _ _ _ Hstats). cbn [snd]. fold stddev. rewrite Htol.
            rewrite (bind_ok _ _ _ _ _ Htest). cbn [fst snd negb].
            reflexivity.
          + destruct (rescale_ok f g f_total s1' delta (w1 ++ fst r) Hwf1')
              as (i_min & x & f_min & _ & _ & _ & Hxl & Hres).
            destruct (Brestart eq_refl eq_refl _ _ Hres) as [HR2 HB2].
            eexists false, _, _.
            split; [exact (wf_rescaled g s1' delta x f_min Hwf1' Hxl) |].
            split; [exact HN1 |].
            split; [exact HR2 |].
            split; [simpl; lia |].
            split; [exact HB2 |].
            intros fuel. cbn [minimize_loop]. rewrite Hcond.
            rewrite (bind_ok _ _ _ _ _ Hsteps), (bind_ok _ _ _ _ _ Hlow).
            unfold get_vertex.
            rewrite (bind_ok _ _ _ _ _ (py_get_ok _ _ _ _ Hxb)).
            rewrite (bind_ok _ _ _ _ _ (py_get_ok _ _ _ _ Hfb)).
            rewrite (bind_ok _ _ _ _ _ Hstats). cbn [snd]. fold stddev. rewrite Htol.
            rewrite (bind_ok _ _ _ _ _ Htest). cbn [fst snd negb].
            rewrite (bind_ok _ _ _ _ _ Hres). reflexivity.
        - exists false, s1, w1.
          split; [exact Hwf1 |]. split; [exact HN1 |]. split; [exact HR1 |].
          split; [lia |]. split; [apply Bfar; reflexivity |].
          intros fuel. cbn [minimize_loop]. rewrite Hcond.
          rewrite (bind_ok _ _ _ _ _ Hsteps), (bind_ok _ _ _ _ _ Hlow).
          unfold get_vertex.
          rewrite (bind_ok _ _ _ _ _ (py_get_ok _ _ _ _ Hxb)).
          rewrite (bind_ok _ _ _ _ _ (py_get_ok _ _ _ _ Hfb)).
          rewrite (bind_ok _ _ _ _ _ Hstats). cbn [snd]. fold stddev. rewrite Htol.
          rewrite Hconv. reflexivity. }
      destruct Hnext as (c' & s2 & w2 & Hwf2 & HN2 & HR2 & Hn2 & HB2 & Hunfold).
      destruct (IH c' (Some (x_best, f_best)) s2 w2 Hwf2 ltac:(lia) HR2)
        as (xb & fb & c & s_fin & log' & Hwff & HNf & HRf & HBf & Hcf & Hrun).
      * lia.
      * intros xb fb [= <- <-]. exact HB2.
      * discriminate.
      * exists xb, fb, c, s_fin, log'. split; [exact Hwff |]. split; [congruence |].
        split; [exact HRf |]. split; [exact HBf |]. split; [exact Hcf |].
        intros fuel Hfuel. destruct fuel as [| fuel]; [lia |].
        rewrite Hunfold. apply Hrun. lia.
    + destruct best as [[xb fb] |].
      * destruct (Hexit converged xb fb smplx log Hwf HR (HB xb fb eq_refl) Hcond)
          as (x_best & f_best & c & s_fin & log' & H1 & H2 & H3 & H4 & H5 & H6).
        exists x_best, f_best, c, s_fin, log'.
        repeat (split; [assumption |]).
        intros fuel _. apply H6.
      * destruct Hbest as [-> Hlt]; [reflexivity |].
        apply Z.ltb_lt in Hlt. rewrite Hlt in Hcond. discriminate Hcond.
Qed.


(** [minimize] from the constructor on: the seed [x], the steps [d] (the
    default ones when [dx0] is [None]). *)
Lemma minimize_rounds (x : vec) (dx0 : option vec) (log : calls) :
  let d := match dx0 with Some d => d | None => repeat tenth (length x) end in
  1 <= length x -> length x <= length d ->
  (Z.of_nat (length x) + 1 < maxfe)%Z ->
  R {| N := length x; vertex_list := simplex_about x d;
       f_list := map g (simplex_about x d); dx := d;
       nfe := length x + 1; nrestarts := 0 |} ->
  exists x_best f_best c s_fin log',
    well_formed s_fin /\ N s_fin = length x /\ R s_fin /\ B x_best f_best c s_fin /\
    (c = false -> (maxfe <= Z.of_nat (nfe s_fin))%Z) /\
    forall fuel, Z.to_nat maxfe <= fuel ->
      minimize f fuel x dx0 tol maxfe n_check delta Kreflect Kextend Kcontract log
      = (Ok (x_best, f_best, c, nfe s_fin, nrestarts s_fin), log').
Proof.
  intros d Hx Hd Hmax HR.
  pose proof (NMSimplex_init_ok f g f_total x d log Hd) as Hinit.
  pose proof (wf_simplex_about g x d Hd) as Hwf.
  set (s0 := {| N := length x; vertex_list := simplex_about x d;
                f_list := map g (simplex_about x d); dx := d;
                nfe := length x + 1; nrestarts := 0 |}) in *.
  destruct (minimize_loop_rounds (Z.to_nat maxfe) false None s0 (log ++ simplex_about x d)
              Hwf Hx HR)
    as (xb & fb & c & s_fin & log' & Hwff & HNf & HRf & HBf & Hcf & Hrun).
  - lia.
  - discriminate.
  - intros _. split; [reflexivity |]. subst s0. simpl_fields. lia.
  - exists xb, fb, c, s_fin, log'.
    repeat (split; [assumption |]).
    intros fuel Hfuel. unfold minimize. fold d. rewrite (bind_ok _ _ _ _ _ Hinit).
    apply Hrun. exact Hfuel.
Qed.

End rounds.

(** ** Further properties: the cached values are the objective's *)

Section coherence.
Context `{Scalar}.
Variable f : vec -> option num.
Variable g : vec -> num.
Hypothesis f_total : forall p, f p = Some (g p).
Implicit Type s : NMSimplex vec.

Lemma coherent_lookup s i v y :
  coherent g s -> vertex_list s !! i = Some v -> f_list s !! i = Some y -> y = g v.
Proof.
  unfold coherent. intros Hc Hv Hy. rewrite Hc, list_lookup_fmap, Hv in Hy.
  injection Hy as <-. reflexivity.
Qed.

Lemma coherent_replaced s n i x :
  coherent g s -> coherent g (replaced (with_nfe s n) i x (g x)).
Proof.
  unfold coherent, replaced. cbn [f_list vertex_list with_nfe]. intros ->.
  symmetry. apply list_fmap_insert.
Qed.

Lemma coherent_contract s i_con (log : calls) s' log' :
  well_formed s -> coherent g s ->
  contract_about_one_point f s i_con log = (Ok s', log') ->
  coherent g s'.
Proof.
  intros Hwf Hc Hrun.
  destruct (vertex_list s !! i_con) as [p_con |] eqn:Hp.
  2:{ unfold contract_about_one_point in Hrun. unfold bind, py_get in Hrun.
      rewrite Hp in Hrun. discriminate Hrun. }
  destruct (contract_about_one_point_ok f g f_total s i_con p_con log Hwf Hp)
    as (s2 & Hc' & Hwf' & HN' & _ & _ & _ & Hvs & Hfs).
  rewrite Hrun in Hc'. injection Hc' as <- _.
  unfold coherent. apply list_eq. intros i. rewrite list_lookup_fmap.
  destruct (decide (i < N s + 1)) as [Hi | Hi].
  - destruct (wf_vertex_lookup s i Hwf Hi) as (v & Hv & _).
    destruct (wf_value_lookup s i Hwf Hi) as (y & Hy).
    rewrite (Hfs i v y Hv Hy), (Hvs i v Hv). simpl.
    destruct (decide (i = i_con)); [| reflexivity].
    rewrite (coherent_lookup s i v y Hc Hv Hy). reflexivity.
  - rewrite (lookup_ge_None_2 (f_list s') i) by (rewrite (wf_values s' Hwf'); lia).
    rewrite (lookup_ge_None_2 (vertex_list s') i) by (rewrite (wf_vertices s' Hwf'); lia).
    reflexivity.
Qed.

Lemma coherent_take_a_step s Kreflect Kextend Kcontract (log : calls) s' log' :
  well_formed s -> coherent g s ->
  take_a_step f s Kreflect Kextend Kcontract log = (Ok s', log') ->
  coherent g s'.
Proof.
  intros Hwf Hc Hstep.
  destruct (take_a_step_run f g f_total s Kreflect Kextend Kcontract log Hwf)
    as (i_low & f_low & i_high & x_high & f_high & x_mid
        & _ & _ & _ & _ & _ & _ & _ & _ & _ & Hrun).
  cbv zeta in Hrun. rewrite Hstep in Hrun.
  repeat match type of Hrun with
         | _ = (if ?c then _ else _) => destruct c
         end;
    try (injection Hrun as -> _; apply coherent_replaced; exact Hc).
  symmetry in Hrun. eapply coherent_contract; [| | exact Hrun].
  - apply wf_with_nfe. exact Hwf.
  - exact Hc.
Qed.

Lemma coherent_rescale s ratio (log : calls) s' log' :
  well_formed s -> coherent g s ->
  rescale f s ratio log = (Ok s', log') ->
  coherent g s'.
Proof.
  intros Hwf Hc Hrun.
  destruct (rescale_ok f g f_total s ratio log Hwf)
    as (i_min & x & f_min & _ & Hx & Hf & Hxl & Hres).
  rewrite Hrun in Hres. injection Hres as -> _.
  unfold coherent, rescaled, simplex_about. cbn [f_list vertex_list map].
  rewrite (coherent_lookup s i_min x f_min Hc Hx Hf). reflexivity.
Qed.

Lemma coherent_init (x d : vec) :
  coherent g {| N := length x; vertex_list := simplex_about x d;
                f_list := map g (simplex_about x d); dx := d;
                nfe := length x + 1; nrestarts := 0 |}.
Proof. reflexivity. Qed.

End coherence.

(** X13.  The value [minimize] returns is the objective's value at the point it
    returns.  For an objective that does not raise, a seed of [N >= 1]
    coordinates, a step for every axis (or the default steps), at least one
    step between checks and a budget [maxfe > N + 1], the call returns a
    point [x_best] of [N] coordinates and [f_best = f(x_best)]: every
    operation of the run keeps each cached value equal to the objective at
    its vertex. *)
Theorem minimize_returns_value_at_point `{Scalar} (g : vec -> num) (x : vec)
    (dx0 : option vec) (tol : num) (maxfe n_check : Z)
    (delta Kreflect Kextend Kcontract : num) (log : calls) :
  1 <= length x ->
  match dx0 with Some d => length x <= length d | None => True end ->
  (1 <= n_check)%Z ->
  (Z.of_nat (length x) + 1 < maxfe)%Z ->
  exists x_best f_best converged n_evals n_restarts log',
    (forall fuel, Z.to_nat maxfe <= fuel ->
       minimize (total g) fuel x dx0 tol maxfe n_check delta Kreflect Kextend Kcontract log
       = (Ok (x_best, f_best, converged, n_evals, n_restarts), log')) /\
    f_best = g x_best /\ length x_best = length x.
Proof.
  intros Hx Hdx Hcheck Hmax.
  assert (f_total : forall p, total g p = Some (g p)) by reflexivity.
  destruct (minimize_rounds (total g) g f_total tol maxfe n_check delta
              Kreflect Kextend Kcontract Hcheck
              (coherent g) (fun xb fb _ s => fb = g xb /\ length xb = N s))
    with (x := x) (dx0 := dx0) (log := log)
    as (xb & fb & c & s_fin & log' & Hwff & HNf & _ & [Hval Hlen] & _ & Hrun).
  - intros s w s' w' Hwf Hc Hstep.
    exact (coherent_take_a_step (total g) g f_total s _ _ _ w s' w' Hwf Hc Hstep).
  - intros s n Hc. exact Hc.
  - intros s0 log0 s1 log1 i xb fb _ _ _ _ Hwf1 Hc1 _ Hxb Hfb.
    assert (Hgoal : fb = g xb /\ length xb = N s1).
    { split; [exact (coherent_lookup g s1 i xb fb Hc1 Hxb Hfb) |].
      exact (proj1 (Forall_lookup _ _) (wf_dim s1 Hwf1) i xb Hxb). }
    cbv zeta. split; [intros _; exact Hgoal |]. split.
    + intros _ _. exact Hgoal.
    + intros _ _ s2 log2 Hres.
      match type of Hres with
      | rescale _ ?s1' _ ?w = _ =>
          destruct (rescale_ok (total g) g f_total s1' delta w (wf_with_nfe _ _ Hwf1))
            as (i_min & x' & f_min & _ & _ & _ & _ & Hres')
      end.
      split.
      * eapply (coherent_rescale (total g) g f_total);
          [apply wf_with_nfe; exact Hwf1 | exact Hc1 | exact Hres].
      * rewrite Hres in Hres'. injection Hres' as -> _. exact Hgoal.
  - exact Hx.
  - destruct dx0 as [d |]; [exact Hdx | rewrite repeat_length; lia].
  - exact Hmax.
  - apply coherent_init.
  - exists xb, fb, c, (nfe s_fin), (nrestarts s_fin), log'.
    split; [exact Hrun |]. split; [exact Hval | congruence].
Qed.

Section coherence_binary64.
Local Existing Instance float64.

Lemma minimize_returns_value_at_point_witness :
  exists x_best f_best converged n_evals n_restarts log',
    (forall fuel, 300 <= fuel ->
       minimize (total test_fun_1) fuel [0; 0; 0]%float None 1e-6%float 300 20 0.001%float
         1%float 2%float 0.5%float []
       = (Ok (x_best, f_best, converged, n_evals, n_restarts), log')) /\
    f_best = test_fun_1 x_best /\ length x_best = 3.
Proof.
  apply (minimize_returns_value_at_point (H := float64) test_fun_1 [0; 0; 0]%float None
           1e-6%float 300 20 0.001%float 1%float 2%float 0.5%float []).
  - simpl. lia.
  - exact I.
  - lia.
  - simpl. lia.
Defined.

End coherence_binary64.

(** ** Further properties: the budget and the convergence flag *)

Section run_facts.
Context `{Scalar}.
Variable f : vec -> option num.
Variable g : vec -> num.
Hypothesis f_total : forall p, f p = Some (g p).
Implicit Type s : NMSimplex vec.

Lemma probed_length f_min ps : length (fst (probed g f_min ps)) <= length ps.
Proof.
  induction ps as [| p ps IH]; simpl; [lia |].
  destruct (ltb (g p) f_min); simpl; lia.
Qed.

Lemma take_a_step_keeps s Kreflect Kextend Kcontract (log : calls) s' log' :
  well_formed s ->
  take_a_step f s Kreflect Kextend Kcontract log = (Ok s', log') ->
  well_formed s' /\ N s' = N s /\ dx s' = dx s /\ nrestarts s' = nrestarts s.
Proof.
  intros Hwf Hstep.
  destruct (take_a_step_shape f g f_total s Kreflect Kextend Kcontract log Hwf)
    as (s2 & new & _ & _ & Hstep2 & _ & _ & Hwf2 & HN2 & Hdx2 & Hnr2 & _).
  rewrite Hstep in Hstep2. injection Hstep2 as -> _. auto.
Qed.

Lemma rescale_keeps s ratio (log : calls) s' log' :
  well_formed s ->
  rescale f s ratio log = (Ok s', log') ->
  N s' = N s /\ dx s' = map (fun d => mul d ratio) (dx s) /\
  nrestarts s' = nrestarts s + 1 /\ nfe s' = nfe s + N s.
Proof.
  intros Hwf Hrun.
  destruct (rescale_ok f g f_total s ratio log Hwf)
    as (i_min & x & f_min & _ & _ & _ & _ & Hres).
  rewrite Hrun in Hres. injection Hres as -> _. repeat split.
Qed.

End run_facts.

(** X14.  The evaluation budget is checked between rounds only.  Under the
    conditions of a normal run, [minimize] reports [converged = False] only
    when the number of evaluations has reached [maxfe]; and the number of
    evaluations it reports can exceed [maxfe], by less than one round:
    [n_check] steps of at most [N + 3] evaluations each, the [2N] probes of
    the local-minimum test and the [N] evaluations of a restart. *)
Theorem minimize_evaluation_budget `{Scalar} (g : vec -> num) (x : vec)
    (dx0 : option vec) (tol : num) (maxfe n_check : Z)
    (delta Kreflect Kextend Kcontract : num) (log : calls) :
  1 <= length x ->
  match dx0 with Some d => length x <= length d | None => True end ->
  (1 <= n_check)%Z ->
  (Z.of_nat (length x) + 1 < maxfe)%Z ->
  exists x_best f_best converged n_evals n_restarts log',
    (forall fuel, Z.to_nat maxfe <= fuel ->
       minimize (total g) fuel x dx0 tol maxfe n_check delta Kreflect Kextend Kcontract log
       = (Ok (x_best, f_best, converged, n_evals, n_restarts), log')) /\
    (converged = false -> (maxfe <= Z.of_nat n_evals)%Z) /\
    (Z.of_nat n_evals
     < maxfe + n_check * (Z.of_nat (length x) + 3) + 3 * Z.of_nat (length x))%Z.
Proof.
  intros Hx Hdx Hcheck Hmax.
  assert (f_total : forall p, total g p = Some (g p)) by reflexivity.
  destruct (minimize_rounds (total g) g f_total tol maxfe n_check delta
              Kreflect Kextend Kcontract Hcheck
              (fun s => N s = length x)
              (fun _ _ _ s =>
                 (Z.of_nat (nfe s)
                  < maxfe + n_check * (Z.of_nat (length x) + 3)
                    + 3 * Z.of_nat (length x))%Z))
    with (x := x) (dx0 := dx0) (log := log)
    as (xb & fb & c & s_fin & log' & _ & _ & _ & Hbound & Hc & Hrun).
  - intros s w s' w' Hwf HN Hstep.
    destruct (take_a_step_keeps (total g) g f_total s _ _ _ w s' w' Hwf Hstep)
      as (_ & HN' & _). congruence.
  - intros s n HN. exact HN.
  - intros s0 log0 s1 log1 i xb fb Hwf0 HN0 Hlt Hsteps Hwf1 HN1 _ _ _.
    destruct (take_steps_shape (total g) g f_total Kreflect Kextend Kcontract
                (Z.to_nat n_check) s0 log0 Hwf0)
      as (s1' & log1' & Hsteps' & _ & _ & _ & _ & _ & Hup).
    rewrite Hsteps in Hsteps'. injection Hsteps' as <- _.
    cbv zeta.
    pose proof (probed_length g fb (probes xb (dx s1) delta (seq 0 (N s1)))) as Hpl.
    rewrite probes_length, length_seq in Hpl.
    rewrite HN0 in Hup.
    apply Nat2Z.inj_le in Hup.
    rewrite Nat2Z.inj_add, Nat2Z.inj_mul, Z2Nat.id, Nat2Z.inj_add in Hup by lia.
    change (Z.of_nat 3) with 3%Z in Hup.
    assert (Hpos : (0 <= n_check * (Z.of_nat (length x) + 3))%Z) by nia.
    revert Hup Hpos. generalize (n_check * (Z.of_nat (length x) + 3))%Z. intros steps Hup Hpos.
    split; [intros _; lia |]. split.
    + intros _ _. cbn [nfe with_nfe]. lia.
    + intros _ _ s2 log2 Hres.
      destruct (rescale_keeps (total g) g f_total _ _ _ s2 log2 (wf_with_nfe _ _ Hwf1) Hres)
        as (HN2 & _ & _ & Hnfe).
      split; [rewrite HN2; exact HN1 |].
      rewrite Hnfe. cbn [nfe with_nfe N]. lia.
  - exact Hx.
  - destruct dx0 as [d |]; [exact Hdx | rewrite repeat_length; lia].
  - exact Hmax.
  - reflexivity.
  - exists xb, fb, c, (nfe s_fin), (nrestarts s_fin), log'.
    split; [exact Hrun |]. split; [exact Hc | exact Hbound].
Qed.

(** X15.  What [converged = True] means.  Under the conditions of a normal run,
    when [minimize] reports convergence the point it returns has passed the
    local-minimum test: on every axis [j], neither probe about [x_best] - at
    [x_best[j] + d[j]*delta] and then at that coordinate minus
    [d[j]*delta*2] - has a value strictly below [f_best], where [d] is the
    step vector of the run at that time: the initial steps multiplied by
    [delta] once for every restart reported. *)
Theorem minimize_converged_means_probed `{Scalar} (g : vec -> num) (x : vec)
    (dx0 : option vec) (tol : num) (maxfe n_check : Z)
    (delta Kreflect Kextend Kcontract : num) (log : calls) :
  let d0 := match dx0 with Some d => d | None => repeat tenth (length x) end in
  1 <= length x ->
  length x <= length d0 ->
  (1 <= n_check)%Z ->
  (Z.of_nat (length x) + 1 < maxfe)%Z ->
  exists x_best f_best converged n_evals n_restarts log',
    (forall fuel, Z.to_nat maxfe <= fuel ->
       minimize (total g) fuel x dx0 tol maxfe n_check delta Kreflect Kextend Kcontract log
       = (Ok (x_best, f_best, converged, n_evals, n_restarts), log')) /\
    let d := Nat.iter n_restarts (map (fun c => mul c delta)) d0 in
    (converged = true ->
     forall j, j < length x ->
       ltb (g (probe_up x_best d delta j)) f_best = false /\
       ltb (g (probe_down x_best d delta j)) f_best = false).
Proof.
  intros d0 Hx Hdx Hcheck Hmax.
  assert (f_total : forall p, total g p = Some (g p)) by reflexivity.
  destruct (minimize_rounds (total g) g f_total tol maxfe n_check delta
              Kreflect Kextend Kcontract Hcheck
              (fun s => N s = length x /\
                        dx s = Nat.iter (nrestarts s) (map (fun c => mul c delta)) d0)
              (fun xb fb c s =>
                 c = true ->
                 forall p, p ∈ probes xb (dx s) delta (seq 0 (N s)) -> ltb (g p) fb = false))
    with (x := x) (dx0 := dx0) (log := log)
    as (xb & fb & c & s_fin & log' & _ & _ & [HNf Hdxf] & Hprobes & _ & Hrun).
  - intros s w s' w' Hwf [HN Hd] Hstep.
    destruct (take_a_step_keeps (total g) g f_total s _ _ _ w s' w' Hwf Hstep)
      as (_ & HN' & Hdx' & Hnr'). split; congruence.
  - intros s n HR. exact HR.
  - intros s0 log0 s1 log1 i xb fb _ _ _ _ Hwf1 [HN1 Hd1] _ _ _. cbv zeta.
    split; [discriminate |]. split.
    + intros _ Hr _ p Hp. cbn [dx N with_nfe] in Hp.
      exact (proj1 (probed_true g fb _) Hr p Hp).
    + intros _ _ s2 log2 Hres.
      destruct (rescale_keeps (total g) g f_total _ _ _ s2 log2 (wf_with_nfe _ _ Hwf1) Hres)
        as (HN' & Hdx' & Hnr' & _).
      cbn [N dx nrestarts with_nfe] in HN', Hdx', Hnr'.
      split; [| discriminate].
      split; [congruence |]. rewrite Hdx', Hnr', Nat.add_1_r, Hd1. reflexivity.
  - exact Hx.
  - exact Hdx.
  - exact Hmax.
  - split; reflexivity.
  - exists xb, fb, c, (nfe s_fin), (nrestarts s_fin), log'.
    split; [exact Hrun |].
    intros d Hc j Hj. subst d. rewrite <- Hdxf.
    destruct (probes_lookup xb (dx s_fin) delta (seq 0 (N s_fin)) j j) as [Hup Hdown].
    { apply lookup_seq_lt. lia. }
    split; apply (Hprobes Hc); eapply list_elem_of_lookup_2; eassumption.
Qed.

Section run_binary64.
Local Existing Instance float64.

Lemma minimize_evaluation_budget_witness :
  exists x_best f_best converged n_evals n_restarts log',
    (forall fuel, 300 <= fuel ->
       minimize (total test_fun_1) fuel [0; 0; 0]%float None 1e-6%float 300 20 0.001%float
         1%float 2%float 0.5%float []
       = (Ok (x_best, f_best, converged, n_evals, n_restarts), log')) /\
    (converged = false -> (300 <= Z.of_nat n_evals)%Z) /\
    (Z.of_nat n_evals < 300 + 20 * (3 + 3) + 3 * 3)%Z.
Proof.
  apply (minimize_evaluation_budget (H := float64) test_fun_1 [0; 0; 0]%float None
           1e-6%float 300 20 0.001%float 1%float 2%float 0.5%float []).
  - simpl. lia.
  - exact I.
  - lia.
  - simpl. lia.
Defined.

(* The bowl with floor at (0.5, 0.25), from the origin with steps 0.5: the
   run converges without a restart, and both probes on either axis are not
   below the value returned. *)
Lemma minimize_converged_means_probed_witness :
  exists x_best f_best n_evals log',
    minimize (total (bowl 0.25)) 300 [0; 0]%float (Some [0.5; 0.5]%float) 1e-6%float
      300 20 0.001%float 1%float 2%float 0.5%float []
    = (Ok (x_best, f_best, true, n_evals, 0), log') /\
    forall j, j < 2 ->
      PrimFloat.ltb (bowl 0.25 (probe_up x_best [0.5; 0.5]%float 0.001%float j)) f_best
      = false /\
      PrimFloat.ltb (bowl 0.25 (probe_down x_best [0.5; 0.5]%float 0.001%float j)) f_best
      = false.
Proof.
  destruct (minimize_converged_means_probed (H := float64) (bowl 0.25) [0; 0]%float
              (Some [0.5; 0.5]%float) 1e-6%float 300 20 0.001%float 1%float 2%float
              0.5%float [])
    as (xb & fb & c & ne & nr & log' & Hrun & Hprobe).
  - simpl. lia.
  - simpl. lia.
  - lia.
  - simpl. lia.
  - specialize (Hrun 300 ltac:(simpl; lia)).
    assert (Hflags : c = true /\ nr = 0).
    { revert Hrun. vm_compute. intros [= _ _ <- _ <- _]. split; reflexivity. }
    destruct Hflags as [-> ->].
    exists xb, fb, ne, log'. split; [exact Hrun |].
    exact (Hprobe eq_refl).
Defined.

End run_binary64.

(** ** Further properties: runs that cannot return *)

(** X16.  The budget spent by the constructor.  When [maxfe <= N + 1] the
    constructor's [N + 1] evaluations already exhaust the budget: the loop
    body never runs, [x_best] is never assigned, and the [return] statement
    raises [UnboundLocalError] - after the objective has been evaluated at
    every vertex of the initial simplex, for any [tol], [n_check] and
    [delta]. *)
Theorem minimize_budget_spent_before_first_round `{Scalar} (g : vec -> num) (x : vec)
    (dx0 : option vec) (tol : num) (maxfe n_check : Z)
    (delta Kreflect Kextend Kcontract : num) (log : calls) (fuel : nat) :
  let d := match dx0 with Some d => d | None => repeat tenth (length x) end in
  length x <= length d ->
  (maxfe <= Z.of_nat (length x) + 1)%Z ->
  minimize (total g) fuel x dx0 tol maxfe n_check delta Kreflect Kextend Kcontract log
  = (Raise UnboundLocalError, log ++ simplex_about x d).
Proof.
  intros d Hd Hmax. unfold minimize. fold d.
  rewrite (bind_ok _ _ _ _ _
             (NMSimplex_init_ok (total g) g (fun _ => eq_refl) x d log Hd)).
  assert (Hcond : (Z.of_nat (length x + 1) <? maxfe)%Z = false) by (apply Z.ltb_ge; lia).
  destruct fuel; cbn [minimize_loop nfe negb andb]; rewrite Hcond; reflexivity.
Qed.


Section cannot_return_binary64.
Local Existing Instance float64.

Lemma minimize_budget_spent_before_first_round_witness :
  minimize (total test_fun_1) 10 [0; 0]%float (Some [0.5; 0.5]%float) 1e-6%float 3 20
    0.001%float 1%float 2%float 0.5%float []
  = (Raise UnboundLocalError, [[0; 0]; [0.5; 0]; [0; 0.5]]%float).
Proof.
  apply (minimize_budget_spent_before_first_round (H := float64) test_fun_1 [0; 0]%float
           (Some [0.5; 0.5]%float) 1e-6%float 3 20 0.001%float 1%float 2%float 0.5%float
           [] 10).
  - simpl. lia.
  - simpl. lia.
Defined.


End cannot_return_binary64.

(** ** Further properties: exceptions of the objective *)

Section objective_failure.
Context `{Scalar}.
Variable f : vec -> option num.
Implicit Type self s smplx : NMSimplex vec.

Lemma halts_quiet {A} (m : M calls A) : quiet m -> halts_at_failure f m.
Proof.
  intros Hq log. exists []. rewrite (Hq log), app_nil_r. split; [reflexivity |].
  left. constructor.
Qed.

Lemma halts_ret {A} (a : A) : halts_at_failure f (ret a).
Proof. apply halts_quiet, quiet_ret. Qed.

Lemma halts_call p : halts_at_failure f (call f p).
Proof.
  intros log. exists [p]. unfold call. destruct (f p) as [y |] eqn:Hp; simpl.
  - split; [reflexivity |]. left. repeat constructor. congruence.
  - split; [reflexivity |]. right. exists [], p. repeat split; auto.
Qed.

Lemma halts_bind {A B} (m : M calls A) (k : A -> M calls B) :
  halts_at_failure f m -> (forall a, halts_at_failure f (k a)) ->
  halts_at_failure f (bind m k).
Proof.
  intros Hm Hk log. unfold bind.
  destruct (Hm log) as (new1 & Hlog1 & H1).
  destruct (m log) as [[a | e |] log1] eqn:Hrun; simpl in *.
  - subst log1. destruct H1 as [H1 | (pre & p & _ & _ & _ & [=])].
    destruct (Hk a (log ++ new1)) as (new2 & Hlog2 & H2).
    exists (new1 ++ new2). rewrite app_assoc. split; [exact Hlog2 |].
    destruct H2 as [H2 | (pre & p & -> & Hpre & Hp & Hout)].
    + left. apply Forall_app. split; assumption.
    + right. exists (new1 ++ pre), p. rewrite app_assoc.
      split; [reflexivity |]. split; [apply Forall_app; split; assumption |].
      split; assumption.
  - exists new1. split; [exact Hlog1 |].
    destruct H1 as [H1 | (pre & p & Hnew & Hpre & Hp & [= ->])]; [left; exact H1 |].
    right. exists pre, p. repeat split; assumption.
  - exists new1. split; [exact Hlog1 |].
    destruct H1 as [H1 | (pre & p & _ & _ & _ & [=])]. left. exact H1.
Qed.

Lemma halts_for_in {A} (l : list nat) (body : nat -> A -> M calls A) a :
  (forall i a, halts_at_failure f (body i a)) -> halts_at_failure f (for_in l body a).
Proof.
  intros Hbody. revert a. induction l as [| i l IH]; intros a; simpl.
  - apply halts_ret.
  - apply halts_bind; [apply Hbody | exact IH].
Qed.

Ltac halts :=
  repeat match goal with
    | |- halts_at_failure _ (if ?b then _ else _) => destruct b
    | |- halts_at_failure _ (let _ := _ in _) => cbv zeta
    | |- halts_at_failure _ (call _ _) => apply halts_call
    | |- halts_at_failure _ (bind _ _) => apply halts_bind
    | |- halts_at_failure _ (for_in _ _ _) => apply halts_for_in
    | |- halts_at_failure _ (for_range _ _ _) => apply halts_for_in
    | |- halts_at_failure _ _ => solve [apply halts_quiet; prove_quiet]
    | |- forall _, _ => intro
    end.

Lemma halts_init x d : halts_at_failure f (NMSimplex_init f x d).
Proof. unfold NMSimplex_init. halts. Qed.

Lemma halts_contract self i_con : halts_at_failure f (contract_about_one_point f self i_con).
Proof. unfold contract_about_one_point. halts. Qed.

Lemma halts_rescale self ratio : halts_at_failure f (rescale f self ratio).
Proof. unfold rescale. halts. Qed.

Lemma halts_test_for_minimum_axes js :
  forall self i_min delta f_min,
    halts_at_failure f (test_for_minimum_axes f js self i_min delta f_min).
Proof.
  induction js as [| j js IH]; intros self i_min delta f_min;
    cbn [test_for_minimum_axes]; [apply halts_ret |].
  halts. apply IH.
Qed.

Lemma halts_test_for_minimum self i_min delta :
  halts_at_failure f (test_for_minimum f self i_min delta).
Proof.
  unfold test_for_minimum. apply halts_bind; [apply halts_quiet; prove_quiet |].
  intros f_min. apply halts_test_for_minimum_axes.
Qed.

Lemma halts_take_a_step self Kreflect Kextend Kcontract :
  halts_at_failure f (take_a_step f self Kreflect Kextend Kcontract).
Proof.
  unfold take_a_step. halts; apply halts_contract.
Qed.

Lemma halts_minimize_loop fuel tol maxfe n_check delta Kreflect Kextend Kcontract :
  forall converged best smplx,
    halts_at_failure f (minimize_loop f fuel tol maxfe n_check delta Kreflect Kextend
                          Kcontract converged best smplx).
Proof.
  induction fuel as [| fuel IH]; intros converged best smplx;
    cbn [minimize_loop];
    destruct (negb converged && (Z.of_nat (nfe smplx) <? maxfe)%Z).
  - intros log. exists []. simpl. rewrite app_nil_r. split; [reflexivity |].
    left. constructor.
  - destruct best as [[xb fb] |]; apply halts_quiet; prove_quiet.
  - apply halts_bind; [apply halts_for_in; intros; apply halts_take_a_step |].
    intros s1. do 4 (apply halts_bind; [apply halts_quiet; prove_quiet | intros ?]).
    cbv zeta. destruct (ltb _ tol); [| apply IH].
    apply halts_bind; [apply halts_test_for_minimum |].
    intros [b s2]. cbn [fst snd].
    destruct (negb b); [| apply IH].
    apply halts_bind; [apply halts_rescale | intros s3; apply IH].
  - destruct best as [[xb fb] |]; apply halts_quiet; prove_quiet.
Qed.

Lemma halts_minimize fuel x dx0 tol maxfe n_check delta Kreflect Kextend Kcontract :
  halts_at_failure f (minimize f fuel x dx0 tol maxfe n_check delta Kreflect Kextend
                        Kcontract).
Proof.
  unfold minimize. cbv zeta.
  apply halts_bind; [apply halts_init | intros s; apply halts_minimize_loop].
Qed.

End objective_failure.

(** X18.  An exception of the objective ends the run.  Whatever the objective and
    the parameters, and however the call ends, every call [minimize] makes
    of the objective returns, except possibly the last one; when that last
    call raises, [minimize] raises too - it makes no further call and
    returns no result.  So a result is only ever returned by a run in which
    every call of the objective returned. *)
Theorem minimize_stops_at_objective_failure `{Scalar} (f : vec -> option num)
    (fuel : nat) (x : vec) (dx0 : option vec) (tol : num) (maxfe n_check : Z)
    (delta Kreflect Kextend Kcontract : num) (log : calls) :
  let run := minimize f fuel x dx0 tol maxfe n_check delta Kreflect Kextend Kcontract log in
  exists new,
    snd run = log ++ new /\
    (Forall (fun p => f p <> None) new \/
     exists pre p, new = pre ++ [p] /\ Forall (fun q => f q <> None) pre /\
                   f p = None /\ fst run = Raise ObjectiveFailure) /\
    (forall r, fst run = Ok r -> Forall (fun p => f p <> None) new).
Proof.
  intros run.
  destruct (halts_minimize f fuel x dx0 tol maxfe n_check delta Kreflect Kextend Kcontract
              log) as (new & Hlog & Hnew).
  exists new. split; [exact Hlog |]. split; [exact Hnew |].
  intros r Hr. destruct Hnew as [Hall | (pre & p & _ & _ & _ & Hout)]; [exact Hall |].
  subst run. rewrite Hr in Hout. discriminate Hout.
Qed.

(** ** Further properties: the arrays handed over *)

(** X19.  [replace_vertex] stores a copy and [get_vertex] returns a copy.  After
    [replace_vertex(i, x, fvalue)] slot [i] refers to a new array holding
    the elements [x] had, and [f_list[i]] is [fvalue].  When the caller then
    overwrites [x] in place, [get_vertex(i)] still yields the elements that
    were stored - in yet another new array, so that no array of the simplex
    is ever shared with the caller. *)
Theorem replace_vertex_stores_a_copy `{Scalar} (self : NMSimplex Ref.loc) (i : nat)
    (x : Ref.loc) (y : num) (v v' : vec) (h : Ref.store) :
  h !! x = Some v ->
  i < length (vertex_list self) -> i < length (f_list self) ->
  exists s' h1 h2 l h3,
    Ref.replace_vertex self i x y h = (Ok s', h1) /\
    vertex_list s' !! i = Some (length h) /\ f_list s' !! i = Some y /\
    h1 !! length h = Some v /\
    Ref.np_write x v' h1 = (Ok tt, h2) /\
    Ref.get_vertex s' i h2 = (Ok l, h3) /\
    l = length h + 1 /\
    h3 !! l = Some v /\ h3 !! length h = Some v /\ h3 !! x = Some v'.
Proof.
  intros Hx Hi Hfi.
  pose proof (lookup_lt_Some _ _ _ Hx) as Hxlt.
  assert (Hnew : (h ++ [v]) !! length h = Some v).
  { rewrite lookup_app_r by lia. rewrite Nat.sub_diag. reflexivity. }
  set (h2 := <[x := v']> (h ++ [v])).
  assert (Hlen2 : length h2 = length h + 1).
  { subst h2. rewrite length_insert, length_app. simpl. lia. }
  assert (Hkeep : h2 !! length h = Some v).
  { subst h2. rewrite list_lookup_insert_ne by lia. exact Hnew. }
  eexists _, (h ++ [v]), h2, (length h + 1), (h2 ++ [v]).
  split.
  { unfold Ref.replace_vertex, Ref.np_copy, Ref.np_new, Ref.np_read, bind. rewrite Hx.
    unfold py_set. rewrite decide_True by exact Hi. cbn [ret f_list with_vertex_list].
    rewrite decide_True by exact Hfi. reflexivity. }
  cbn [vertex_list f_list with_f_list with_vertex_list].
  split; [apply list_lookup_insert_eq; exact Hi |].
  split; [apply list_lookup_insert_eq; exact Hfi |].
  split; [exact Hnew |].
  split.
  { unfold Ref.np_write. rewrite decide_True; [reflexivity |].
    rewrite length_app. simpl. lia. }
  split.
  { unfold Ref.get_vertex, Ref.np_copy, Ref.np_new, Ref.np_read, bind, py_get.
    cbn [vertex_list f_list with_f_list with_vertex_list].
    rewrite list_lookup_insert_eq by exact Hi. cbn [ret]. rewrite Hkeep, Hlen2.
    reflexivity. }
  split; [reflexivity |].
  split; [rewrite lookup_app_r by lia; rewrite Hlen2, Nat.sub_diag; reflexivity |].
  split; [rewrite lookup_app_l by lia; exact Hkeep |].
  rewrite lookup_app_l by lia. subst h2. apply list_lookup_insert_eq.
  rewrite length_app. simpl. lia.
Qed.


Section fresh_result.
Context `{Scalar}.
Variable f : vec -> option num.
Variable base : nat.
Implicit Type self smplx : NMSimplex Ref.loc.

Local Hint Resolve quiet_np_read quiet_np_item quiet_call_ref : quiet.

Lemma framed_minimize_loop_result fuel tol maxfe n_check delta Kreflect Kextend Kcontract :
  forall converged best smplx,
    base <= dx smplx ->
    (forall xb fb, best = Some (xb, fb) -> base <= xb) ->
    framed base (Ref.minimize_loop f fuel tol maxfe n_check delta Kreflect Kextend Kcontract
                   converged best smplx)
      (fun r => base <= fst (fst (fst (fst r)))).
Proof.
  induction fuel as [| fuel IH]; intros converged best smplx Hs Hbest;
    cbn [Ref.minimize_loop];
    destruct (negb converged && (Z.of_nat (nfe smplx) <? maxfe)%Z).
  - intros h Hh. simpl. split; [lia |]. split; [reflexivity |]. intros a [=].
  - destruct best as [[xb fb] |]; [| apply framed_raise].
    apply framed_ret. cbn [fst]. apply (Hbest xb fb). reflexivity.
  - apply (framed_bind _ _ _ (fun s => base <= dx s)).
    { apply (framed_for_in _ _ _ (fun s => base <= dx s)); [| exact Hs].
      intros i s Hsi. apply framed_take_a_step. exact Hsi. }
    intros s1 Hs1.
    apply (framed_bind _ _ _ (fun _ => True)); [apply framed_quiet; prove_quiet | intros i_best _].
    apply (framed_bind _ _ _ (fun l => base <= l)); [apply framed_get_vertex |].
    intros v _.
    apply (framed_bind _ _ _ (fun l => base <= l)); [apply framed_np_copy |].
    intros x_best Hxb.
    apply (framed_bind _ _ _ (fun _ => True)); [apply framed_quiet; prove_quiet | intros f_best _].
    apply (framed_bind _ _ _ (fun _ => True)); [apply framed_quiet; prove_quiet | intros stats _].
    assert (Hnew : forall xb fb, Some (x_best, f_best) = Some (xb, fb) -> base <= xb).
    { intros xb fb [= <- <-]. exact Hxb. }
    cbv zeta. destruct (ltb _ tol); [| apply IH; assumption].
    apply (framed_bind _ _ _ (fun r => base <= dx (snd r)));
      [apply framed_test_for_minimum; exact Hs1 |].
    intros [b s2] Hs2. cbn [fst snd] in *.
    destruct (negb b); [| apply IH; assumption].
    apply (framed_bind _ _ _ (fun s => base <= dx s)); [apply framed_rescale; exact Hs2 |].
    intros s3 Hs3. apply IH; assumption.
  - destruct best as [[xb fb] |]; [| apply framed_raise].
    apply framed_ret. cbn [fst]. apply (Hbest xb fb). reflexivity.
Qed.

Lemma framed_minimize_result fuel x dx0 tol maxfe n_check delta Kreflect Kextend Kcontract :
  framed base (Ref.minimize f fuel x dx0 tol maxfe n_check delta Kreflect Kextend Kcontract)
    (fun r => base <= fst (fst (fst (fst r)))).
Proof.
  unfold Ref.minimize.
  apply (framed_bind _ _ _ (fun _ => True)); [apply framed_quiet; prove_quiet | intros xv _].
  apply (framed_bind _ _ _ (fun _ => True)).
  { destruct dx0 as [d |]; [apply framed_ret; trivial |].
    apply (framed_weaken _ _ (fun l => base <= l)); [apply framed_np_new | trivial]. }
  intros d _.
  apply (framed_bind _ _ _ (fun s => base <= dx s)); [apply framed_init |].
  intros s Hs. apply framed_minimize_loop_result; [exact Hs | discriminate].
Qed.

End fresh_result.

(** X20.  The array [minimize] returns is a new object.  Whenever [minimize]
    returns, the reference [x_best] names an array that did not exist when
    the call was made: it is not the caller's seed, not the caller's step
    vector, nor any other array of the caller, all of which are left as they
    were. *)
Theorem minimize_returns_a_new_array `{Scalar} (f : vec -> option num) (fuel : nat)
    (x : Ref.loc) (dx0 : option Ref.loc) (tol : num) (maxfe n_check : Z)
    (delta Kreflect Kextend Kcontract : num) (h h' : Ref.store)
    (x_best : Ref.loc) (f_best : num) (converged : bool) (n_evals n_restarts : nat) :
  Ref.minimize f fuel x dx0 tol maxfe n_check delta Kreflect Kextend Kcontract h
  = (Ok (x_best, f_best, converged, n_evals, n_restarts), h') ->
  length h <= x_best /\ h !! x_best = None /\
  x_best <> x /\ dx0 <> Some x_best /\
  forall l v, h !! l = Some v -> h' !! l = Some v.
Proof.
  intros Hrun.
  destruct (framed_minimize_result f (length h) fuel x dx0 tol maxfe n_check delta
              Kreflect Kextend Kcontract h (Nat.le_refl _)) as (Hlen & Htake & Hres).
  rewrite Hrun in Hlen, Htake, Hres. cbn [fst snd] in *.
  specialize (Hres _ eq_refl). cbn [fst] in Hres.
  rewrite firstn_all in Htake.
  split; [exact Hres |]. split; [apply lookup_ge_None_2; exact Hres |].
  assert (Hx : x < length h).
  { unfold Ref.minimize, bind, Ref.np_read in Hrun.
    destruct (h !! x) eqn:Hhx; [| discriminate Hrun].
    apply lookup_lt_Some in Hhx. exact Hhx. }
  split; [lia |]. split.
  - intros ->. 
    unfold Ref.minimize, bind, Ref.np_read in Hrun.
    destruct (h !! x) eqn:Hhx; [| discriminate Hrun]. cbn [ret] in Hrun.
    unfold Ref.NMSimplex_init, bind, Ref.np_read, Ref.np_copy, bind, Ref.np_read in Hrun.
    rewrite Hhx in Hrun.
    destruct (h !! x_best) eqn:Hhb; [| discriminate Hrun].
    apply lookup_lt_Some in Hhb. lia.
  - intros l v Hl. rewrite <- Htake in Hl.
    rewrite lookup_take_lt in Hl; [exact Hl |].
    apply lookup_lt_Some in Hl. rewrite length_take in Hl. lia.
Qed.

Section arrays_binary64.
Local Existing Instance float64.

Lemma replace_vertex_stores_a_copy_witness :
  let s := Build_NMSimplex float64 Ref.loc 1 [1; 2] [1; 0.25]%float 3 2 0 in
  let h := [[7]; [0]; [0.5]; [0.5]]%float in
  exists s' h1 h2 l h3,
    Ref.replace_vertex s 1 0 49%float h = (Ok s', h1) /\
    Ref.np_write 0 [8]%float h1 = (Ok tt, h2) /\
    Ref.get_vertex s' 1 h2 = (Ok l, h3) /\
    h3 !! l = Some [7]%float /\ h3 !! 0 = Some [8]%float.
Proof.
  intros s h.
  destruct (replace_vertex_stores_a_copy (H := float64) s 1 0 49%float [7]%float
              [8]%float h)
    as (s' & h1 & h2 & l & h3 & Hrep & _ & _ & _ & Hw & Hget & _ & Hl & _ & Hx).
  - reflexivity.
  - simpl. lia.
  - simpl. lia.
  - exists s', h1, h2, l, h3. repeat (split; [assumption |]). assumption.
Defined.

Lemma minimize_returns_a_new_array_witness :
  let h := [[0]; [0.5]]%float in
  exists x_best f_best converged n_evals n_restarts h',
    Ref.minimize (total test_fun_1) 100 0 (Some 1) 1e-6%float 300 20 0.001%float
      1%float 2%float 0.5%float h
    = (Ok (x_best, f_best, converged, n_evals, n_restarts), h') /\
    2 <= x_best /\ h' !! 0 = Some [0]%float /\ h' !! 1 = Some [0.5]%float.
Proof.
  intros h.
  eassert (Hrun : Ref.minimize (total test_fun_1) 100 0 (Some 1) 1e-6%float 300 20
                    0.001%float 1%float 2%float 0.5%float h
                  = (Ok (_, _, _, _, _), _)) by (vm_compute; reflexivity).
  destruct (minimize_returns_a_new_array (H := float64) _ _ _ _ _ _ _ _ _ _ _ _ _ _ _ _
              _ _ Hrun) as (Hnew & _ & _ & _ & Hkeep).
  eexists _, _, _, _, _, _. split; [exact Hrun |].
  split; [exact Hnew |]. split; apply Hkeep; reflexivity.
Defined.

End arrays_binary64.

(** ** Further properties: the first test objective *)

Section test_objective.

Lemma test_fun_1_exact_fold (x : list Q) (acc : Q) :
  let F := fold_left (fun sum xi => (sum + (xi - 1) * (xi - 1))%Q) x acc in
  (acc <= F)%Q /\ ((F == acc)%Q <-> Forall (fun c => (c == 1)%Q) x).
Proof.
  revert acc. induction x as [| a x IH]; intros acc; cbn [fold_left].
  - split; [apply Qle_refl |]. split; [constructor | reflexivity].
  - set (t := ((a - 1) * (a - 1))%Q).
    assert (Ht : (0 <= t)%Q).
    { subst t. generalize (a - 1)%Q. intros [n d].
      unfold Qle, Qmult. simpl. rewrite Z.mul_1_r. apply Z.square_nonneg. }
    destruct (IH (acc + t)%Q) as [Hle Hiff]. cbv zeta in *.
    set (F := fold_left (fun sum xi => (sum + (xi - 1) * (xi - 1))%Q) x (acc + t)%Q) in *.
    assert (Hacc : (acc <= acc + t)%Q).
    { apply Qle_trans with (acc + 0)%Q; [rewrite Qplus_0_r; apply Qle_refl |].
      apply Qplus_le_r. exact Ht. }
    split; [apply Qle_trans with (acc + t)%Q; assumption |].
    split.
    + intros HF.
      assert (Ht0 : (t == 0)%Q).
      { apply Qle_antisym; [| exact Ht].
        apply (Qplus_le_r _ _ acc). rewrite Qplus_0_r.
        apply Qle_trans with F; [exact Hle | rewrite HF; apply Qle_refl]. }
      constructor.
      * subst t. apply Qmult_integral in Ht0.
        assert (Ha : (a - 1 == 0)%Q) by tauto.
        apply (Qplus_inj_r _ _ (- (1))). rewrite Qplus_opp_r. exact Ha.
      * apply Hiff. rewrite HF, Ht0. ring.
    + intros Hall. inversion Hall as [| a' x' Ha Hx]; subst.
      assert (Ht0 : (t == 0)%Q) by (subst t; rewrite Ha; reflexivity).
      rewrite (proj2 Hiff Hx), Ht0. ring.
Qed.

(** X21.  [test_fun_1] has its minimum where the module's self-test says.  In
    exact arithmetic its value is never negative and is zero exactly at the
    points whose coordinates are all 1; in binary64 its value at such a
    point, of any dimension, is exactly [0.0]. *)
Theorem test_fun_1_minimum :
  (forall x : list Q,
     (0 <= @test_fun_1 exactQ x)%Q /\
     ((@test_fun_1 exactQ x == 0)%Q <-> Forall (fun c => (c == 1)%Q) x)) /\
  (forall n : nat, @test_fun_1 float64 (repeat 1%float n) = 0%float).
Proof.
  split.
  - intros x. exact (test_fun_1_exact_fold x 0).
  - intros n. unfold test_fun_1.
    change (@zero float64) with 0%float.
    induction n as [| n IH]; [reflexivity |].
    cbn [repeat fold_left].
    replace (@add float64 0%float
               (@mul float64 (@sub float64 1%float (@one float64))
                  (@sub float64 1%float (@one float64)))) with 0%float
      by (vm_compute; reflexivity).
    exact IH.
Qed.

End test_objective.

(** ** Further properties: rounds that change nothing *)

Section idle_rounds.
Context `{Scalar}.
Variable f : vec -> option num.
Implicit Type s smplx : NMSimplex vec.

(** A round without steps in which the scatter is not below [tol] hands the
    simplex and the log on as they were. *)
Lemma minimize_loop_idle fuel tol maxfe n_check delta Kreflect Kextend Kcontract
    smplx (log : calls) :
  well_formed smplx -> 1 <= N smplx ->
  (n_check <= 0)%Z ->
  (Z.of_nat (nfe smplx) < maxfe)%Z ->
  ltb (sqrt (div (sum_sq (mean_of smplx) (f_list smplx)) (of_nat (N smplx)))) tol = false ->
  forall best,
    minimize_loop f fuel tol maxfe n_check delta Kreflect Kextend Kcontract
      false best smplx log
    = (OutOfFuel, log).
Proof.
  intros Hwf HN Hcheck Hlt Htol.
  assert (Hcond : negb false && (Z.of_nat (nfe smplx) <? maxfe)%Z = true).
  { apply andb_true_iff. split; [reflexivity | apply Z.ltb_lt; exact Hlt]. }
  destruct (lowest_ok smplx log (wf_values smplx Hwf)) as (i_best & f_best & Hlow & Hfb & _).
  assert (Hib : i_best < N smplx + 1).
  { rewrite <- (wf_values smplx Hwf). apply lookup_lt_Some with f_best. exact Hfb. }
  destruct (wf_vertex_lookup smplx i_best Hwf Hib) as (x_best & Hxb & _).
  pose proof (f_statistics_ok smplx log (wf_values smplx Hwf) ltac:(lia)) as Hstats.
  induction fuel as [| fuel IH]; intros best; cbn [minimize_loop]; rewrite Hcond.
  - reflexivity.
  - replace (Z.to_nat n_check) with 0 by lia.
    unfold for_range. cbn [seq for_in]. unfold bind at 1. cbn [ret].
    rewrite (bind_ok _ _ _ _ _ Hlow).
    unfold get_vertex.
    rewrite (bind_ok _ _ _ _ _ (py_get_ok _ _ _ _ Hxb)).
    rewrite (bind_ok _ _ _ _ _ (py_get_ok _ _ _ _ Hfb)).
    rewrite (bind_ok _ _ _ _ _ Hstats). cbn [snd]. rewrite Htol.
    apply IH.
Qed.

End idle_rounds.

(** X22.  No step between the checks.  With [n_check <= 0] the inner loop makes
    no step, so a round changes nothing unless the scatter of the cached
    values is below [tol].  For an objective that does not raise, a seed of
    [N >= 1] coordinates and a budget [maxfe > N + 1], when the standard
    deviation of the initial simplex is not below [tol] the [while] loop
    never ends: the model runs out of fuel whatever fuel it is given, and
    the objective is not called again after the constructor. *)
Theorem minimize_without_steps_never_returns `{Scalar} (g : vec -> num) (x : vec)
    (dx0 : option vec) (tol : num) (maxfe n_check : Z)
    (delta Kreflect Kextend Kcontract : num) (log : calls) (fuel : nat) :
  let d := match dx0 with Some d => d | None => repeat tenth (length x) end in
  let values := map g (simplex_about x d) in
  let mean := div (py_sum values) (of_nat (length x + 1)) in
  1 <= length x -> length x <= length d ->
  (n_check <= 0)%Z ->
  (Z.of_nat (length x) + 1 < maxfe)%Z ->
  ltb (sqrt (div (sum_sq mean values) (of_nat (length x)))) tol = false ->
  minimize (total g) fuel x dx0 tol maxfe n_check delta Kreflect Kextend Kcontract log
  = (OutOfFuel, log ++ simplex_about x d).
Proof.
  intros d values mean Hx Hd Hcheck Hmax Htol.
  unfold minimize. fold d.
  rewrite (bind_ok _ _ _ _ _
             (NMSimplex_init_ok (total g) g (fun _ => eq_refl) x d log Hd)).
  apply (minimize_loop_idle (total g)).
  - apply wf_simplex_about. exact Hd.
  - exact Hx.
  - exact Hcheck.
  - cbn [nfe]. lia.
  - exact Htol.
Qed.

(** X23.  A tolerance nothing is below.  When no standard deviation compares
    below [tol] - [tol] is NaN, say - the local-minimum test is never made:
    under the conditions of a normal run [minimize] goes on until the budget
    is spent and returns [converged = False] with no restart and at least
    [maxfe] evaluations. *)
Theorem minimize_with_unreachable_tolerance `{Scalar} (g : vec -> num) (x : vec)
    (dx0 : option vec) (tol : num) (maxfe n_check : Z)
    (delta Kreflect Kextend Kcontract : num) (log : calls) :
  (forall y, ltb (sqrt y) tol = false) ->
  1 <= length x ->
  match dx0 with Some d => length x <= length d | None => True end ->
  (1 <= n_check)%Z ->
  (Z.of_nat (length x) + 1 < maxfe)%Z ->
  exists x_best f_best n_evals log',
    (forall fuel, Z.to_nat maxfe <= fuel ->
       minimize (total g) fuel x dx0 tol maxfe n_check delta Kreflect Kextend Kcontract log
       = (Ok (x_best, f_best, false, n_evals, 0), log')) /\
    (maxfe <= Z.of_nat n_evals)%Z.
Proof.
  intros Hnever Hx Hdx Hcheck Hmax.
  assert (f_total : forall p, total g p = Some (g p)) by reflexivity.
  destruct (minimize_rounds (total g) g f_total tol maxfe n_check delta
              Kreflect Kextend Kcontract Hcheck
              (fun s => nrestarts s = 0) (fun _ _ c _ => c = false))
    with (x := x) (dx0 := dx0) (log := log)
    as (xb & fb & c & s_fin & log' & _ & _ & Hnr & -> & Hc & Hrun).
  - intros s w s' w' Hwf Hs Hstep.
    destruct (take_a_step_keeps (total g) g f_total s _ _ _ w s' w' Hwf Hstep)
      as (_ & _ & _ & Hnr). congruence.
  - intros s n Hs. exact Hs.
  - intros s0 log0 s1 log1 i xb fb _ _ _ _ _ Hnr1 _ _ _. cbv zeta.
    split; [reflexivity |]. split.
    + intros Hlt. rewrite Hnever in Hlt. discriminate Hlt.
    + intros Hlt. rewrite Hnever in Hlt. discriminate Hlt.
  - exact Hx.
  - destruct dx0 as [d |]; [exact Hdx | rewrite repeat_length; lia].
  - exact Hmax.
  - reflexivity.
  - exists xb, fb, (nfe s_fin), log'. rewrite <- Hnr. split; [exact Hrun |].
    apply Hc. reflexivity.
Qed.

Section idle_rounds_binary64.
Local Existing Instance float64.

Lemma minimize_without_steps_never_returns_witness :
  minimize (total test_fun_1) 1000 [0]%float (Some [0.5]%float) 1e-6%float 300 0
    0.001%float 1%float 2%float 0.5%float []
  = (OutOfFuel, [[0]; [0.5]]%float).
Proof.
  apply (minimize_without_steps_never_returns (H := float64) test_fun_1 [0]%float
           (Some [0.5]%float) 1e-6%float 300 0 0.001%float 1%float 2%float 0.5%float []
           1000).
  - simpl. lia.
  - simpl. lia.
  - lia.
  - simpl. lia.
  - vm_compute. reflexivity.
Defined.

Lemma minimize_with_unreachable_tolerance_witness :
  exists x_best f_best n_evals log',
    (forall fuel, 300 <= fuel ->
       minimize (total test_fun_1) fuel [0; 0; 0]%float None nan 300 20 0.001%float
         1%float 2%float 0.5%float []
       = (Ok (x_best, f_best, false, n_evals, 0), log')) /\
    (300 <= Z.of_nat n_evals)%Z.
Proof.
  apply (minimize_with_unreachable_tolerance (H := float64) test_fun_1 [0; 0; 0]%float
           None nan 300 20 0.001%float 1%float 2%float 0.5%float []).
  - intros y. apply (ltb_nan (PrimFloat.sqrt y) nan). reflexivity.
  - simpl. lia.
  - exact I.
  - lia.
  - simpl. lia.
Defined.

End idle_rounds_binary64.
